(** * MCP secret extraction (src/sync/mcp-secrets.ts)

    A shallow embedding of [extractMcpSecrets], [mergeOverrides],
    [stripOverrideKeys] and their helpers, with the properties the
    specification states about them.

    Strings.  A JavaScript string is a sequence of UTF-16 code units.  The
    development covers the strings whose code units are below 256: a Rocq
    [string] is read as such a sequence, one [ascii] per code unit.  On
    these the regular expressions, [trim] and [toLowerCase] of the source
    are modelled exactly.  The module treats the code units from 256 on
    like those from 128 to 255: none is a letter, a digit, a brace, a
    colon or an underscore for its patterns, some are white space as
    U+00A0 is, and [toLowerCase] turns no string that holds one into
    [authorization] or [proxy-authorization].

    Objects.  A property name such as [__proto__] is an ordinary key of a
    parsed JSON document, but reading and assigning it on an object that
    does not own it goes through the accessor of %Object.prototype%.  The
    value model therefore gives every object its prototype, and property
    reads and writes follow the prototype chain. *)

From Stdlib Require Import String Ascii List Bool Arith NArith ZArith Lia.
Import ListNotations.

Local Open Scope string_scope.
Local Open Scope list_scope.

(** ** Characters and the regular expressions of the module *)

Module Chars.

Definition code (c : ascii) : N := N_of_ascii c.

Definition between (lo hi : N) (c : ascii) : bool :=
  (lo <=? code c)%N && (code c <=? hi)%N.

(** [A-Z], [a-z], [0-9]. *)
Definition is_upper (c : ascii) : bool := between 65 90 c.
Definition is_lower (c : ascii) : bool := between 97 122 c.
Definition is_digit (c : ascii) : bool := between 48 57 c.
Definition is_alpha (c : ascii) : bool := is_upper c || is_lower c.

(** [a-zA-Z0-9] *)
Definition is_alnum (c : ascii) : bool := is_alpha c || is_digit c.

Definition is_char (x : ascii) (c : ascii) : bool := Ascii.eqb c x.

(** [A-Z0-9_] *)
Definition is_env_name_char (c : ascii) : bool :=
  is_upper c || is_digit c || is_char "_" c.

(** [A-Za-z0-9+.-] *)
Definition is_scheme_char (c : ascii) : bool :=
  is_alnum c || is_char "+" c || is_char "." c || is_char "-" c.

(** White space and line terminators of ECMAScript among the code units
    below 256: TAB, LF, VT, FF, CR, SP and NBSP.  This is the class of
    [String.prototype.trim] and of [\s]. *)
Definition is_space (c : ascii) : bool :=
  between 9 13 c || (code c =? 32)%N || (code c =? 160)%N.

(** [String.prototype.toLowerCase] on one code unit below 256: the letters
    A-Z and the Latin-1 capitals U+00C0..U+00DE other than the
    multiplication sign U+00D7 move up by 32. *)
Definition lower (c : ascii) : ascii :=
  if is_upper c || (between 192 222 c && negb (code c =? 215)%N)
  then ascii_of_N (code c + 32) else c.

(** [String.prototype.toUpperCase] on one code unit, for the code units the
    module applies it to: letters, digits and the underscore (see
    [toEnvToken]).  Only a-z change. *)
Definition upper (c : ascii) : ascii :=
  if is_lower c then ascii_of_N (code c - 32) else c.

End Chars.

Module Str.
Import Chars.

Fixpoint map (f : ascii -> ascii) (s : string) : string :=
  match s with
  | EmptyString => EmptyString
  | String c r => String (f c) (map f r)
  end.

Fixpoint forallb (p : ascii -> bool) (s : string) : bool :=
  match s with
  | EmptyString => true
  | String c r => p c && forallb p r
  end.

Fixpoint existsb (p : ascii -> bool) (s : string) : bool :=
  match s with
  | EmptyString => false
  | String c r => p c || existsb p r
  end.

Definition is_empty (s : string) : bool :=
  match s with EmptyString => true | _ => false end.

(** The longest prefix of characters in a class, and what follows it. *)
Fixpoint span (p : ascii -> bool) (s : string) : string * string :=
  match s with
  | EmptyString => (EmptyString, EmptyString)
  | String c r =>
      if p c then let '(a, b) := span p r in (String c a, b)
      else (EmptyString, s)
  end.

Fixpoint drop_while (p : ascii -> bool) (s : string) : string :=
  match s with
  | EmptyString => EmptyString
  | String c r => if p c then drop_while p r else s
  end.

(** Removes the longest suffix of characters in a class. *)
Fixpoint drop_while_end (p : ascii -> bool) (s : string) : string :=
  match s with
  | EmptyString => EmptyString
  | String c r =>
      let r' := drop_while_end p r in
      if p c && is_empty r' then EmptyString else String c r'
  end.

Definition toLowerCase : string -> string := map lower.
Definition toUpperCase : string -> string := map upper.

(** [s.trim()] *)
Definition trim (s : string) : string :=
  drop_while_end is_space (drop_while is_space s).

(** [s.replace(/[^a-zA-Z0-9]+/g, '_')]: every maximal run of characters
    outside [a-zA-Z0-9] becomes one underscore.  [in_run] tells that the
    previous character already belonged to the run being replaced. *)
Fixpoint replace_runs (in_run : bool) (s : string) : string :=
  match s with
  | EmptyString => EmptyString
  | String c r =>
      if is_alnum c then String c (replace_runs false r)
      else if in_run then replace_runs true r
      else String "_" (replace_runs true r)
  end.

Definition replace_non_alnum (s : string) : string := replace_runs false s.

(** [s.replace(/^_+|_+$/g, '')]: the underscores the string starts with and
    the underscores it ends with are removed. *)
Definition strip_underscores (s : string) : string :=
  drop_while_end (is_char "_") (drop_while (is_char "_") s).

(** [/^[A-Z0-9_]+$/.test(s)] *)
Definition test_env_name (s : string) : bool :=
  negb (is_empty s) && forallb is_env_name_char s.

(** [[^}]+\}] matched at the start of [s]: one or more characters other
    than the closing brace, then a closing brace.  The greedy run stops at
    the first closing brace, so the match exists exactly when [s] starts
    with another character and holds a closing brace. *)
Definition match_env_body (s : string) : bool :=
  match s with
  | EmptyString => false
  | String c r => negb (is_char "}" c) && existsb (is_char "}") r
  end.

(** A letter of a pattern under the [i] flag (without the [u] flag): a
    code unit of the subject matches it when it is the letter in lower or
    in upper case; no code unit outside ASCII is folded onto an ASCII
    letter. *)
Definition is_char_ci (x : ascii) (c : ascii) : bool :=
  is_char x c || is_char (upper x) c.

(** [/\{env:[^}]+\}/i] matched at the start of [s]. *)
Definition match_placeholder_here (s : string) : bool :=
  match s with
  | String c0 (String c1 (String c2 (String c3 (String c4 r)))) =>
      is_char "{" c0 && is_char_ci "e" c1 && is_char_ci "n" c2
      && is_char_ci "v" c3 && is_char ":" c4 && match_env_body r
  | _ => false
  end.

(** [ENV_PLACEHOLDER_PATTERN.test(s)]: the pattern is not anchored, so it is
    tried at every position of [s]. *)
Fixpoint test_placeholder (s : string) : bool :=
  match_placeholder_here s
  || match s with
     | EmptyString => false
     | String _ r => test_placeholder r
     end.

(** [value.match(re)] for the scheme pattern of [buildHeaderPlaceholder],
    which reads: start of input, one of [A-Za-z], any number of
    [A-Za-z0-9+.-], then one or more [\s].  The result is the whole match
    (element 0): the letter, the longest run of scheme characters and the
    longest run of white space, which must not be empty.  The two classes
    are disjoint, so no shorter run can match. *)
Definition match_scheme (s : string) : option string :=
  match s with
  | EmptyString => None
  | String c r =>
      if is_alpha c then
        let '(scheme, rest) := span is_scheme_char r in
        let '(spaces, _) := span is_space rest in
        if is_empty spaces then None else Some (String c (scheme ++ spaces)%string)
      else None
  end.

End Str.

(** ** The JavaScript values the module works on

    Objects are trees: the module never shares one object between two
    places, so in-place mutation is modelled by rebuilding the path to the
    mutated object.  An ordinary object has a prototype and its own
    enumerable string-keyed properties, listed in the order
    [Object.entries] enumerates them.  A cyclic structure has no tree and
    is outside the model. *)

Module JS.

(** A number: a finite double other than minus zero, given by an integer
    mantissa and a binary exponent, or one of the four special values.
    The module never computes with numbers. *)
Inductive Number : Type :=
| NFinite (mantissa exponent : Z)
| NNegZero
| NNaN
| NPosInfinity
| NNegInfinity.

Unset Elimination Schemes.

Inductive Value : Type :=
| VUndefined
| VNull
| VBool (b : bool)
| VNumber (n : Number)
| VBigInt (z : Z)
| VString (s : string)
| VFunction                       (** any function; not inspected *)
| VObjectPrototype                (** the intrinsic %Object.prototype% *)
| VArray (items : list Value)
| VObject (proto : Value) (props : list (string * Value)).

Set Elimination Schemes.

Definition Props : Type := list (string * Value).

Section ValueInduction.
Variable P : Value -> Prop.
Hypothesis Hundefined : P VUndefined.
Hypothesis Hnull : P VNull.
Hypothesis Hbool : forall b, P (VBool b).
Hypothesis Hnumber : forall n, P (VNumber n).
Hypothesis Hbigint : forall z, P (VBigInt z).
Hypothesis Hstring : forall s, P (VString s).
Hypothesis Hfunction : P VFunction.
Hypothesis Hobjproto : P VObjectPrototype.
Hypothesis Harray : forall items, Forall P items -> P (VArray items).
Hypothesis Hobject : forall proto props,
    P proto -> Forall (fun kv => P (snd kv)) props -> P (VObject proto props).

Fixpoint Value_induction (v : Value) : P v :=
  match v with
  | VUndefined => Hundefined
  | VNull => Hnull
  | VBool b => Hbool b
  | VNumber n => Hnumber n
  | VBigInt z => Hbigint z
  | VString s => Hstring s
  | VFunction => Hfunction
  | VObjectPrototype => Hobjproto
  | VArray items =>
      Harray items
        ((fix all (l : list Value) : Forall P l :=
            match l with
            | [] => Forall_nil _
            | x :: r => Forall_cons x (Value_induction x) (all r)
            end) items)
  | VObject proto props =>
      Hobject proto props (Value_induction proto)
        ((fix all (l : Props) : Forall (fun kv => P (snd kv)) l :=
            match l with
            | [] => Forall_nil _
            | kv :: r => Forall_cons kv (Value_induction (snd kv)) (all r)
            end) props)
  end.
End ValueInduction.

(** A fresh object literal [{}]. *)
Definition empty_object : Value := VObject VObjectPrototype [].

(** *** Own properties *)

Fixpoint own (k : string) (ps : Props) : option Value :=
  match ps with
  | [] => None
  | (k', v) :: r => if String.eqb k k' then Some v else own k r
  end.

Definition has_own (k : string) (ps : Props) : bool :=
  match own k ps with Some _ => true | None => false end.

Definition keys (ps : Props) : list string := List.map fst ps.

(** Writing an existing own property keeps its place in the enumeration. *)
Fixpoint replace_own (k : string) (v : Value) (ps : Props) : Props :=
  match ps with
  | [] => []
  | (k', v') :: r =>
      if String.eqb k k' then (k', v) :: r else (k', v') :: replace_own k v r
  end.

(** [delete o[k]] *)
Definition delete_own (k : string) (ps : Props) : Props :=
  filter (fun kv => negb (String.eqb k (fst kv))) ps.

Fixpoint digits_value (acc : N) (s : string) : option N :=
  match s with
  | EmptyString => Some acc
  | String c r =>
      if Chars.is_digit c
      then digits_value (10 * acc + (Chars.code c - 48)) r
      else None
  end.

(** An array index: the canonical decimal form of an integer from 0 to
    2^32 - 2.  Such keys are enumerated first, in ascending order. *)
Definition array_index (k : string) : option N :=
  match k with
  | EmptyString => None
  | String c r =>
      if Chars.is_char "0" c && negb (Str.is_empty r) then None
      else if (10 <? String.length k)%nat then None
      else match digits_value 0 k with
           | Some n => if (n <=? 4294967294)%N then Some n else None
           | None => None
           end
  end.

Fixpoint insert_index (i : N) (k : string) (v : Value) (ps : Props) : Props :=
  match ps with
  | [] => [(k, v)]
  | (k', v') :: r =>
      match array_index k' with
      | Some j =>
          if (j <? i)%N then (k', v') :: insert_index i k v r
          else (k, v) :: ps
      | None => (k, v) :: ps
      end
  end.

(** Creating an own property: an array index goes to its place among the
    array indices, any other key to the end. *)
Definition add_own (k : string) (v : Value) (ps : Props) : Props :=
  match array_index k with
  | Some i => insert_index i k v ps
  | None => ps ++ [(k, v)]
  end.

(** *** Property access through the prototype chain *)

(** The own property [k] of [o] or, failing that, of the first ordinary
    object on its prototype chain that has one. *)
Fixpoint lookup_chain (o : Value) (k : string) : option Value :=
  match o with
  | VObject proto props =>
      match own k props with
      | Some v => Some v
      | None => lookup_chain proto k
      end
  | _ => None
  end.

(** What the chain of ordinary objects starting at [o] ends with. *)
Fixpoint chain_end (o : Value) : Value :=
  match o with
  | VObject proto _ => chain_end proto
  | _ => o
  end.

Definition getPrototypeOf (o : Value) : Value :=
  match o with
  | VObject proto _ => proto
  | VObjectPrototype => VNull
  | _ => VUndefined
  end.

(** The data properties of %Object.prototype%; all hold functions. *)
Definition object_prototype_methods : list string :=
  [ "constructor"; "hasOwnProperty"; "isPrototypeOf"; "propertyIsEnumerable";
    "toLocaleString"; "toString"; "valueOf"; "__defineGetter__";
    "__defineSetter__"; "__lookupGetter__"; "__lookupSetter__" ].

Definition is_method (k : string) : bool :=
  List.existsb (String.eqb k) object_prototype_methods.

Definition is_object (v : Value) : bool :=
  match v with
  | VObject _ _ | VArray _ | VFunction | VObjectPrototype => true
  | _ => false
  end.

Definition is_null (v : Value) : bool :=
  match v with VNull => true | _ => false end.

(** [o[k]] for an ordinary object [o] or %Object.prototype%.  A key found
    neither on [o] nor on the ordinary objects of its chain is looked up
    on %Object.prototype% when the chain ends there: [__proto__] is an
    accessor whose getter returns the prototype of the receiver [o], the
    methods are functions, any other key is absent.

    For arrays, functions and primitive values (as [o] or on a chain)
    the properties they have of their own or from their prototypes are
    not modelled: the read gives [undefined], which is what JavaScript
    gives for the only key the module reads from a value that need not
    be an ordinary object, [mcp]. *)
Definition get (o : Value) (k : string) : Value :=
  match lookup_chain o k with
  | Some v => v
  | None =>
      match chain_end o with
      | VObjectPrototype =>
          if String.eqb k "__proto__" then getPrototypeOf o
          else if is_method k then VFunction
          else VUndefined
      | _ => VUndefined
      end
  end.

(** [o[k] = v] for an ordinary, extensible object [o] (OrdinarySet).  An
    own property is overwritten.  Otherwise the chain is searched: a data
    property found there, and a key found nowhere, make a new own property
    of [o]; but [__proto__] reaching %Object.prototype% runs the setter of
    that accessor, which replaces the prototype of [o] when [v] is an
    object or [null] and does nothing otherwise.  The module assigns to
    ordinary objects only; other receivers are left as they are. *)
Definition set (o : Value) (k : string) (v : Value) : Value :=
  match o with
  | VObject proto props =>
      match own k props with
      | Some _ => VObject proto (replace_own k v props)
      | None =>
          match lookup_chain proto k, chain_end proto with
          | None, VObjectPrototype =>
              if String.eqb k "__proto__"
              then if is_object v || is_null v then VObject v props else o
              else VObject proto (add_own k v props)
          | _, _ => VObject proto (add_own k v props)
          end
      end
  | _ => o
  end.

Fixpoint modify_chain (o : Value) (k : string) (f : Value -> Value) : Value :=
  match o with
  | VObject proto props =>
      match own k props with
      | Some v => VObject proto (replace_own k (f v) props)
      | None => VObject (modify_chain proto k f) props
      end
  | _ => o
  end.

(** In-place mutation of the object that [o[k]] evaluates to: [f] is what
    the mutation does to that object, and the result is [o] afterwards.
    The object sits where [get] found it: in an own property of [o] or of
    an object of its chain, or in the prototype slot of [o] when
    [k] is [__proto__].  ([setNestedValue] mutates what it reads only after
    making sure it is a plain object, so never %Object.prototype% itself.) *)
Definition modify (o : Value) (k : string) (f : Value -> Value) : Value :=
  match lookup_chain o k with
  | Some _ => modify_chain o k f
  | None =>
      match chain_end o, o with
      | VObjectPrototype, VObject proto props =>
          if String.eqb k "__proto__" then VObject (f proto) props else o
      | _, _ => o
      end
  end.

(** *** Exceptions *)

Inductive Exception : Type :=
| TypeError
| SyntaxError.

Inductive Result (A : Type) : Type :=
| Ok (a : A)
| Throw (e : Exception).

Arguments Ok {A} a.
Arguments Throw {A} e.

Definition bind {A B : Type} (r : Result A) (k : A -> Result B) : Result B :=
  match r with
  | Ok a => k a
  | Throw e => Throw e
  end.

Section Traverse.
Context {A B : Type} (f : A -> Result B).

Fixpoint traverse (l : list A) : Result (list B) :=
  match l with
  | [] => Ok []
  | x :: r =>
      bind (f x) (fun y => bind (traverse r) (fun ys => Ok (y :: ys)))
  end.
End Traverse.

Section TraverseProps.
Context (f : Value -> Result (option Value)).

(** The properties whose value serializes; the others are left out. *)
Fixpoint traverse_props (l : Props) : Result Props :=
  match l with
  | [] => Ok []
  | (k, v) :: r =>
      bind (f v) (fun y =>
      bind (traverse_props r) (fun ys =>
      Ok (match y with
          | Some v' => (k, v') :: ys
          | None => ys
          end)))
  end.
End TraverseProps.

(** *** JSON *)

(** [JSON.stringify] writes NaN and the infinities as [null] and minus
    zero as [0]. *)
Definition json_number (n : Number) : Value :=
  match n with
  | NFinite m e => VNumber (NFinite m e)
  | NNegZero => VNumber (NFinite 0 0)
  | NNaN | NPosInfinity | NNegInfinity => VNull
  end.

Definition or_null (r : option Value) : Value :=
  match r with
  | Some v => v
  | None => VNull
  end.

(** The value [JSON.parse] rebuilds from the text [JSON.stringify] writes
    for [v], or [None] when [JSON.stringify] gives [undefined] for it
    (SerializeJSONProperty).  [undefined] and functions have no text;
    a BigInt throws a TypeError; an array keeps its length, an element
    without text becoming [null]; an object keeps the own enumerable
    properties that have a text, in their order, and the result has
    %Object.prototype% as prototype.  Values with a [toJSON] method are
    outside the model, functions being opaque: the serializer would call
    the method.  The statements made about values that are not
    JSON-compatible carry the guard [without_toJSON]. *)
Fixpoint json_roundtrip (v : Value) : Result (option Value) :=
  match v with
  | VUndefined | VFunction => Ok None
  | VNull => Ok (Some VNull)
  | VBool b => Ok (Some (VBool b))
  | VNumber n => Ok (Some (json_number n))
  | VBigInt _ => Throw TypeError
  | VString s => Ok (Some (VString s))
  | VObjectPrototype => Ok (Some empty_object)
  | VArray items =>
      bind (traverse (fun x => bind (json_roundtrip x)
                                 (fun y => Ok (or_null y))) items)
           (fun items' => Ok (Some (VArray items')))
  | VObject _ props =>
      bind (traverse_props json_roundtrip props)
           (fun props' => Ok (Some (VObject VObjectPrototype props')))
  end.

(** [JSON.parse(JSON.stringify(v))]: when [JSON.stringify] gives
    [undefined], [JSON.parse] is handed the text "undefined" and throws a
    SyntaxError. *)
Definition json_clone (v : Value) : Result Value :=
  bind (json_roundtrip v) (fun r =>
    match r with
    | Some v' => Ok v'
    | None => Throw SyntaxError
    end).

End JS.

Module McpSecrets.
Import JS.

(** ** src/sync/mcp-secrets.ts

    The functions keep their names.  A function that may throw returns a
    [Result].  The variables [mcp], [serverConfig], [headers] and [oauth]
    of [extractMcpSecrets] alias parts of [sanitizedConfig], which the
    source mutates in place: the embedding threads the object through the
    loop as state and puts it back with [modify] where the alias points.
    [Object.entries] takes its snapshot before the loop, so the loops fold
    over the entries of the object as it was. *)

Record McpSecretExtraction : Type := {
  sanitizedConfig : Value;
  secretOverrides : Value
}.

(** [isPlainObject]: a truthy value of type [object] whose prototype is
    %Object.prototype% itself. *)
Definition isPlainObject (value : Value) : bool :=
  match value with
  | VObject VObjectPrototype _ => true
  | _ => false
  end.

Definition getPlainObject (value : Value) : option Value :=
  if isPlainObject value then Some value else None.

(** [Object.entries(o)] and [Object.keys(o)] of an ordinary object. *)
Definition entries (o : Value) : Props :=
  match o with
  | VObject _ props => props
  | _ => []
  end.

Definition Object_keys (o : Value) : list string := keys (entries o).

(** [Object.hasOwn(target, key)] *)
Definition hasOwn (target : Value) (key : string) : bool :=
  has_own key (entries target).

(** [delete o[key]] *)
Definition delete (o : Value) (key : string) : Value :=
  match o with
  | VObject proto props => VObject proto (delete_own key props)
  | _ => o
  end.

(** [String(value)]; the module applies it to a value already known to be
    a string. *)
Definition String_ (value : Value) : string :=
  match value with
  | VString s => s
  | VUndefined => "undefined"
  | VNull => "null"
  | VBool true => "true"
  | VBool false => "false"
  | _ => ""
  end.

(** [typeof value === 'string' && value.length > 0 &&
     !ENV_PLACEHOLDER_PATTERN.test(value)] *)
Definition isSecretString (value : Value) : bool :=
  match value with
  | VString s => negb (Str.is_empty s) && negb (Str.test_placeholder s)
  | _ => false
  end.

(** [String(input)] is [input], a string. *)
Definition toEnvToken (input : string) (fallback : string) : string :=
  let cleaned :=
    Str.strip_underscores (Str.replace_non_alnum (Str.trim input)) in
  if Str.is_empty cleaned then fallback else Str.toUpperCase cleaned.

Definition buildEnvVar (serverName key : string) : string :=
  let serverToken := toEnvToken serverName "SERVER" in
  let keyToken := toEnvToken key "VALUE" in
  ("OPENCODE_MCP_" ++ serverToken ++ "_" ++ keyToken)%string.

Definition buildHeaderEnvVar (serverName headerName : string) : string :=
  if Str.test_env_name headerName then headerName
  else buildEnvVar serverName headerName.

(** [headerName] is an optional parameter: [None] is [undefined]. *)
Definition isAuthorizationHeader (headerName : option string) : bool :=
  match headerName with
  | None => false
  | Some name =>
      if Str.is_empty name then false
      else
        let normalized := Str.toLowerCase name in
        String.eqb normalized "authorization"
        || String.eqb normalized "proxy-authorization"
  end.

Definition env_reference (envVar : string) : string :=
  ("{env:" ++ envVar ++ "}")%string.

Definition buildHeaderPlaceholder
    (value envVar : string) (headerName : option string) : string :=
  if negb (isAuthorizationHeader headerName) then env_reference envVar
  else
    match Str.match_scheme value with
    | Some schemeMatch0 => (schemeMatch0 ++ env_reference envVar)%string
    | None => env_reference envVar
    end.

(** [setNestedValue(target, path, value)], giving [target] after the
    call.  The loop walks [current] down the path, creating [{}] where
    the child is not a plain object, and the last key is assigned in the
    object reached; [modify] places the effect of the remaining steps
    where [current[key]] lives.  With an empty path the last key is
    [path[-1]], that is [undefined], and the property written is
    "undefined". *)
Fixpoint setNestedValue (target : Value) (path : list string) (value : Value)
  : Value :=
  match path with
  | [] => set target "undefined" value
  | [last] => set target last value
  | key :: rest =>
      let next := get target key in
      let target1 :=
        if negb (isPlainObject next) then set target key empty_object
        else target in
      modify target1 key (fun current => setNestedValue current rest value)
  end.

(** [cloneConfig]: [JSON.parse(JSON.stringify(config))] *)
Definition cloneConfig (config : Value) : Result Value := json_clone config.

(** The body of the loop over [Object.entries(headers)] (lines 25-31).
    The state is the [headers] object being mutated and the overrides. *)
Definition extractHeader (serverName : string)
    (state : Value * Value) (entry : string * Value) : Value * Value :=
  let '(headers, overrides) := state in
  let '(headerName, headerValue) := entry in
  if negb (isSecretString headerValue) then state
  else
    let envVar := buildHeaderEnvVar serverName headerName in
    let placeholder :=
      buildHeaderPlaceholder (String_ headerValue) envVar (Some headerName) in
    (set headers headerName (VString placeholder),
     setNestedValue overrides ["mcp"; serverName; "headers"; headerName]
       headerValue).

(** Lines 23-32: the headers of one server.  The state is the server's
    configuration object and the overrides. *)
Definition extractHeaders (serverName : string) (state : Value * Value)
  : Value * Value :=
  let '(serverConfig, overrides) := state in
  match getPlainObject (get serverConfig "headers") with
  | Some headers =>
      let '(headers1, overrides1) :=
        fold_left (extractHeader serverName) (entries headers)
          (headers, overrides) in
      (modify serverConfig "headers" (fun _ => headers1), overrides1)
  | None => state
  end.

(** Lines 34-42: the OAuth client secret of one server. *)
Definition extractOAuth (serverName : string) (state : Value * Value)
  : Value * Value :=
  let '(serverConfig, overrides) := state in
  match getPlainObject (get serverConfig "oauth") with
  | Some oauth =>
      let clientSecret := get oauth "clientSecret" in
      if isSecretString clientSecret then
        let envVar := buildEnvVar serverName "OAUTH_CLIENT_SECRET" in
        (modify serverConfig "oauth"
           (fun oauth => set oauth "clientSecret"
                           (VString (env_reference envVar))),
         setNestedValue overrides ["mcp"; serverName; "oauth"; "clientSecret"]
           clientSecret)
      else state
  | None => state
  end.

(** The body of the loop over [Object.entries(mcp)] (lines 19-43).  The
    state is the [mcp] object being mutated and the overrides. *)
Definition extractServer (state : Value * Value) (entry : string * Value)
  : Value * Value :=
  let '(mcp, overrides) := state in
  let '(serverName, serverConfigValue) := entry in
  match getPlainObject serverConfigValue with
  | None => state
  | Some serverConfig =>
      let '(serverConfig1, overrides1) :=
        extractOAuth serverName
          (extractHeaders serverName (serverConfig, overrides)) in
      (modify mcp serverName (fun _ => serverConfig1), overrides1)
  end.

(** [sanitizedConfig.mcp]: reading a property of [null] or [undefined]
    throws a TypeError. *)
Definition read (o : Value) (key : string) : Result Value :=
  match o with
  | VNull | VUndefined => Throw TypeError
  | _ => Ok (get o key)
  end.

Definition extractMcpSecrets (config : Value) : Result McpSecretExtraction :=
  bind (cloneConfig config) (fun sanitized =>
  let overrides := empty_object in
  bind (read sanitized "mcp") (fun mcpValue =>
  match getPlainObject mcpValue with
  | None => Ok {| sanitizedConfig := sanitized; secretOverrides := overrides |}
  | Some mcp =>
      let '(mcp1, overrides1) :=
        fold_left extractServer (entries mcp) (mcp, overrides) in
      Ok {| sanitizedConfig := modify sanitized "mcp" (fun _ => mcp1);
            secretOverrides := overrides1 |}
  end)).

(** Modelled from the spec: [deepMerge] of src/sync/config.ts, which is
    not among the sources.  The specification (4.2) says: for every path
    present in both, if both values are plain mappings, merge
    recursively; otherwise the value of [extra] wins; what is not present
    in [extra] is left as in [base]; keys only in [extra] are added.  The
    keys of [base] keep their order and the new keys follow. *)
Fixpoint deepMerge (base extra : Value) {struct base} : Value :=
  match base, extra with
  | VObject VObjectPrototype bprops, VObject VObjectPrototype eprops =>
      VObject VObjectPrototype
        (List.map
           (fun kv =>
              match own (fst kv) eprops with
              | Some ev => (fst kv, deepMerge (snd kv) ev)
              | None => kv
              end) bprops
         ++ List.filter (fun kv => negb (has_own (fst kv) bprops)) eprops)
  | _, _ => extra
  end.

Definition mergeOverrides (base extra : Value) : Value := deepMerge base extra.

(** [stripOverrideKeys]: unless both arguments are plain objects [base] is
    returned (line 129); otherwise [result] is the copy [{ ...base }], and
    the loop over [Object.entries(toRemove)] (lines 135-152) updates it. *)
Fixpoint stripOverrideKeys (base toRemove : Value) {struct toRemove} : Value :=
  match base, toRemove with
  | VObject VObjectPrototype bprops, VObject VObjectPrototype rprops =>
      fold_left
        (fun result '(key, removeValue) =>
           if negb (hasOwn result key) then result
           else
             let currentValue := get result key in
             if isPlainObject removeValue && isPlainObject currentValue then
               let stripped := stripOverrideKeys currentValue removeValue in
               if (List.length (Object_keys stripped) =? 0)%nat
               then delete result key
               else set result key stripped
             else delete result key)
        rprops (VObject VObjectPrototype bprops)
  | _, _ => base
  end.

(** [hasOverrides]: the parameter is a [Record], an ordinary object, of
    which [Object.keys] lists the own enumerable string keys.  What
    [Object.keys] does with other values (the indices of an array or a
    string, a TypeError for [null] and [undefined]) is not modelled. *)
Definition hasOverrides (value : Value) : bool :=
  negb (List.length (Object_keys value) =? 0)%nat.

End McpSecrets.

(** ** Vocabulary of the specification

    Definitions used to state the properties: documents, paths, the
    expected result of the extraction, and the functions the specification
    describes in words. *)

Module Spec.
Import JS McpSecrets.

(** *** Documents and paths *)

Fixpoint nodup_keys (l : list string) : bool :=
  match l with
  | [] => true
  | k :: r => negb (List.existsb (String.eqb k) r) && nodup_keys r
  end.

(** A JSON-compatible value: what [JSON.parse] can return and
    [JSON.stringify] writes back unchanged.  Objects are plain and have no
    repeated key; numbers are finite and not minus zero. *)
Fixpoint json_compatible (v : Value) : bool :=
  match v with
  | VNull | VBool _ | VString _ => true
  | VNumber (NFinite _ _) => true
  | VArray items => List.forallb json_compatible items
  | VObject VObjectPrototype props =>
      nodup_keys (keys props)
      && List.forallb (fun kv => json_compatible (snd kv)) props
  | _ => false
  end.

(** A config document: a JSON-compatible mapping. *)
Definition is_document (config : Value) : bool :=
  isPlainObject config && json_compatible config.

Definition is_mapping (v : Value) : bool :=
  match v with VObject _ _ => true | _ => false end.

(** No object has two properties with one key (true of every JavaScript
    object). *)
Fixpoint unique_keys (v : Value) : bool :=
  match v with
  | VArray items => List.forallb unique_keys items
  | VObject proto props =>
      unique_keys proto && nodup_keys (keys props)
      && List.forallb (fun kv => unique_keys (snd kv)) props
  | _ => true
  end.

(** The value at a key path, following own properties only: this is what
    [Object.entries], [JSON.stringify] and a deep comparison see. *)
Fixpoint get_path (v : Value) (path : list string) : option Value :=
  match path with
  | [] => Some v
  | key :: rest =>
      match own key (entries v) with
      | Some child => get_path child rest
      | None => None
      end
  end.

Definition is_prefix (p q : list string) : Prop := exists r, q = p ++ r.

Definition strict_prefix (p q : list string) : Prop :=
  exists k r, q = p ++ k :: r.

(** [mcp.<server>.headers.<name>] and [mcp.<server>.oauth.clientSecret] *)
Definition header_path (serverName headerName : string) : list string :=
  ["mcp"; serverName; "headers"; headerName].

Definition oauth_path (serverName : string) : list string :=
  ["mcp"; serverName; "oauth"; "clientSecret"].

Definition secret_path (q : list string) : Prop :=
  (exists s h, q = header_path s h) \/ (exists s, q = oauth_path s).

(** The document holds a secret at [q]: a header value or an OAuth client
    secret that is a non-empty string without a placeholder. *)
Definition secret_at (config : Value) (q : list string) : Prop :=
  secret_path q /\
  exists v, get_path config q = Some v /\ isSecretString v = true.

(** Secrets seen from a node of the document, by their relative path. *)
Definition rel_headers (hv : Value) (q : list string) : Prop :=
  exists h v, q = [h] /\ own h (entries hv) = Some v /\ isSecretString v = true.

Definition rel_oauth (ov : Value) (q : list string) : Prop :=
  exists v, q = ["clientSecret"] /\ own "clientSecret" (entries ov) = Some v
            /\ isSecretString v = true.

Definition rel_server (sv : Value) (q : list string) : Prop :=
  (exists hv q', own "headers" (entries sv) = Some hv /\ rel_headers hv q'
                 /\ q = "headers" :: q')
  \/ (exists ov q', own "oauth" (entries sv) = Some ov /\ rel_oauth ov q'
                    /\ q = "oauth" :: q').

Definition rel_mcp (mv : Value) (q : list string) : Prop :=
  exists s sv q', own s (entries mv) = Some sv /\ rel_server sv q' /\ q = s :: q'.

Definition rel_doc (config : Value) (q : list string) : Prop :=
  exists mv q', own "mcp" (entries config) = Some mv /\ rel_mcp mv q'
                /\ q = "mcp" :: q'.

(** *** The environment-variable name, in the words of the specification

    "the input uppercased with runs of non-alphanumeric characters
    collapsed to single underscores and leading/trailing underscores
    trimmed; an empty token falls back".  Alphanumeric is [a-zA-Z0-9], so
    uppercasing concerns the letters a-z: every other character is a digit
    or is replaced. *)
Definition env_token (input fallback : string) : string :=
  let token :=
    Str.strip_underscores (Str.replace_non_alnum (Str.toUpperCase input)) in
  if Str.is_empty token then fallback else token.

(** *** The sanitized config, described declaratively *)

Definition header_replacement (serverName headerName : string) (value : Value)
  : Value :=
  VString (buildHeaderPlaceholder (String_ value)
             (buildHeaderEnvVar serverName headerName) (Some headerName)).

Definition oauth_replacement (serverName : string) : Value :=
  VString (env_reference (buildEnvVar serverName "OAUTH_CLIENT_SECRET")).

(** [o] with its own property [key], if any, mapped by [f]. *)
Definition map_own (key : string) (f : Value -> Value) (o : Value) : Value :=
  match o with
  | VObject proto props =>
      match own key props with
      | Some v => VObject proto (replace_own key (f v) props)
      | None => o
      end
  | _ => o
  end.

Definition san_entry (serverName : string) (kv : string * Value)
  : string * Value :=
  (fst kv,
   if isSecretString (snd kv)
   then header_replacement serverName (fst kv) (snd kv)
   else snd kv).

Definition san_headers (serverName : string) (headers : Value) : Value :=
  match headers with
  | VObject VObjectPrototype props =>
      VObject VObjectPrototype (List.map (san_entry serverName) props)
  | _ => headers
  end.

Definition san_oauth (serverName : string) (oauth : Value) : Value :=
  match oauth with
  | VObject VObjectPrototype props =>
      match own "clientSecret" props with
      | Some clientSecret =>
          if isSecretString clientSecret
          then VObject VObjectPrototype
                 (replace_own "clientSecret" (oauth_replacement serverName) props)
          else oauth
      | None => oauth
      end
  | _ => oauth
  end.

Definition san_server (serverName : string) (serverConfig : Value) : Value :=
  match serverConfig with
  | VObject VObjectPrototype _ =>
      map_own "oauth" (san_oauth serverName)
        (map_own "headers" (san_headers serverName) serverConfig)
  | _ => serverConfig
  end.

Definition san_mcp (mcp : Value) : Value :=
  match mcp with
  | VObject VObjectPrototype props =>
      VObject VObjectPrototype
        (List.map (fun kv => (fst kv, san_server (fst kv) (snd kv))) props)
  | _ => mcp
  end.

Definition san_doc (config : Value) : Value := map_own "mcp" san_mcp config.

(** *** The calls of [setNestedValue], in the order the loops make them *)

Definition Write : Type := (list string * Value)%type.

Definition header_write (serverName : string) (kv : string * Value)
  : list Write :=
  if isSecretString (snd kv)
  then [(header_path serverName (fst kv), snd kv)] else [].

Definition header_writes (serverName : string) (headers : option Value)
  : list Write :=
  match headers with
  | Some (VObject VObjectPrototype props) =>
      List.flat_map (header_write serverName) props
  | _ => []
  end.

Definition oauth_writes (serverName : string) (oauth : option Value)
  : list Write :=
  match oauth with
  | Some (VObject VObjectPrototype props) =>
      match own "clientSecret" props with
      | Some clientSecret =>
          if isSecretString clientSecret
          then [(oauth_path serverName, clientSecret)] else []
      | None => []
      end
  | _ => []
  end.

Definition server_writes (serverName : string) (serverConfig : Value)
  : list Write :=
  match serverConfig with
  | VObject VObjectPrototype props =>
      header_writes serverName (own "headers" props)
      ++ oauth_writes serverName (own "oauth" props)
  | _ => []
  end.

Definition doc_writes (config : Value) : list Write :=
  match own "mcp" (entries config) with
  | Some (VObject VObjectPrototype props) =>
      List.flat_map (fun kv => server_writes (fst kv) (snd kv)) props
  | _ => []
  end.

Definition apply_write (overrides : Value) (w : Write) : Value :=
  setNestedValue overrides (fst w) (snd w).

Definition apply_writes (ws : list Write) (overrides : Value) : Value :=
  fold_left apply_write ws overrides.

Definition leaf_writes (ws : list Write) : Prop :=
  forall q v, In (q, v) ws -> q <> [] /\ is_mapping v = false.

(** *** stripOverrideKeys and mergeOverrides, key by key *)

Definition is_empty_object (v : Value) : bool :=
  match Object_keys v with [] => true | _ => false end.

(** The body of the loop of [stripOverrideKeys] (lines 135-152). *)
Definition strip_step (result : Value) (entry : string * Value) : Value :=
  let '(key, removeValue) := entry in
  if negb (hasOwn result key) then result
  else
    let currentValue := get result key in
    if isPlainObject removeValue && isPlainObject currentValue then
      let stripped := stripOverrideKeys currentValue removeValue in
      if (List.length (Object_keys stripped) =? 0)%nat
      then delete result key
      else set result key stripped
    else delete result key.

(** What 4.3 says becomes of the key [key] of [base]: it stays as it is
    when [toRemove] does not have it; when both values are plain mappings
    the nested mapping is stripped recursively and the key is dropped if
    nothing is left; otherwise the key is deleted. *)
Definition stripped_entry (bprops rprops : Props) (key : string) : option Value :=
  match own key bprops with
  | None => None
  | Some bv =>
      match own key rprops with
      | None => Some bv
      | Some rv =>
          if isPlainObject bv && isPlainObject rv then
            let stripped := stripOverrideKeys bv rv in
            if is_empty_object stripped then None else Some stripped
          else None
      end
  end.

(** What 4.2 says the merge holds at [key]. *)
Definition merged_entry (bprops eprops : Props) (key : string) : option Value :=
  match own key bprops, own key eprops with
  | Some bv, Some ev =>
      Some (if isPlainObject bv && isPlainObject ev then mergeOverrides bv ev
            else ev)
  | Some bv, None => Some bv
  | None, Some ev => Some ev
  | None, None => None
  end.

(** *** Trees of plain mappings *)

(** Every object reached through own properties is a plain mapping. *)
Fixpoint all_plain (v : Value) : bool :=
  match v with
  | VObject VObjectPrototype props =>
      List.forallb (fun kv => all_plain (snd kv)) props
  | VObject _ _ => false
  | _ => true
  end.

(** Two paths part at some key. *)
Definition diverges (p q : list string) : Prop :=
  exists c k1 k2 r1 r2, p = c ++ k1 :: r1 /\ q = c ++ k2 :: r2 /\ k1 <> k2.

(** Writes at secret paths that do not name [__proto__]. *)
Definition plain_writes (ws : list Write) : Prop :=
  forall q v, In (q, v) ws ->
    List.length q = 4%nat /\ ~ In "__proto__" q /\ is_mapping v = false.

(** *** The patterns of the placeholder, in words *)

(** A letter, a digit or the underscore: what [toEnvToken] leaves in the
    string it uppercases. *)
Definition is_token_char (c : ascii) : bool :=
  Chars.is_alnum c || Chars.is_char "_" c.

(** [value] begins with [prefix], a match of the scheme pattern: a letter,
    scheme characters, then white space, all of it (the quantifier is
    greedy). *)
Definition scheme_prefix (value prefix : string) : Prop :=
  exists c scheme spaces rest,
    value = (prefix ++ rest)%string
    /\ prefix = String c (scheme ++ spaces)%string
    /\ Chars.is_alpha c = true
    /\ Str.forallb Chars.is_scheme_char scheme = true
    /\ Str.forallb Chars.is_space spaces = true
    /\ spaces <> EmptyString
    /\ match rest with
       | EmptyString => True
       | String x _ => Chars.is_space x = false
       end.

(** The header name is [authorization] or [proxy-authorization] in any
    case. *)
Definition authorization_name (headerName : string) : Prop :=
  Str.toLowerCase headerName = "authorization"
  \/ Str.toLowerCase headerName = "proxy-authorization".

(** *** Serialization failures *)

(** A BigInt is reachable through own properties and array elements:
    [JSON.stringify] throws. *)
Fixpoint has_bigint (v : Value) : bool :=
  match v with
  | VBigInt _ => true
  | VArray items => List.existsb has_bigint items
  | VObject _ props => List.existsb (fun kv => has_bigint (snd kv)) props
  | _ => false
  end.

(** *** Example documents *)

Definition obj (props : Props) : Value := VObject VObjectPrototype props.

(** The input of the third test of mcp-secrets.test.ts. *)
Definition github_config : Value :=
  obj [("mcp", obj [("github",
          obj [("headers", obj [("Authorization", VString "Bearer ghp_example")]);
               ("oauth", obj [("clientId", VString "public");
                              ("clientSecret", VString "super-secret")])])])].

(** The input of the second test: the header already is a placeholder. *)
Definition sanitized_config : Value :=
  obj [("mcp", obj [("context7",
          obj [("headers",
                obj [("CONTEXT7_API_KEY", VString "{env:CONTEXT7_API_KEY}")])])])].

(** A header that holds a placeholder between other text. *)
Definition embedded_config : Value :=
  obj [("mcp", obj [("api",
          obj [("headers", obj [("X-Token", VString "secret-{env:X}-more")])])])].

(** [JSON.parse] of
    [{"mcp":{"__proto__":{"headers":{"X-Api-Key":"sk-live-1"}}}}]:
    the server is named [__proto__], an own property of [mcp]. *)
Definition proto_server_config : Value :=
  obj [("mcp", obj [("__proto__",
          obj [("headers", obj [("X-Api-Key", VString "sk-live-1")])])])].

(** [JSON.parse] of
    [{"mcp":{"__proto__":{"headers":{"Authorization":"Bearer abc123"}}}}] *)
Definition proto_bearer_config : Value :=
  obj [("mcp", obj [("__proto__",
          obj [("headers", obj [("Authorization", VString "Bearer abc123")])])])].

(** [JSON.parse] of a document with three servers, the second one named
    [__proto__]. *)
Definition three_servers_config : Value :=
  obj [("mcp", obj [
    ("a", obj [("headers", obj [("X", VString "s1")])]);
    ("__proto__", obj [("oauth", obj [("clientSecret", VString "s2")])]);
    ("b", obj [("headers", obj [("Z", VString "s3")])])])].

(** [{ retries: NaN, onError: function () {} }] *)
Definition not_json_config : Value :=
  obj [("retries", VNumber NNaN); ("onError", VFunction)].

(** [{ limit: 10n }] *)
Definition bigint_config : Value := obj [("limit", VBigInt 10)].

(** The arguments of the example of 8.6. *)
Definition strip_example : Value :=
  obj [("mcp", obj [("a", obj [("headers", obj [("X", VString "1")])])])].

End Spec.

(** ** Further vocabulary

    Definitions used by the properties that follow the claims: the
    placeholder pattern and the canonical form of a token in words,
    [stripOverrideKeys] as a rebuild of its first argument, the part of a
    document the extraction leaves alone, and objects without an own
    property [__proto__]. *)

Module Notions.
Import Chars Str JS McpSecrets Spec.

(** *** The placeholder pattern and the tokens *)

(** [s] holds a placeholder somewhere: an opening brace, [env] in any
    case, a colon, a non-empty name without closing brace, and a closing
    brace. *)
Definition contains_placeholder (s : string) : Prop :=
  exists pre tag name post,
    s = (pre ++ "{" ++ tag ++ ":" ++ name ++ "}" ++ post)%string
    /\ toLowerCase tag = "env"
    /\ name <> EmptyString
    /\ Str.existsb (is_char "}") name = false.

(** Groups of one or more characters of [A-Z0-9], joined by single
    underscores.  [after_sep] tells that the string starts here or that
    the previous character was an underscore, so that a group has to
    follow. *)
Fixpoint segments (after_sep : bool) (s : string) : bool :=
  match s with
  | EmptyString => negb after_sep
  | String c r =>
      if is_char "_" c then negb after_sep && segments true r
      else (is_upper c || is_digit c) && segments false r
  end.

(** A token in canonical form: it matches
    [^[A-Z0-9]+(_[A-Z0-9]+)*$]. *)
Definition is_env_token (s : string) : bool := segments true s.

(** The same shape over [a-zA-Z0-9], before uppercasing.  The weak form
    ([strict] false) only forbids two underscores in a row; the strict
    form also forbids an underscore at the end. *)
Fixpoint runs (strict after_sep : bool) (s : string) : bool :=
  match s with
  | EmptyString => negb (strict && after_sep)
  | String c r =>
      if is_char "_" c then negb after_sep && runs strict true r
      else is_alnum c && runs strict false r
  end.

(** *** [stripOverrideKeys] as a rebuild of [base] *)

(** What becomes of one property of [base]: it stays when [toRemove] has
    no such key; when both values are plain objects it holds the stripped
    value, unless that is empty; otherwise it goes. *)
Definition strip_entry (rprops : Props) (kv : string * Value) : Props :=
  match own (fst kv) rprops with
  | None => [kv]
  | Some removeValue =>
      if isPlainObject removeValue && isPlainObject (snd kv) then
        let stripped := stripOverrideKeys (snd kv) removeValue in
        if is_empty_object stripped then [] else [(fst kv, stripped)]
      else []
  end.

(** The properties of [base] that are left, in the order of [base]. *)
Definition strip_props (bprops rprops : Props) : Props :=
  List.flat_map (strip_entry rprops) bprops.

(** [toRemove] spares the path: walking down [path], a key is missing
    from [toRemove] before the path ends, and every value met before that
    key is a plain object. *)
Fixpoint spares (toRemove : Value) (path : list string) : bool :=
  match path with
  | [] => false
  | key :: rest =>
      match own key (entries toRemove) with
      | None => true
      | Some removeValue => isPlainObject removeValue && spares removeValue rest
      end
  end.

(** *** What the extraction leaves alone *)

(** The value with every string blanked: keys and their order, arrays,
    numbers, booleans and nulls are kept. *)
Fixpoint skeleton (v : Value) : Value :=
  match v with
  | VString _ => VString ""
  | VArray items => VArray (List.map skeleton items)
  | VObject proto props =>
      VObject (skeleton proto)
        (List.map (fun kv => (fst kv, skeleton (snd kv))) props)
  | _ => v
  end.

(** *** Objects without an own property [__proto__] *)

(** What a prototype chain is made of: ordinary objects and
    %Object.prototype%. *)
Definition chain_ok (v : Value) : bool :=
  match v with
  | VObjectPrototype | VObject _ _ => true
  | _ => false
  end.

(** No object reached from [v], through own properties or prototypes, has
    an own property named [__proto__], and every prototype chain ends at
    %Object.prototype%. *)
Fixpoint no_own_proto (v : Value) : bool :=
  match v with
  | VObject proto props =>
      chain_ok proto && no_own_proto proto
      && negb (has_own "__proto__" props)
      && List.forallb (fun kv => no_own_proto (snd kv)) props
  | _ => true
  end.

(** Neither an object nor [null]: the values the setter of [__proto__]
    ignores. *)
Definition primitive (v : Value) : bool := negb (is_object v) && negb (is_null v).

(** *** Values that [JSON.stringify] serializes by itself *)

Definition is_function (v : option Value) : bool :=
  match v with
  | Some VFunction => true
  | _ => false
  end.

(** No object that [JSON.stringify] serializes on the way through [v]
    has or inherits a method [toJSON].  The serializer calls such a
    method and writes what it returns; functions being opaque, the
    properties of [cloneConfig] on values that are not JSON-compatible
    are stated for values without one.  A function is taken to have no
    property of its own. *)
Fixpoint without_toJSON (v : Value) : bool :=
  match v with
  | VArray items => List.forallb without_toJSON items
  | VObject _ props =>
      negb (is_function (lookup_chain v "toJSON"))
      && List.forallb (fun kv => without_toJSON (snd kv)) props
  | _ => true
  end.

(** *** More example values *)

(** One server with a URL and two secret headers. *)
Definition two_headers_config : Value :=
  obj [("mcp", obj [("a",
          obj [("url", VString "https://a.example");
               ("headers", obj [("X", VString "1"); ("Y", VString "2")])])])].

End Notions.

(** * Properties *)

(** ** Strings: [toEnvToken] and the token of the specification *)

Module StrFacts.
Import Chars Str McpSecrets Spec.

Lemma is_empty_true (s : string) : is_empty s = true <-> s = EmptyString.
Proof. destruct s; simpl; split; congruence. Qed.

Lemma is_empty_map f s : is_empty (map f s) = is_empty s.
Proof. now destruct s. Qed.

Lemma drop_while_map p f s :
  (forall c, p (f c) = p c) ->
  drop_while p (map f s) = map f (drop_while p s).
Proof.
  intros Hp. induction s as [|c r IH]; simpl; [reflexivity|].
  rewrite Hp. destruct (p c); [exact IH | reflexivity].
Qed.

Lemma drop_while_end_map p f s :
  (forall c, p (f c) = p c) ->
  drop_while_end p (map f s) = map f (drop_while_end p s).
Proof.
  intros Hp. induction s as [|c r IH]; simpl; [reflexivity|].
  rewrite Hp, IH, is_empty_map.
  destruct (p c && is_empty (drop_while_end p r)); reflexivity.
Qed.

(** Trimming the two ends commutes. *)
Lemma drop_while_drop_while_end p s :
  drop_while p (drop_while_end p s) = drop_while_end p (drop_while p s).
Proof.
  induction s as [|c r IH]; simpl; [reflexivity|].
  destruct (p c) eqn:Hc; simpl.
  - destruct (is_empty (drop_while_end p r)) eqn:He; simpl.
    + apply is_empty_true in He. rewrite <- IH, He. reflexivity.
    + rewrite Hc. exact IH.
  - rewrite ?Hc; simpl; rewrite ?Hc; reflexivity.
Qed.

Lemma upper_alnum c : is_alnum (upper c) = is_alnum c.
Proof.
  destruct c as [[] [] [] [] [] [] [] []]; reflexivity.
Qed.

Lemma upper_underscore c : is_char "_" (upper c) = is_char "_" c.
Proof.
  destruct c as [[] [] [] [] [] [] [] []]; reflexivity.
Qed.

Lemma space_not_alnum c : is_space c = true -> is_alnum c = false.
Proof.
  destruct c as [[] [] [] [] [] [] [] []]; simpl; intros H;
    first [reflexivity | discriminate H].
Qed.

Lemma alnum_not_underscore c : is_alnum c = true -> is_char "_" c = false.
Proof.
  destruct c as [[] [] [] [] [] [] [] []]; simpl; intros H;
    first [reflexivity | discriminate H].
Qed.

Lemma replace_runs_map_upper b s :
  replace_runs b (map upper s) = map upper (replace_runs b s).
Proof.
  revert b. induction s as [|c r IH]; intros b; simpl; [reflexivity|].
  rewrite upper_alnum. destruct (is_alnum c) eqn:Hc; simpl.
  - now rewrite IH.
  - destruct b; simpl; now rewrite IH.
Qed.

Lemma replace_runs_flag s :
  drop_while (is_char "_") (replace_runs true s)
  = drop_while (is_char "_") (replace_runs false s).
Proof.
  destruct s as [|c r]; simpl; [reflexivity|].
  destruct (is_alnum c); reflexivity.
Qed.

Lemma replace_runs_leading b s :
  drop_while (is_char "_") (replace_runs b (drop_while is_space s))
  = drop_while (is_char "_") (replace_runs b s).
Proof.
  induction s as [|c r IH]; simpl; [reflexivity|].
  destruct (is_space c) eqn:Hc; [|reflexivity].
  rewrite IH, (space_not_alnum _ Hc).
  destruct b; simpl; [reflexivity | apply eq_sym, replace_runs_flag].
Qed.

Lemma replace_runs_all_space s :
  is_empty (drop_while_end is_space s) = true ->
  forall b, drop_while_end (is_char "_") (replace_runs b s) = EmptyString.
Proof.
  induction s as [|c r IH]; simpl; intros He b; [reflexivity|].
  destruct (is_space c) eqn:Hc; simpl in He; [|discriminate He].
  destruct (is_empty (drop_while_end is_space r)) eqn:Hr; [|discriminate He].
  rewrite (space_not_alnum _ Hc).
  destruct b; simpl; rewrite ?IH; reflexivity.
Qed.

Lemma replace_runs_trailing s :
  forall b,
    drop_while_end (is_char "_") (replace_runs b (drop_while_end is_space s))
    = drop_while_end (is_char "_") (replace_runs b s).
Proof.
  induction s as [|c r IH]; intros b; [reflexivity|].
  cbn [drop_while_end].
  destruct (is_space c && is_empty (drop_while_end is_space r)) eqn:E.
  - symmetry. apply replace_runs_all_space. cbn [drop_while_end].
    rewrite E. reflexivity.
  - cbn [replace_runs]. destruct (is_alnum c) eqn:Hc.
    + cbn [drop_while_end]. rewrite IH. reflexivity.
    + destruct b; [apply IH|].
      cbn [drop_while_end]. rewrite IH. reflexivity.
Qed.

Lemma strip_trim s :
  strip_underscores (replace_non_alnum (trim s))
  = strip_underscores (replace_non_alnum s).
Proof.
  unfold strip_underscores, replace_non_alnum, trim.
  rewrite <- !(drop_while_drop_while_end (is_char "_")).
  rewrite replace_runs_trailing.
  rewrite !(drop_while_drop_while_end (is_char "_")).
  rewrite replace_runs_leading. reflexivity.
Qed.

Lemma strip_map_upper s :
  strip_underscores (map upper s) = map upper (strip_underscores s).
Proof.
  unfold strip_underscores.
  rewrite drop_while_map by apply upper_underscore.
  apply drop_while_end_map, upper_underscore.
Qed.

Lemma toEnvToken_env_token input fallback :
  toEnvToken input fallback = env_token input fallback.
Proof.
  unfold toEnvToken, env_token, toUpperCase, replace_non_alnum.
  rewrite strip_trim, replace_runs_map_upper, strip_map_upper, is_empty_map.
  reflexivity.
Qed.
End StrFacts.

(** ** Own properties *)

Module PropsFacts.
Import JS.

Lemma own_replace_same k v ps :
  own k (replace_own k v ps) = match own k ps with Some _ => Some v | None => None end.
Proof.
  induction ps as [|[k' v'] r IH]; simpl; [reflexivity|].
  destruct (String.eqb k k') eqn:E; simpl; rewrite E; [reflexivity | exact IH].
Qed.

Lemma own_replace_other k k' v ps :
  k <> k' -> own k' (replace_own k v ps) = own k' ps.
Proof.
  intros Hne. induction ps as [|[k0 v0] r IH]; simpl; [reflexivity|].
  destruct (String.eqb k k0) eqn:E; simpl.
  - apply String.eqb_eq in E. subst k0.
    destruct (String.eqb k' k) eqn:E'; [|reflexivity].
    apply String.eqb_eq in E'. congruence.
  - destruct (String.eqb k' k0); [reflexivity | exact IH].
Qed.

Lemma own_delete_same k ps : own k (delete_own k ps) = None.
Proof.
  induction ps as [|[k' v'] r IH]; simpl; [reflexivity|].
  destruct (String.eqb k k') eqn:E; simpl; [exact IH|].
  rewrite E. exact IH.
Qed.

Lemma own_delete_other k k' ps :
  k <> k' -> own k' (delete_own k ps) = own k' ps.
Proof.
  intros Hne. induction ps as [|[k0 v0] r IH]; simpl; [reflexivity|].
  destruct (String.eqb k k0) eqn:E; simpl.
  - apply String.eqb_eq in E. subst k0.
    destruct (String.eqb k' k) eqn:E'; [|exact IH].
    apply String.eqb_eq in E'. congruence.
  - destruct (String.eqb k' k0); [reflexivity | exact IH].
Qed.

Lemma own_app k ps qs :
  own k (ps ++ qs) = match own k ps with Some v => Some v | None => own k qs end.
Proof.
  induction ps as [|[k' v'] r IH]; simpl; [reflexivity|].
  destruct (String.eqb k k'); [reflexivity | exact IH].
Qed.

Lemma own_insert_index_same i k v ps :
  own k ps = None -> own k (insert_index i k v ps) = Some v.
Proof.
  induction ps as [|[k' v'] r IH]; simpl; intros Hn.
  - now rewrite String.eqb_refl.
  - destruct (String.eqb k k') eqn:E; [discriminate Hn|].
    destruct (array_index k') as [j|]; [destruct (j <? i)%N|]; simpl;
      rewrite ?E, ?String.eqb_refl; auto.
Qed.

Lemma own_insert_index_other i k k' v ps :
  k <> k' -> own k' (insert_index i k v ps) = own k' ps.
Proof.
  intros Hne. apply not_eq_sym in Hne. apply String.eqb_neq in Hne.
  induction ps as [|[k0 v0] r IH]; simpl.
  - now rewrite Hne.
  - destruct (array_index k0) as [j|]; [destruct (j <? i)%N|]; simpl;
      rewrite ?Hne; try reflexivity.
    destruct (String.eqb k' k0); [reflexivity | exact IH].
Qed.

Lemma own_add_same k v ps : own k ps = None -> own k (add_own k v ps) = Some v.
Proof.
  intros Hn. unfold add_own. destruct (array_index k).
  - now apply own_insert_index_same.
  - rewrite own_app, Hn. simpl. now rewrite String.eqb_refl.
Qed.

Lemma own_add_other k k' v ps : k <> k' -> own k' (add_own k v ps) = own k' ps.
Proof.
  intros Hne. unfold add_own. destruct (array_index k).
  - now apply own_insert_index_other.
  - rewrite own_app. destruct (own k' ps); [reflexivity|]. simpl.
    apply not_eq_sym in Hne. apply String.eqb_neq in Hne. now rewrite Hne.
Qed.

Lemma own_In k v ps : own k ps = Some v -> In (k, v) ps.
Proof.
  induction ps as [|[k' v'] r IH]; simpl; [discriminate|].
  destruct (String.eqb k k') eqn:E.
  - apply String.eqb_eq in E. intros [= ->]. left. now subst.
  - auto.
Qed.

Lemma own_None_keys k ps : own k ps = None <-> ~ In k (keys ps).
Proof.
  induction ps as [|[k' v'] r IH]; simpl; [tauto|].
  destruct (String.eqb k k') eqn:E.
  - apply String.eqb_eq in E. subst. split; [discriminate | tauto].
  - apply String.eqb_neq in E. rewrite IH. split; [intros H [H'|H']; congruence + tauto | tauto].
Qed.

Lemma In_own k v ps : NoDup (keys ps) -> In (k, v) ps -> own k ps = Some v.
Proof.
  induction ps as [|[k' v'] r IH]; simpl; [tauto|].
  intros Hnd [H|H].
  - injection H as -> ->. now rewrite String.eqb_refl.
  - inversion Hnd as [|? ? Hnot Hnd']; subst.
    destruct (String.eqb k k') eqn:E.
    + apply String.eqb_eq in E. subst. exfalso. apply Hnot.
      change k' with (fst (k', v)). now apply in_map.
    + auto.
Qed.

Lemma own_map_values (f : string -> Value -> Value) k ps :
  own k (List.map (fun kv => (fst kv, f (fst kv) (snd kv))) ps)
  = option_map (f k) (own k ps).
Proof.
  induction ps as [|[k' v'] r IH]; simpl; [reflexivity|].
  destruct (String.eqb k k') eqn:E; [|exact IH].
  apply String.eqb_eq in E. now subst.
Qed.

Lemma own_filter_keys (p : string -> bool) k ps :
  own k (List.filter (fun kv => p (fst kv)) ps)
  = if p k then own k ps else None.
Proof.
  induction ps as [|[k' v'] r IH]; simpl.
  - now destruct (p k).
  - destruct (p k') eqn:Hp; simpl.
    + destruct (String.eqb k k') eqn:E; [|exact IH].
      apply String.eqb_eq in E. subst. now rewrite Hp.
    + destruct (String.eqb k k') eqn:E; [|exact IH].
      apply String.eqb_eq in E. subst. rewrite Hp in IH. now rewrite Hp.
Qed.

End PropsFacts.

(** ** The loop of [stripOverrideKeys] *)

Module StripFacts.
Import JS McpSecrets Spec PropsFacts.

Lemma stripOverrideKeys_plain bprops rprops :
  stripOverrideKeys (VObject VObjectPrototype bprops) (VObject VObjectPrototype rprops)
  = fold_left strip_step rprops (VObject VObjectPrototype bprops).
Proof.
  cbn [stripOverrideKeys]. 
  generalize (VObject VObjectPrototype bprops) as result.
  induction rprops as [|[key removeValue] r IH]; intros result; [reflexivity|].
  cbn [fold_left]. rewrite IH. reflexivity.
Qed.

Lemma get_own proto ps k v : own k ps = Some v -> get (VObject proto ps) k = v.
Proof. intros H. unfold get. cbn [lookup_chain]. now rewrite H. Qed.

Lemma length_keys_zero v :
  (List.length (Object_keys v) =? 0)%nat = is_empty_object v.
Proof. unfold is_empty_object. now destruct (Object_keys v). Qed.

Lemma strip_step_plain ps key rv :
  exists ps', strip_step (VObject VObjectPrototype ps) (key, rv) = VObject VObjectPrototype ps'
    /\ own key ps' = stripped_entry ps [(key, rv)] key
    /\ forall k, k <> key -> own k ps' = own k ps.
Proof.
  unfold strip_step, stripped_entry, hasOwn, has_own. cbn [entries own].
  rewrite String.eqb_refl.
  destruct (own key ps) as [bv|] eqn:Hown; cbn [negb].
  - rewrite (get_own _ _ _ _ Hown), length_keys_zero.
    rewrite (andb_comm (isPlainObject rv)).
    destruct (isPlainObject bv && isPlainObject rv).
    + destruct (is_empty_object (stripOverrideKeys bv rv)).
      * eexists; split; [reflexivity|]. split.
        -- apply own_delete_same.
        -- intros k Hk. apply own_delete_other. congruence.
      * unfold set. rewrite Hown. eexists; split; [reflexivity|]. split.
        -- rewrite own_replace_same, Hown. reflexivity.
        -- intros k Hk. apply own_replace_other. congruence.
    + eexists; split; [reflexivity|]. split.
      * apply own_delete_same.
      * intros k Hk. apply own_delete_other. congruence.
  - eexists; split; [reflexivity|]. auto.
Qed.

Lemma stripped_entry_cons_same ps key rv r :
  stripped_entry ps ((key, rv) :: r) key = stripped_entry ps [(key, rv)] key.
Proof. unfold stripped_entry. cbn [own]. now rewrite String.eqb_refl. Qed.

Lemma stripped_entry_cons_other ps key rv r k :
  k <> key -> stripped_entry ps ((key, rv) :: r) k = stripped_entry ps r k.
Proof.
  intros Hne. unfold stripped_entry. cbn [own].
  apply String.eqb_neq in Hne. now rewrite Hne.
Qed.

Lemma stripped_entry_absent ps r k :
  own k r = None -> stripped_entry ps r k = own k ps.
Proof. intros H. unfold stripped_entry. rewrite H. now destruct (own k ps). Qed.

Lemma stripped_entry_own_ext ps ps' r k :
  own k ps' = own k ps -> stripped_entry ps' r k = stripped_entry ps r k.
Proof. intros H. unfold stripped_entry. now rewrite H. Qed.

Lemma fold_strip_step rprops :
  NoDup (keys rprops) ->
  forall ps, exists ps',
    fold_left strip_step rprops (VObject VObjectPrototype ps) = VObject VObjectPrototype ps'
    /\ forall k, own k ps' = stripped_entry ps rprops k.
Proof.
  induction rprops as [|[key rv] r IH]; intros Hnd ps.
  - exists ps. split; [reflexivity|]. intros k. symmetry.
    now apply stripped_entry_absent.
  - inversion Hnd as [|? ? Hnot Hnd']; subst. cbn [fold_left].
    destruct (strip_step_plain ps key rv) as (ps1 & -> & Hkey & Hother).
    destruct (IH Hnd' ps1) as (ps' & -> & Hps').
    exists ps'. split; [reflexivity|]. intros k. rewrite Hps'.
    destruct (string_dec k key) as [->|Hne].
    + rewrite stripped_entry_cons_same, <- Hkey.
      apply stripped_entry_absent. now apply own_None_keys.
    + rewrite stripped_entry_cons_other by exact Hne.
      apply stripped_entry_own_ext. now apply Hother.
Qed.

Lemma stripOverrideKeys_not_plain base toRemove :
  isPlainObject base && isPlainObject toRemove = false ->
  stripOverrideKeys base toRemove = base.
Proof.
  destruct base as [| | | | | | | | |bp bps]; try reflexivity;
  try (destruct toRemove; reflexivity).
  destruct bp; try (destruct toRemove; reflexivity).
  destruct toRemove as [| | | | | | | | |rp rps]; try reflexivity.
  destruct rp; try reflexivity. discriminate.
Qed.

Lemma stripOverrideKeys_empty_base rv :
  is_empty_object (stripOverrideKeys empty_object rv) = true.
Proof.
  destruct rv as [| | | | | | | | |rp rps]; try reflexivity.
  destruct rp; try reflexivity.
  unfold empty_object. rewrite stripOverrideKeys_plain.
  induction rps as [|[k v] r IH]; [reflexivity|]. exact IH.
Qed.
End StripFacts.

(** ** [deepMerge], key by key *)

Module MergeFacts.
Import JS McpSecrets Spec PropsFacts.

Lemma deepMerge_plain bprops eprops :
  deepMerge (VObject VObjectPrototype bprops) (VObject VObjectPrototype eprops)
  = VObject VObjectPrototype
      (List.map
         (fun kv =>
            match own (fst kv) eprops with
            | Some ev => (fst kv, deepMerge (snd kv) ev)
            | None => kv
            end) bprops
       ++ List.filter (fun kv => negb (has_own (fst kv) bprops)) eprops).
Proof. reflexivity. Qed.

Lemma deepMerge_not_plain base extra :
  isPlainObject base && isPlainObject extra = false ->
  deepMerge base extra = extra.
Proof.
  destruct base as [| | | | | | | | |bp bps]; try reflexivity.
  destruct bp; try reflexivity.
  destruct extra as [| | | | | | | | |ep eps]; try reflexivity.
  destruct ep; try reflexivity. discriminate.
Qed.

Lemma own_merge_map eprops k bprops :
  own k (List.map
           (fun kv =>
              match own (fst kv) eprops with
              | Some ev => (fst kv, deepMerge (snd kv) ev)
              | None => kv
              end) bprops)
  = match own k bprops with
    | Some bv => Some (match own k eprops with
                       | Some ev => deepMerge bv ev
                       | None => bv
                       end)
    | None => None
    end.
Proof.
  induction bprops as [|[k' v'] r IH]; [reflexivity|].
  cbn [List.map fst snd own].
  destruct (String.eqb k k') eqn:E.
  - apply String.eqb_eq in E. subst k'.
    destruct (own k eprops); cbn [own]; now rewrite String.eqb_refl.
  - destruct (own k' eprops); cbn [own]; rewrite E; exact IH.
Qed.

Lemma own_deepMerge bprops eprops k :
  own k (entries (deepMerge (VObject VObjectPrototype bprops)
                            (VObject VObjectPrototype eprops)))
  = merged_entry bprops eprops k.
Proof.
  rewrite deepMerge_plain. cbn [entries].
  rewrite own_app, own_merge_map.
  rewrite (own_filter_keys (fun key => negb (has_own key bprops))).
  unfold merged_entry, mergeOverrides, has_own.
  destruct (own k bprops) as [bv|]; cbn [negb].
  - destruct (own k eprops) as [ev|]; [|reflexivity].
    destruct (isPlainObject bv && isPlainObject ev) eqn:Hp; [reflexivity|].
    now rewrite deepMerge_not_plain.
  - now destruct (own k eprops).
Qed.
End MergeFacts.

(** ** The loops of [extractMcpSecrets] on a document *)

Module ExtractFacts.
Import JS McpSecrets Spec PropsFacts.

Lemma nodup_keys_NoDup l : nodup_keys l = true <-> NoDup l.
Proof.
  induction l as [|k r IH]; simpl.
  - split; [constructor | reflexivity].
  - rewrite andb_true_iff, negb_true_iff, IH. split.
    + intros [Hn Hr]. constructor; [|exact Hr]. intros Hin.
      assert (List.existsb (String.eqb k) r = true); [|congruence].
      apply existsb_exists. exists k. split; [exact Hin | apply String.eqb_refl].
    + intros H. inversion H as [|? ? Hnot Hr]; subst. split; [|exact Hr].
      destruct (List.existsb (String.eqb k) r) eqn:E; [|reflexivity].
      apply existsb_exists in E. destruct E as (x & Hin & Hx).
      apply String.eqb_eq in Hx. subst. contradiction.
Qed.

Lemma json_compatible_object props :
  json_compatible (VObject VObjectPrototype props) = true ->
  NoDup (keys props) /\ forall k v, In (k, v) props -> json_compatible v = true.
Proof.
  cbn [json_compatible]. rewrite andb_true_iff, nodup_keys_NoDup, forallb_forall.
  intros [Hnd Hall]. split; [exact Hnd|]. intros k v Hin. exact (Hall _ Hin).
Qed.

Lemma json_compatible_own props k v :
  json_compatible (VObject VObjectPrototype props) = true ->
  own k props = Some v -> json_compatible v = true.
Proof.
  intros Hc Ho. apply json_compatible_object in Hc. destruct Hc as [_ Hall].
  eapply Hall, own_In, Ho.
Qed.

Lemma traverse_id (f : Value -> Result (option Value)) items :
  Forall (fun x => f x = Ok (Some x)) items ->
  traverse (fun x => bind (f x) (fun y => Ok (or_null y))) items = Ok items.
Proof.
  induction 1 as [|x r Hx _ IH]; [reflexivity|].
  cbn [traverse]. rewrite Hx. cbn [bind or_null]. rewrite IH. reflexivity.
Qed.

Lemma traverse_props_id (f : Value -> Result (option Value)) props :
  Forall (fun kv => f (snd kv) = Ok (Some (snd kv))) props ->
  traverse_props f props = Ok props.
Proof.
  induction 1 as [|[k v] r Hx _ IH]; [reflexivity|].
  cbn [traverse_props]. cbn [snd] in Hx. rewrite Hx. cbn [bind].
  rewrite IH. reflexivity.
Qed.

Lemma json_roundtrip_compatible v :
  json_compatible v = true -> json_roundtrip v = Ok (Some v).
Proof.
  induction v as [| | | [] | | | | |items IH|proto props IHp IH] using Value_induction;
    cbn [json_compatible]; intros Hc; try discriminate; try reflexivity.
  - cbn [json_roundtrip]. rewrite traverse_id; [reflexivity|].
    rewrite forallb_forall in Hc. rewrite Forall_forall in *.
    intros x Hx. apply IH; auto.
  - destruct proto; try discriminate.
    apply andb_true_iff in Hc. destruct Hc as [_ Hc].
    cbn [json_roundtrip]. rewrite traverse_props_id; [reflexivity|].
    rewrite forallb_forall in Hc. rewrite Forall_forall in *.
    intros x Hx. apply IH; auto.
Qed.

Lemma cloneConfig_compatible v :
  json_compatible v = true -> cloneConfig v = Ok v.
Proof.
  intros Hc. unfold cloneConfig, json_clone.
  now rewrite json_roundtrip_compatible.
Qed.

Lemma own_app_notin k v done r :
  ~ In k (keys done) -> own k (done ++ (k, v) :: r) = Some v.
Proof.
  intros Hn. rewrite own_app. apply own_None_keys in Hn. rewrite Hn.
  cbn [own]. now rewrite String.eqb_refl.
Qed.

Lemma replace_own_app_notin k v v0 done r :
  ~ In k (keys done) ->
  replace_own k v (done ++ (k, v0) :: r) = done ++ (k, v) :: r.
Proof.
  induction done as [|[k' v'] d IH]; cbn [app replace_own keys List.map fst]; intros Hn.
  - now rewrite String.eqb_refl.
  - destruct (String.eqb k k') eqn:E.
    + apply String.eqb_eq in E. subst. exfalso. apply Hn. now left.
    + rewrite IH; [reflexivity|]. intros H. apply Hn. now right.
Qed.

Lemma keys_app ps qs : keys (ps ++ qs) = keys ps ++ keys qs.
Proof. apply map_app. Qed.

Lemma NoDup_keys_mid done k v r :
  NoDup (keys (done ++ (k, v) :: r)) -> ~ In k (keys done).
Proof.
  rewrite keys_app. cbn [keys List.map fst]. intros H Hin.
  apply NoDup_remove_2 in H. apply H. apply in_or_app. now left.
Qed.

Lemma NoDup_keys_shift done k v v' r :
  NoDup (keys (done ++ (k, v) :: r)) -> NoDup (keys ((done ++ [(k, v')]) ++ r)).
Proof.
  rewrite <- app_assoc. cbn [app]. now rewrite !keys_app.
Qed.

Lemma fold_extractHeader serverName proto l :
  forall done overrides,
    NoDup (keys (done ++ l)) ->
    fold_left (extractHeader serverName) l (VObject proto (done ++ l), overrides)
    = (VObject proto (done ++ List.map (san_entry serverName) l),
       apply_writes (List.flat_map (header_write serverName) l) overrides).
Proof.
  induction l as [|[h v] r IH]; intros done overrides Hnd; [reflexivity|].
  cbn [fold_left List.map List.flat_map].
  pose proof (NoDup_keys_mid _ _ _ _ Hnd) as Hnotin.
  unfold extractHeader at 2. unfold san_entry at 1, header_write at 1.
  cbn [fst snd].
  destruct (isSecretString v) eqn:Hs; cbn [negb].
  - unfold set. rewrite own_app_notin by exact Hnotin.
    rewrite replace_own_app_notin by exact Hnotin.
    unfold apply_writes. cbn [app fold_left]. unfold apply_write at 2.
    cbn [fst snd]. fold (header_path serverName h).
    replace (done ++ (h, VString
      (buildHeaderPlaceholder (String_ v) (buildHeaderEnvVar serverName h) (Some h))) :: r)
      with ((done ++ [(h, header_replacement serverName h v)]) ++ r)
      by (rewrite <- app_assoc; reflexivity).
    rewrite IH by (eapply NoDup_keys_shift; exact Hnd).
    rewrite <- app_assoc. reflexivity.
  - replace (done ++ (h, v) :: r) with ((done ++ [(h, v)]) ++ r)
      by (rewrite <- app_assoc; reflexivity).
    rewrite IH by (eapply NoDup_keys_shift; exact Hnd).
    rewrite <- app_assoc. reflexivity.
Qed.

Lemma isPlainObject_inv v :
  isPlainObject v = true -> exists props, v = VObject VObjectPrototype props.
Proof.
  destruct v as [| | | | | | | | |p ps]; try discriminate.
  destruct p; try discriminate. intros _. now exists ps.
Qed.

Lemma get_plain props k :
  get (VObject VObjectPrototype props) k
  = match own k props with
    | Some v => v
    | None => if String.eqb k "__proto__" then VObjectPrototype
              else if is_method k then VFunction else VUndefined
    end.
Proof. unfold get. cbn [lookup_chain chain_end getPrototypeOf]. now destruct (own k props). Qed.

Lemma get_plain_absent props k :
  own k props = None ->
  isPlainObject (get (VObject VObjectPrototype props) k) = false
  /\ isSecretString (get (VObject VObjectPrototype props) k) = false.
Proof.
  intros H. rewrite get_plain, H.
  destruct (String.eqb k "__proto__"); [split; reflexivity|].
  destruct (is_method k); split; reflexivity.
Qed.

Lemma modify_own proto props k v f :
  own k props = Some v ->
  modify (VObject proto props) k f = VObject proto (replace_own k (f v) props).
Proof.
  intros H. unfold modify. cbn [lookup_chain modify_chain]. now rewrite H.
Qed.

Lemma replace_own_same_value k v ps :
  own k ps = Some v -> replace_own k v ps = ps.
Proof.
  induction ps as [|[k' v'] r IH]; cbn [own replace_own]; [reflexivity|].
  destruct (String.eqb k k') eqn:E.
  - intros [= ->]. reflexivity.
  - intros H. now rewrite IH.
Qed.

Lemma san_headers_not_plain s hv : isPlainObject hv = false -> san_headers s hv = hv.
Proof.
  destruct hv as [| | | | | | | | |p ps]; try reflexivity.
  destruct p; try reflexivity. discriminate.
Qed.

Lemma header_writes_not_plain s hv :
  isPlainObject hv = false -> header_writes s (Some hv) = [].
Proof.
  destruct hv as [| | | | | | | | |p ps]; try reflexivity.
  destruct p; try reflexivity. discriminate.
Qed.

Lemma extractHeaders_plain s sprops overrides :
  json_compatible (VObject VObjectPrototype sprops) = true ->
  extractHeaders s (VObject VObjectPrototype sprops, overrides)
  = (map_own "headers" (san_headers s) (VObject VObjectPrototype sprops),
     apply_writes (header_writes s (own "headers" sprops)) overrides).
Proof.
  intros Hc. unfold extractHeaders, getPlainObject, map_own.
  destruct (own "headers" sprops) as [hv|] eqn:Hown.
  - rewrite get_plain, Hown.
    destruct (isPlainObject hv) eqn:Hp.
    + destruct (isPlainObject_inv _ Hp) as [hprops ->].
      pose proof (json_compatible_own _ _ _ Hc Hown) as Hh.
      apply json_compatible_object in Hh. destruct Hh as [Hnd _].
      cbn [entries].
      pose proof (fold_extractHeader s VObjectPrototype hprops [] overrides Hnd) as F.
      cbn [app] in F. rewrite F.
      rewrite (modify_own _ _ _ _ _ Hown). reflexivity.
    + rewrite san_headers_not_plain, header_writes_not_plain by exact Hp.
      rewrite (replace_own_same_value _ _ _ Hown). reflexivity.
  - destruct (get_plain_absent _ _ Hown) as [-> _]. reflexivity.
Qed.

Lemma san_oauth_not_plain s v : isPlainObject v = false -> san_oauth s v = v.
Proof.
  destruct v as [| | | | | | | | |p ps]; try reflexivity.
  destruct p; try reflexivity. discriminate.
Qed.

Lemma oauth_writes_not_plain s v :
  isPlainObject v = false -> oauth_writes s (Some v) = [].
Proof.
  destruct v as [| | | | | | | | |p ps]; try reflexivity.
  destruct p; try reflexivity. discriminate.
Qed.

Lemma extractOAuth_plain s sprops overrides :
  extractOAuth s (VObject VObjectPrototype sprops, overrides)
  = (map_own "oauth" (san_oauth s) (VObject VObjectPrototype sprops),
     apply_writes (oauth_writes s (own "oauth" sprops)) overrides).
Proof.
  unfold extractOAuth, getPlainObject, map_own.
  destruct (own "oauth" sprops) as [ov|] eqn:Hown.
  - rewrite get_plain, Hown.
    destruct (isPlainObject ov) eqn:Hp.
    + destruct (isPlainObject_inv _ Hp) as [oprops ->].
      cbn [san_oauth oauth_writes].
      destruct (own "clientSecret" oprops) as [cs|] eqn:Hcs.
      * rewrite get_plain, Hcs.
        destruct (isSecretString cs) eqn:Hs.
        -- rewrite (modify_own _ _ _ _ _ Hown). unfold set. rewrite Hcs.
           reflexivity.
        -- rewrite (replace_own_same_value _ _ _ Hown). reflexivity.
      * destruct (get_plain_absent _ _ Hcs) as [_ ->].
        rewrite (replace_own_same_value _ _ _ Hown). reflexivity.
    + rewrite san_oauth_not_plain, oauth_writes_not_plain by exact Hp.
      rewrite (replace_own_same_value _ _ _ Hown). reflexivity.
  - destruct (get_plain_absent _ _ Hown) as [-> _]. reflexivity.
Qed.

Lemma apply_writes_app ws1 ws2 overrides :
  apply_writes (ws1 ++ ws2) overrides = apply_writes ws2 (apply_writes ws1 overrides).
Proof. apply fold_left_app. Qed.

Lemma map_own_plain k f props :
  exists props', map_own k f (VObject VObjectPrototype props) = VObject VObjectPrototype props'
    /\ forall k', k' <> k -> own k' props' = own k' props.
Proof.
  unfold map_own. destruct (own k props) as [v|].
  - eexists. split; [reflexivity|]. intros k' Hk. apply own_replace_other. congruence.
  - eexists. split; [reflexivity|]. auto.
Qed.

Lemma extractServer_entry mcp overrides s sv :
  json_compatible sv = true ->
  extractServer (mcp, overrides) (s, sv)
  = (if isPlainObject sv then modify mcp s (fun _ => san_server s sv) else mcp,
     apply_writes (server_writes s sv) overrides).
Proof.
  intros Hc. unfold extractServer, getPlainObject.
  destruct (isPlainObject sv) eqn:Hp.
  - destruct (isPlainObject_inv _ Hp) as [sprops ->].
    rewrite extractHeaders_plain by exact Hc.
    destruct (map_own_plain "headers" (san_headers s) sprops) as (sprops1 & E1 & Hother).
    cbn [san_server server_writes]. rewrite E1, extractOAuth_plain.
    rewrite Hother by discriminate. rewrite apply_writes_app. reflexivity.
  - destruct sv as [| | | | | | | | |p ps]; try reflexivity.
    destruct p; try reflexivity. discriminate.
Qed.

Lemma san_server_not_plain s sv : isPlainObject sv = false -> san_server s sv = sv.
Proof.
  destruct sv as [| | | | | | | | |p ps]; try reflexivity.
  destruct p; try reflexivity. discriminate.
Qed.

Lemma fold_extractServer l :
  forall done overrides,
    NoDup (keys (done ++ l)) ->
    (forall k v, In (k, v) l -> json_compatible v = true) ->
    fold_left extractServer l (VObject VObjectPrototype (done ++ l), overrides)
    = (VObject VObjectPrototype
         (done ++ List.map (fun kv => (fst kv, san_server (fst kv) (snd kv))) l),
       apply_writes (List.flat_map (fun kv => server_writes (fst kv) (snd kv)) l)
         overrides).
Proof.
  induction l as [|[s sv] r IH]; intros done overrides Hnd Hall; [reflexivity|].
  cbn [fold_left List.map List.flat_map fst snd].
  pose proof (NoDup_keys_mid _ _ _ _ Hnd) as Hnotin.
  rewrite extractServer_entry by (eapply Hall; left; reflexivity).
  rewrite apply_writes_app.
  assert (E : (if isPlainObject sv
               then modify (VObject VObjectPrototype (done ++ (s, sv) :: r)) s
                      (fun _ => san_server s sv)
               else VObject VObjectPrototype (done ++ (s, sv) :: r))
              = VObject VObjectPrototype ((done ++ [(s, san_server s sv)]) ++ r)).
  { rewrite <- app_assoc. cbn [app].
    destruct (isPlainObject sv) eqn:Hp.
    - rewrite (modify_own _ _ _ sv) by (now apply own_app_notin).
      now rewrite replace_own_app_notin.
    - now rewrite san_server_not_plain. }
  rewrite E, IH.
  - rewrite <- app_assoc. reflexivity.
  - eapply NoDup_keys_shift; exact Hnd.
  - intros k v Hin. eapply Hall. right. exact Hin.
Qed.

Theorem extract_document config :
  is_document config = true ->
  extractMcpSecrets config
  = Ok {| sanitizedConfig := san_doc config;
          secretOverrides := apply_writes (doc_writes config) empty_object |}.
Proof.
  unfold is_document. rewrite andb_true_iff. intros [Hp Hc].
  destruct (isPlainObject_inv _ Hp) as [props ->].
  unfold extractMcpSecrets. rewrite cloneConfig_compatible by exact Hc.
  cbn [bind read]. unfold getPlainObject, san_doc, doc_writes, map_own.
  cbn [entries].
  destruct (own "mcp" props) as [mv|] eqn:Hown.
  - rewrite get_plain, Hown.
    destruct (isPlainObject mv) eqn:Hm.
    + destruct (isPlainObject_inv _ Hm) as [mprops ->].
      pose proof (json_compatible_own _ _ _ Hc Hown) as Hmc.
      apply json_compatible_object in Hmc. destruct Hmc as [Hnd Hall].
      cbn [entries].
      pose proof (fold_extractServer mprops [] empty_object Hnd Hall) as F.
      cbn [app] in F. rewrite F.
      rewrite (modify_own _ _ _ _ _ Hown). reflexivity.
    + assert (san_mcp mv = mv) as ->.
      { destruct mv as [| | | | | | | | |p ps]; try reflexivity.
        destruct p; try reflexivity. discriminate. }
      rewrite (replace_own_same_value _ _ _ Hown).
      destruct mv as [| | | | | | | | |p ps]; try reflexivity.
      destruct p; try reflexivity. discriminate.
  - destruct (get_plain_absent _ _ Hown) as [-> _]. reflexivity.
Qed.

End ExtractFacts.

(** ** What the sanitized config keeps *)

Module FrameFacts.
Import JS McpSecrets Spec PropsFacts ExtractFacts.

Lemma secret_at_rel config q : secret_at config q <-> rel_doc config q.
Proof.
  unfold secret_at, secret_path, rel_doc, rel_mcp, rel_server, rel_headers,
    rel_oauth, header_path, oauth_path. split.
  - intros [[(s & h & ->)|(s & ->)] (v & Hg & Hs)]; cbn [get_path] in Hg;
      destruct (own "mcp" (entries config)) as [mv|]; try discriminate;
      destruct (own s (entries mv)) as [sv|] eqn:Hsv; try discriminate.
    + destruct (own "headers" (entries sv)) as [hv|] eqn:Hhv; try discriminate.
      destruct (own h (entries hv)) as [x|] eqn:Hx; try discriminate.
      injection Hg as ->.
      exists mv, [s; "headers"; h]. split; [reflexivity|]. split; [|reflexivity].
      exists s, sv, ["headers"; h]. split; [exact Hsv|]. split; [|reflexivity].
      left. exists hv, [h]. split; [exact Hhv|]. split; [|reflexivity].
      now exists h, v.
    + destruct (own "oauth" (entries sv)) as [ov|] eqn:Hov; try discriminate.
      destruct (own "clientSecret" (entries ov)) as [x|] eqn:Hx; try discriminate.
      injection Hg as ->.
      exists mv, [s; "oauth"; "clientSecret"]. split; [reflexivity|]. split; [|reflexivity].
      exists s, sv, ["oauth"; "clientSecret"]. split; [exact Hsv|]. split; [|reflexivity].
      right. exists ov, ["clientSecret"]. split; [exact Hov|]. split; [|reflexivity].
      now exists v.
  - intros (mv & q1 & Hmv & (s & sv & q2 & Hsv & Hrel & ->) & ->).
    destruct Hrel as [(hv & q3 & Hhv & (h & v & -> & Hv & Hs) & ->)
                     |(ov & q3 & Hov & (v & -> & Hv & Hs) & ->)].
    + split; [left; now exists s, h|]. exists v. split; [|exact Hs].
      cbn [get_path]. now rewrite Hmv, Hsv, Hhv, Hv.
    + split; [right; now exists s|]. exists v. split; [|exact Hs].
      cbn [get_path]. now rewrite Hmv, Hsv, Hov, Hv.
Qed.

Lemma is_prefix_nil q : is_prefix [] q.
Proof. now exists q. Qed.

Lemma is_prefix_cons k p q : is_prefix p q -> is_prefix (k :: p) (k :: q).
Proof. intros [r ->]. now exists r. Qed.

Lemma is_prefix_cons_inv k p q : is_prefix (k :: p) (k :: q) -> is_prefix p q.
Proof. intros [r H]. injection H as ->. now exists r. Qed.

Lemma get_path_leaf v p :
  is_mapping v = false -> p <> [] -> get_path v p = None.
Proof.
  intros Hv Hp. destruct p as [|k r]; [congruence|].
  destruct v; try reflexivity. discriminate.
Qed.

Lemma isSecretString_leaf v : isSecretString v = true -> is_mapping v = false.
Proof. destruct v; try discriminate; reflexivity. Qed.

Lemma map_id_on {A} (g : A -> A) l : (forall x, In x l -> g x = x) -> List.map g l = l.
Proof.
  induction l as [|x r IH]; intros H; [reflexivity|].
  cbn [List.map]. rewrite H by now left. rewrite IH; [reflexivity|].
  intros y Hy. apply H. now right.
Qed.

Lemma own_san_entries s h hprops :
  own h (List.map (san_entry s) hprops)
  = option_map (fun v => if isSecretString v then header_replacement s h v else v)
      (own h hprops).
Proof.
  induction hprops as [|[k v] r IH]; [reflexivity|].
  cbn [List.map own san_entry fst snd].
  destruct (String.eqb h k) eqn:E; [|exact IH].
  apply String.eqb_eq in E. now subst.
Qed.

Lemma frame_headers s hv p :
  json_compatible hv = true ->
  (forall q, rel_headers hv q -> ~ is_prefix p q) ->
  get_path (san_headers s hv) p = get_path hv p.
Proof.
  intros Hc Hclean.
  destruct (isPlainObject hv) eqn:Hp; [|now rewrite san_headers_not_plain].
  destruct (isPlainObject_inv _ Hp) as [hprops ->].
  apply json_compatible_object in Hc. destruct Hc as [Hnd _].
  destruct p as [|h r].
  - cbn [get_path san_headers]. f_equal. f_equal. apply map_id_on.
    intros [k v] Hin. unfold san_entry. cbn [fst snd].
    destruct (isSecretString v) eqn:Hs; [|reflexivity].
    exfalso. apply (Hclean [k]); [|apply is_prefix_nil].
    exists k, v. split; [reflexivity|]. split; [|exact Hs].
    now apply In_own.
  - cbn [get_path san_headers entries]. rewrite own_san_entries.
    destruct (own h hprops) as [v|] eqn:Hv; [|reflexivity]. cbn [option_map].
    destruct (isSecretString v) eqn:Hs; [|reflexivity].
    assert (r <> []) as Hr.
    { intros ->. apply (Hclean [h]); [|now exists []].
      exists h, v. auto. }
    rewrite !get_path_leaf; auto using isSecretString_leaf.
Qed.

Lemma frame_oauth s ov p :
  (forall q, rel_oauth ov q -> ~ is_prefix p q) ->
  get_path (san_oauth s ov) p = get_path ov p.
Proof.
  intros Hclean.
  destruct (isPlainObject ov) eqn:Hp; [|now rewrite san_oauth_not_plain].
  destruct (isPlainObject_inv _ Hp) as [oprops ->].
  cbn [san_oauth].
  destruct (own "clientSecret" oprops) as [cs|] eqn:Hcs; [|reflexivity].
  destruct (isSecretString cs) eqn:Hs; [|reflexivity].
  assert (Hrel : rel_oauth (VObject VObjectPrototype oprops) ["clientSecret"])
    by (exists cs; auto).
  destruct p as [|k r]; [exfalso; eapply Hclean; eauto using is_prefix_nil|].
  cbn [get_path entries].
  destruct (string_dec "clientSecret" k) as [<-|Hne].
  - rewrite own_replace_same, Hcs.
    assert (r <> []) as Hr.
    { intros ->. apply (Hclean _ Hrel). now exists []. }
    rewrite !get_path_leaf; auto using isSecretString_leaf.
  - now rewrite own_replace_other.
Qed.

Lemma own_map_own k f o k' :
  own k' (entries (map_own k f o))
  = if String.eqb k' k then option_map f (own k (entries o)) else own k' (entries o).
Proof.
  unfold map_own. destruct o as [| | | | | | | | |proto props];
    try (cbn [entries own]; now destruct (String.eqb k' k)).
  cbn [entries].
  destruct (String.eqb k' k) eqn:E.
  - apply String.eqb_eq in E. subst k'.
    destruct (own k props) as [v|] eqn:Hv; cbn [entries option_map].
    + now rewrite own_replace_same, Hv.
    + exact Hv.
  - apply String.eqb_neq in E.
    destruct (own k props) as [v|] eqn:Hv; cbn [entries]; [|reflexivity].
    apply own_replace_other. congruence.
Qed.

Lemma map_own_id k f o :
  (forall v, own k (entries o) = Some v -> f v = v) -> map_own k f o = o.
Proof.
  intros H. unfold map_own. destruct o as [| | | | | | | | |proto props]; try reflexivity.
  cbn [entries] in H. destruct (own k props) as [v|] eqn:Hv; [|reflexivity].
  rewrite (H v eq_refl). now rewrite replace_own_same_value.
Qed.

Lemma get_path_nil_eq a b : get_path a [] = get_path b [] -> a = b.
Proof. cbn [get_path]. congruence. Qed.

Lemma san_server_plain s sprops :
  san_server s (VObject VObjectPrototype sprops)
  = map_own "oauth" (san_oauth s)
      (map_own "headers" (san_headers s) (VObject VObjectPrototype sprops)).
Proof. reflexivity. Qed.

Lemma frame_server s sv p :
  json_compatible sv = true ->
  (forall q, rel_server sv q -> ~ is_prefix p q) ->
  get_path (san_server s sv) p = get_path sv p.
Proof.
  intros Hc Hclean.
  destruct (isPlainObject sv) eqn:Hp; [|now rewrite san_server_not_plain].
  destruct (isPlainObject_inv _ Hp) as [sprops ->].
  rewrite san_server_plain.
  assert (Hh : forall hv, own "headers" sprops = Some hv ->
                 (forall q', rel_headers hv q' -> ~ is_prefix p ("headers" :: q')) ).
  { intros hv Hhv q' Hq'. apply Hclean. left. now exists hv, q'. }
  assert (Ho : forall ov, own "oauth" sprops = Some ov ->
                 (forall q', rel_oauth ov q' -> ~ is_prefix p ("oauth" :: q')) ).
  { intros ov Hov q' Hq'. apply Hclean. right. now exists ov, q'. }
  destruct p as [|k r].
  - cbn [get_path]. f_equal.
    rewrite (map_own_id "headers").
    + apply map_own_id. cbn [entries]. intros ov Hov.
      apply get_path_nil_eq, frame_oauth. intros q Hq _.
      apply (Ho ov Hov q Hq), is_prefix_nil.
    + cbn [entries]. intros hv Hhv.
      apply get_path_nil_eq, frame_headers.
      * eapply json_compatible_own; eauto.
      * intros q Hq _. apply (Hh hv Hhv q Hq), is_prefix_nil.
  - cbn [get_path]. rewrite !own_map_own. cbn [entries].
    destruct (String.eqb k "oauth") eqn:Eo.
    + apply String.eqb_eq in Eo. subst k. cbn [String.eqb Ascii.eqb Bool.eqb].
      destruct (own "oauth" sprops) as [ov|] eqn:Hov; [|reflexivity].
      cbn [option_map]. apply frame_oauth. intros q Hq Hpre.
      apply (Ho ov eq_refl q Hq). now apply is_prefix_cons.
    + destruct (String.eqb k "headers") eqn:Eh; [|reflexivity].
      apply String.eqb_eq in Eh. subst k.
      destruct (own "headers" sprops) as [hv|] eqn:Hhv; [|reflexivity].
      cbn [option_map]. apply frame_headers.
      * eapply json_compatible_own; eauto.
      * intros q Hq Hpre. apply (Hh hv eq_refl q Hq). now apply is_prefix_cons.
Qed.

Lemma own_san_mcp s mprops :
  own s (List.map (fun kv => (fst kv, san_server (fst kv) (snd kv))) mprops)
  = option_map (san_server s) (own s mprops).
Proof. apply (own_map_values san_server). Qed.

Lemma frame_mcp mv p :
  json_compatible mv = true ->
  (forall q, rel_mcp mv q -> ~ is_prefix p q) ->
  get_path (san_mcp mv) p = get_path mv p.
Proof.
  intros Hc Hclean.
  destruct (isPlainObject mv) eqn:Hp.
  2:{ destruct mv as [| | | | | | | | |pr ps]; try reflexivity.
      destruct pr; try reflexivity. discriminate. }
  destruct (isPlainObject_inv _ Hp) as [mprops ->].
  pose proof (json_compatible_object _ Hc) as [Hnd Hall].
  assert (Hs : forall s sv, own s mprops = Some sv ->
                 forall q', rel_server sv q' -> ~ is_prefix p (s :: q')).
  { intros s sv Hsv q' Hq'. apply Hclean. now exists s, sv, q'. }
  destruct p as [|s r].
  - cbn [get_path san_mcp]. f_equal. f_equal. apply map_id_on.
    intros [s sv] Hin. cbn [fst snd]. f_equal.
    apply get_path_nil_eq, frame_server; [eapply Hall; eauto|].
    intros q Hq _. apply (Hs s sv (In_own _ _ _ Hnd Hin) q Hq), is_prefix_nil.
  - cbn [get_path san_mcp entries]. rewrite own_san_mcp.
    destruct (own s mprops) as [sv|] eqn:Hsv; [|reflexivity].
    cbn [option_map]. apply frame_server.
    + eapply json_compatible_own; eauto.
    + intros q Hq Hpre. apply (Hs s sv Hsv q Hq). now apply is_prefix_cons.
Qed.

Theorem frame_doc config p :
  json_compatible config = true ->
  (forall q, secret_at config q -> ~ is_prefix p q) ->
  get_path (san_doc config) p = get_path config p.
Proof.
  intros Hc Hclean.
  assert (Hm : forall mv, own "mcp" (entries config) = Some mv ->
                 forall q', rel_mcp mv q' -> ~ is_prefix p ("mcp" :: q')).
  { intros mv Hmv q' Hq'. apply Hclean, secret_at_rel. now exists mv, q'. }
  assert (Hmc : forall mv, own "mcp" (entries config) = Some mv ->
                  json_compatible mv = true).
  { intros mv Hmv. destruct config as [| | | | | | | | |pr ps]; try discriminate.
    cbn [entries] in Hmv. destruct pr; try discriminate.
    eapply json_compatible_own; eauto. }
  unfold san_doc. destruct p as [|k r].
  - cbn [get_path]. f_equal. apply map_own_id. intros mv Hmv.
    apply get_path_nil_eq, frame_mcp; [auto|].
    intros q Hq _. apply (Hm mv Hmv q Hq), is_prefix_nil.
  - cbn [get_path]. rewrite own_map_own.
    destruct (String.eqb k "mcp") eqn:E; [|reflexivity].
    apply String.eqb_eq in E. subst k.
    destruct (own "mcp" (entries config)) as [mv|] eqn:Hmv; [|reflexivity].
    cbn [option_map]. apply frame_mcp; [auto|].
    intros q Hq Hpre. apply (Hm mv eq_refl q Hq). now apply is_prefix_cons.
Qed.

End FrameFacts.

(** ** What [setNestedValue] can put in the overrides *)

Module OverrideFacts.
Import JS McpSecrets Spec PropsFacts StripFacts ExtractFacts FrameFacts.

Lemma own_set_other o k k' v :
  k' <> k -> own k' (entries (set o k v)) = own k' (entries o).
Proof.
  intros Hne. destruct o as [| | | | | | | | |proto props]; try reflexivity.
  unfold set. destruct (own k props).
  - cbn [entries]. apply own_replace_other. congruence.
  - destruct (lookup_chain proto k), (chain_end proto);
      try (cbn [entries]; apply own_add_other; congruence).
    destruct (String.eqb k "__proto__");
      [destruct (is_object v || is_null v); reflexivity|].
    cbn [entries]. apply own_add_other. congruence.
Qed.

Lemma own_set_same o k v c :
  own k (entries (set o k v)) = Some c -> c = v.
Proof.
  destruct o as [| | | | | | | | |proto props]; try discriminate.
  unfold set. destruct (own k props) eqn:Hk.
  - cbn [entries]. rewrite own_replace_same, Hk. congruence.
  - assert (Hadd : own k (entries (VObject proto (add_own k v props))) = Some c -> c = v).
    { cbn [entries]. rewrite own_add_same by exact Hk. congruence. }
    destruct (lookup_chain proto k), (chain_end proto); auto.
    destruct (String.eqb k "__proto__"); auto.
    destruct (is_object v || is_null v); cbn [entries]; congruence.
Qed.

Lemma set_is_mapping o k v : is_mapping o = true -> is_mapping (set o k v) = true.
Proof.
  destruct o as [| | | | | | | | |proto props]; try discriminate. intros _.
  unfold set. destruct (own k props); [reflexivity|].
  destruct (lookup_chain proto k), (chain_end proto); try reflexivity.
  destruct (String.eqb k "__proto__"); [|reflexivity].
  destruct (is_object v || is_null v); reflexivity.
Qed.

Lemma modify_chain_own o k f :
  own k (entries o) = None ->
  entries (modify_chain o k f) = entries o.
Proof.
  destruct o as [| | | | | | | | |proto props]; try reflexivity.
  cbn [entries modify_chain]. now intros ->.
Qed.

Lemma own_modify o k f k' :
  own k' (entries (modify o k f))
  = if String.eqb k' k then option_map f (own k (entries o))
    else own k' (entries o).
Proof.
  destruct o as [| | | | | | | | |proto props];
    try (cbn [entries own]; now destruct (String.eqb k' k)).
  unfold modify. cbn [lookup_chain chain_end entries].
  destruct (own k props) as [c|] eqn:Hk.
  - cbn [modify_chain]. rewrite Hk. cbn [entries].
    destruct (String.eqb k' k) eqn:E.
    + apply String.eqb_eq in E. subst. now rewrite own_replace_same, Hk.
    + apply String.eqb_neq in E. apply own_replace_other. congruence.
  - assert (Hsame : own k' props
                    = if String.eqb k' k then option_map f None else own k' props).
    { destruct (String.eqb k' k) eqn:E; [|reflexivity].
      apply String.eqb_eq in E. now subst. }
    destruct (lookup_chain proto k).
    + cbn [modify_chain]. rewrite Hk. exact Hsame.
    + destruct (chain_end proto); try exact Hsame.
      destruct (String.eqb k "__proto__"); exact Hsame.
Qed.

Lemma modify_is_mapping o k f : is_mapping o = true -> is_mapping (modify o k f) = true.
Proof.
  destruct o as [| | | | | | | | |proto props]; try discriminate. intros _.
  unfold modify. cbn [lookup_chain chain_end].
  destruct (own k props).
  - cbn [modify_chain]. now destruct (own k props).
  - destruct (lookup_chain proto k).
    + cbn [modify_chain]. now destruct (own k props).
    + destruct (chain_end proto); try reflexivity.
      now destruct (String.eqb k "__proto__").
Qed.

Lemma setNestedValue_cons2 o k k2 q v :
  setNestedValue o (k :: k2 :: q) v
  = modify (if negb (isPlainObject (get o k)) then set o k empty_object else o) k
      (fun current => setNestedValue current (k2 :: q) v).
Proof. reflexivity. Qed.

Lemma setNestedValue_is_mapping q o v :
  is_mapping o = true -> is_mapping (setNestedValue o q v) = true.
Proof.
  intros Ho. destruct q as [|k [|k2 q]].
  - now apply set_is_mapping.
  - now apply set_is_mapping.
  - rewrite setNestedValue_cons2. apply modify_is_mapping.
    destruct (negb (isPlainObject (get o k))); [now apply set_is_mapping | exact Ho].
Qed.

Lemma isPlainObject_mapping v : isPlainObject v = true -> is_mapping v = true.
Proof. intros H. destruct (isPlainObject_inv _ H) as [ps ->]. reflexivity. Qed.

Lemma get_own_mapping o k c :
  is_mapping o = true -> own k (entries o) = Some c -> get o k = c.
Proof.
  destruct o as [| | | | | | | | |proto props]; try discriminate. intros _.
  apply get_own.
Qed.

Lemma strict_prefix_cons k p q : strict_prefix p q -> strict_prefix (k :: p) (k :: q).
Proof. intros (x & r & ->). now exists x, r. Qed.

Lemma setNestedValue_paths q :
  q <> [] ->
  forall o v p w,
    is_mapping o = true -> p <> [] ->
    get_path (setNestedValue o q v) p = Some w ->
    (strict_prefix p q /\ is_mapping w = true)
    \/ (exists r, p = q ++ r /\ get_path v r = Some w)
    \/ get_path o p = Some w.
Proof.
  induction q as [|k q' IH]; [congruence|]. intros _ o v p w Ho Hp.
  destruct p as [|k' p']; [congruence|]. clear Hp.
  destruct q' as [|k2 q''].
  - cbn [setNestedValue get_path].
    destruct (string_dec k' k) as [->|Hne].
    + destruct (own k (entries (set o k v))) as [c|] eqn:Hc; [|discriminate].
      apply own_set_same in Hc. subst c. intros Hw.
      right. left. exists p'. split; [reflexivity | exact Hw].
    + rewrite own_set_other by exact Hne. intros Hw. right. right. exact Hw.
  - rewrite setNestedValue_cons2. cbn [get_path]. rewrite own_modify.
    set (target1 := if negb (isPlainObject (get o k)) then set o k empty_object else o).
    destruct (String.eqb k' k) eqn:E.
    + apply String.eqb_eq in E. subst k'.
      destruct (own k (entries target1)) as [c|] eqn:Hc; [|discriminate].
      cbn [option_map]. intros Hw.
      assert (Hcases : (isPlainObject c = true /\ own k (entries o) = Some c)
                       \/ c = empty_object).
      { subst target1. destruct (isPlainObject (get o k)) eqn:Hplain; cbn [negb] in Hc.
        - left. rewrite (get_own_mapping _ _ _ Ho Hc) in Hplain. auto.
        - right. eapply own_set_same. exact Hc. }
      assert (Hcm : is_mapping c = true).
      { destruct Hcases as [[Hpl _]| ->]; [now apply isPlainObject_mapping | reflexivity]. }
      destruct p' as [|k3 p''].
      * cbn [get_path] in Hw. injection Hw as <-. left. split.
        -- exists k2, q''. reflexivity.
        -- exact (setNestedValue_is_mapping (k2 :: q'') c v Hcm).
      * destruct (IH ltac:(discriminate) c v (k3 :: p'') w Hcm ltac:(discriminate) Hw)
          as [[Hsp Hm]|[(r & Hr & Hg)|Hg]].
        -- left. split; [now apply strict_prefix_cons | exact Hm].
        -- right. left. exists r. split; [now rewrite Hr | exact Hg].
        -- destruct Hcases as [[_ Hown]| ->].
           ++ right. right. rewrite Hown. exact Hg.
           ++ discriminate Hg.
    + apply String.eqb_neq in E. intros Hw. right. right.
      replace (own k' (entries o)) with (own k' (entries target1)); [exact Hw|].
      subst target1. destruct (negb (isPlainObject (get o k))); [|reflexivity].
      now apply own_set_other.
Qed.

Lemma apply_writes_is_mapping ws :
  forall o, is_mapping o = true -> is_mapping (apply_writes ws o) = true.
Proof.
  induction ws as [|[q v] ws IH]; intros o Ho; [exact Ho|].
  apply IH. now apply setNestedValue_is_mapping.
Qed.

Lemma apply_writes_paths ws :
  leaf_writes ws ->
  forall o p w,
    is_mapping o = true -> p <> [] ->
    get_path (apply_writes ws o) p = Some w ->
    get_path o p = Some w
    \/ exists q v, In (q, v) ws
         /\ ((strict_prefix p q /\ is_mapping w = true) \/ (p = q /\ w = v)).
Proof.
  induction ws as [|[q v] ws IH]; intros Hleaf o p w Ho Hp Hw; [now left|].
  assert (Hleaf' : leaf_writes ws).
  { intros q' v' Hin. apply Hleaf. now right. }
  destruct (Hleaf q v ltac:(now left)) as [Hq Hv].
  change (apply_writes ((q, v) :: ws) o)
    with (apply_writes ws (setNestedValue o q v)) in Hw.
  destruct (IH Hleaf' _ p w (setNestedValue_is_mapping q o v Ho) Hp Hw)
    as [Hw1|(q' & v' & Hin & Hcase)].
  - destruct (setNestedValue_paths q Hq o v p w Ho Hp Hw1)
      as [Hsp|[(r & Hr & Hg)|Hg]].
    + right. exists q, v. split; [now left | now left].
    + right. exists q, v. split; [now left|]. right.
      destruct r as [|x r].
      * rewrite app_nil_r in Hr. cbn [get_path] in Hg. split; congruence.
      * rewrite get_path_leaf in Hg by (auto; discriminate). discriminate.
    + now left.
  - right. exists q', v'. split; [now right | exact Hcase].
Qed.

Lemma doc_writes_sound config q v :
  json_compatible config = true ->
  In (q, v) (doc_writes config) ->
  secret_at config q /\ get_path config q = Some v.
Proof.
  intros Hc Hin.
  assert (Hrel : rel_doc config q /\ get_path config q = Some v);
    [|destruct Hrel as [Hrel Hg]; split; [now apply secret_at_rel | exact Hg]].
  unfold doc_writes in Hin.
  destruct (own "mcp" (entries config)) as [mv|] eqn:Hmv; [|destruct Hin].
  destruct mv as [| | | | | | | | |pr mprops]; try destruct Hin.
  destruct pr; try destruct Hin.
  assert (Hmc : json_compatible (VObject VObjectPrototype mprops) = true).
  { destruct config as [| | | | | | | | |pr ps]; try discriminate.
    destruct pr; try discriminate. eapply json_compatible_own; eauto. }
  pose proof (json_compatible_object _ Hmc) as [Hnd Hall].
  apply in_flat_map in Hin. destruct Hin as ([s sv] & Hs & Hin). cbn [fst snd] in Hin.
  pose proof (In_own _ _ _ Hnd Hs) as Hsv.
  pose proof (Hall _ _ Hs) as Hsc.
  unfold server_writes in Hin.
  destruct sv as [| | | | | | | | |pr sprops]; try destruct Hin.
  destruct pr; try destruct Hin.
  apply in_app_or in Hin. destruct Hin as [Hin|Hin].
  - unfold header_writes in Hin.
    destruct (own "headers" sprops) as [hv|] eqn:Hhv; [|destruct Hin].
    destruct hv as [| | | | | | | | |pr hprops]; try destruct Hin.
    destruct pr; try destruct Hin.
    pose proof (json_compatible_own _ _ _ Hsc Hhv) as Hhc.
    pose proof (json_compatible_object _ Hhc) as [Hnd' _].
    apply in_flat_map in Hin. destruct Hin as ([h x] & Hh & Hin).
    unfold header_write in Hin. cbn [fst snd] in Hin.
    destruct (isSecretString x) eqn:Hx; [|destruct Hin].
    destruct Hin as [Hin|[]]. injection Hin as <- <-.
    pose proof (In_own _ _ _ Hnd' Hh) as Hown.
    split.
    + exists (VObject VObjectPrototype mprops), [s; "headers"; h].
      split; [exact Hmv|]. split; [|reflexivity].
      exists s, (VObject VObjectPrototype sprops), ["headers"; h].
      split; [exact Hsv|]. split; [|reflexivity].
      left. exists (VObject VObjectPrototype hprops), [h].
      split; [exact Hhv|]. split; [|reflexivity]. now exists h, x.
    + unfold header_path. cbn [get_path]. rewrite Hmv. cbn [entries].
      rewrite Hsv. cbn [entries]. rewrite Hhv. cbn [entries]. now rewrite Hown.
  - unfold oauth_writes in Hin.
    destruct (own "oauth" sprops) as [ov|] eqn:Hov; [|destruct Hin].
    destruct ov as [| | | | | | | | |pr oprops]; try destruct Hin.
    destruct pr; try destruct Hin.
    destruct (own "clientSecret" oprops) as [cs|] eqn:Hcs; [|destruct Hin].
    destruct (isSecretString cs) eqn:Hx; [|destruct Hin].
    destruct Hin as [Hin|[]]. injection Hin as <- <-.
    split.
    + exists (VObject VObjectPrototype mprops), [s; "oauth"; "clientSecret"].
      split; [exact Hmv|]. split; [|reflexivity].
      exists s, (VObject VObjectPrototype sprops), ["oauth"; "clientSecret"].
      split; [exact Hsv|]. split; [|reflexivity].
      right. exists (VObject VObjectPrototype oprops), ["clientSecret"].
      split; [exact Hov|]. split; [|reflexivity]. now exists cs.
    + unfold oauth_path. cbn [get_path]. rewrite Hmv. cbn [entries].
      rewrite Hsv. cbn [entries]. rewrite Hov. cbn [entries]. now rewrite Hcs.
Qed.

End OverrideFacts.

(** ** Documents, secrets and serialization *)

Module DocumentFacts.
Import Chars Str JS McpSecrets Spec.
Import StrFacts PropsFacts StripFacts MergeFacts ExtractFacts FrameFacts OverrideFacts.

Lemma secret_path_length q : secret_path q -> List.length q = 4%nat.
Proof. intros [(s & h & ->)|(s & ->)]; reflexivity. Qed.

Lemma secret_path_nonempty q : secret_path q -> q <> [].
Proof. intros [(s & h & ->)|(s & ->)]; discriminate. Qed.

Lemma strict_prefix_length p q : strict_prefix p q -> (List.length p < List.length q)%nat.
Proof. intros (k & r & ->). rewrite length_app. cbn [List.length]. lia. Qed.

Lemma doc_writes_leaf config :
  json_compatible config = true -> leaf_writes (doc_writes config).
Proof.
  intros Hc q v Hin. destruct (doc_writes_sound _ _ _ Hc Hin) as [[Hsp (x & Hx & Hs)] Hg].
  split; [now apply secret_path_nonempty|].
  rewrite Hg in Hx. injection Hx as ->. now apply isSecretString_leaf.
Qed.

Lemma overrides_sound config p w :
  json_compatible config = true ->
  p <> [] ->
  get_path (apply_writes (doc_writes config) empty_object) p = Some w ->
  exists q v, In (q, v) (doc_writes config)
    /\ ((strict_prefix p q /\ is_mapping w = true) \/ (p = q /\ w = v)).
Proof.
  intros Hc Hp Hw.
  destruct (apply_writes_paths _ (doc_writes_leaf _ Hc) empty_object p w eq_refl Hp Hw)
    as [H|H]; [|exact H].
  destruct p; [congruence | discriminate H].
Qed.

Lemma is_document_inv config :
  is_document config = true ->
  isPlainObject config = true /\ json_compatible config = true.
Proof. unfold is_document. now rewrite andb_true_iff. Qed.

Lemma no_secret_no_writes config :
  json_compatible config = true ->
  (forall q, ~ secret_at config q) -> doc_writes config = [].
Proof.
  intros Hc Hno. destruct (doc_writes config) as [|[q v] ws] eqn:E; [reflexivity|].
  exfalso. apply (Hno q). eapply doc_writes_sound; [exact Hc|].
  rewrite E. now left.
Qed.

Lemma extract_nothing config :
  is_document config = true ->
  (forall q, ~ secret_at config q) ->
  extractMcpSecrets config
  = Ok {| sanitizedConfig := config; secretOverrides := empty_object |}.
Proof.
  intros Hd Hno. destruct (is_document_inv _ Hd) as [Hp Hc].
  rewrite extract_document by exact Hd.
  rewrite no_secret_no_writes by assumption.
  f_equal. f_equal. apply get_path_nil_eq, frame_doc; [exact Hc|].
  intros q Hq. now destruct (Hno q).
Qed.

Lemma existsb_append p a b :
  Str.existsb p (a ++ b)%string = Str.existsb p a || Str.existsb p b.
Proof.
  induction a as [|c r IH]; [reflexivity|]. cbn [String.append Str.existsb].
  now rewrite IH, orb_assoc.
Qed.

Lemma lower_env tag :
  toLowerCase tag = "env" ->
  exists c1 c2 c3, tag = String c1 (String c2 (String c3 EmptyString))
    /\ is_char_ci "e" c1 = true /\ is_char_ci "n" c2 = true
    /\ is_char_ci "v" c3 = true.
Proof.
  destruct tag as [|c1 [|c2 [|c3 [|c4 r]]]]; try discriminate.
  cbn [toLowerCase Str.map]. intros H. injection H as H1 H2 H3.
  exists c1, c2, c3. split; [reflexivity|].
  repeat split.
  - clear H2 H3. destruct c1 as [[] [] [] [] [] [] [] []]; try discriminate H1; reflexivity.
  - clear H1 H3. destruct c2 as [[] [] [] [] [] [] [] []]; try discriminate H2; reflexivity.
  - clear H1 H2. destruct c3 as [[] [] [] [] [] [] [] []]; try discriminate H3; reflexivity.
Qed.

Lemma test_placeholder_cons c s :
  test_placeholder (String c s) = match_placeholder_here (String c s) || test_placeholder s.
Proof. reflexivity. Qed.

Lemma test_placeholder_contains pre tag name post :
  toLowerCase tag = "env" ->
  name <> EmptyString ->
  Str.existsb (is_char "}") name = false ->
  test_placeholder (pre ++ "{" ++ tag ++ ":" ++ name ++ "}" ++ post)%string = true.
Proof.
  intros Htag Hname Hbrace.
  induction pre as [|c r IH].
  - destruct (lower_env _ Htag) as (c1 & c2 & c3 & -> & H1 & H2 & H3).
    destruct name as [|n0 name']; [congruence|].
    cbn [String.append]. rewrite test_placeholder_cons.
    apply orb_true_iff. left.
    cbn [match_placeholder_here]. rewrite H1, H2, H3.
    cbn [Str.existsb] in Hbrace. apply orb_false_iff in Hbrace.
    destruct Hbrace as [Hn0 _].
    cbn [is_char Ascii.eqb Bool.eqb andb match_env_body].
    fold (is_char "}" n0). rewrite Hn0. cbn [negb andb].
    rewrite existsb_append. cbn [String.append Str.existsb].
    change (is_char "}" "}") with true. cbn [orb]. now rewrite orb_true_r.
  - cbn [String.append]. rewrite test_placeholder_cons.
    cbn [String.append] in IH. rewrite IH. apply orb_true_r.
Qed.

Lemma json_compatible_child v k c :
  json_compatible v = true -> own k (entries v) = Some c ->
  exists props, v = VObject VObjectPrototype props /\ own k props = Some c
                /\ json_compatible c = true.
Proof.
  intros Hc Ho. destruct v as [| | | | | | | | |pr ps]; try discriminate Ho.
  destruct pr; try discriminate Hc. exists ps. cbn [entries] in Ho.
  split; [reflexivity|]. split; [exact Ho|]. eapply json_compatible_own; eauto.
Qed.

Lemma san_doc_header config s h v :
  json_compatible config = true ->
  get_path config (header_path s h) = Some v ->
  isSecretString v = true ->
  get_path (san_doc config) (header_path s h) = Some (header_replacement s h v).
Proof.
  intros Hc Hg Hs. unfold header_path in *. cbn [get_path] in Hg.
  destruct (own "mcp" (entries config)) as [mv|] eqn:Hmv; [|discriminate].
  destruct (json_compatible_child _ _ _ Hc Hmv) as (props & -> & Hmv' & Hmc).
  destruct (own s (entries mv)) as [sv|] eqn:Hsv; [|discriminate].
  destruct (json_compatible_child _ _ _ Hmc Hsv) as (mprops & -> & Hsv' & Hsc).
  destruct (own "headers" (entries sv)) as [hv|] eqn:Hhv; [|discriminate].
  destruct (json_compatible_child _ _ _ Hsc Hhv) as (sprops & -> & Hhv' & Hhc).
  destruct (own h (entries hv)) as [x|] eqn:Hx; [|discriminate].
  destruct (json_compatible_child _ _ _ Hhc Hx) as (hprops & -> & Hx' & _).
  injection Hg as ->.
  unfold san_doc. cbn [get_path]. rewrite own_map_own. cbn [String.eqb Ascii.eqb Bool.eqb entries].
  rewrite Hmv'. cbn [option_map san_mcp entries]. rewrite own_san_mcp, Hsv'.
  cbn [option_map]. rewrite san_server_plain, !own_map_own.
  cbn [String.eqb Ascii.eqb Bool.eqb entries]. rewrite Hhv'.
  cbn [option_map san_headers entries]. rewrite own_san_entries, Hx'.
  cbn [option_map]. now rewrite Hs.
Qed.

Lemma san_doc_oauth config s v :
  json_compatible config = true ->
  get_path config (oauth_path s) = Some v ->
  isSecretString v = true ->
  get_path (san_doc config) (oauth_path s) = Some (oauth_replacement s).
Proof.
  intros Hc Hg Hs. unfold oauth_path in *. cbn [get_path] in Hg.
  destruct (own "mcp" (entries config)) as [mv|] eqn:Hmv; [|discriminate].
  destruct (json_compatible_child _ _ _ Hc Hmv) as (props & -> & Hmv' & Hmc).
  destruct (own s (entries mv)) as [sv|] eqn:Hsv; [|discriminate].
  destruct (json_compatible_child _ _ _ Hmc Hsv) as (mprops & -> & Hsv' & Hsc).
  destruct (own "oauth" (entries sv)) as [ov|] eqn:Hov; [|discriminate].
  destruct (json_compatible_child _ _ _ Hsc Hov) as (sprops & -> & Hov' & Hoc).
  destruct (own "clientSecret" (entries ov)) as [x|] eqn:Hx; [|discriminate].
  destruct (json_compatible_child _ _ _ Hoc Hx) as (oprops & -> & Hx' & _).
  injection Hg as ->.
  unfold san_doc. cbn [get_path]. rewrite own_map_own. cbn [String.eqb Ascii.eqb Bool.eqb entries].
  rewrite Hmv'. cbn [option_map san_mcp entries]. rewrite own_san_mcp, Hsv'.
  cbn [option_map]. rewrite san_server_plain, !own_map_own.
  cbn [String.eqb Ascii.eqb Bool.eqb entries]. rewrite Hov'.
  cbn [option_map san_oauth entries]. rewrite Hx', Hs. cbn [entries].
  rewrite own_replace_same, Hx'. reflexivity.
Qed.

Lemma buildHeaderEnvVar_env_token serverName headerName :
  buildHeaderEnvVar serverName headerName
  = if test_env_name headerName then headerName
    else ("OPENCODE_MCP_" ++ env_token serverName "SERVER" ++ "_"
          ++ env_token headerName "VALUE")%string.
Proof.
  unfold buildHeaderEnvVar, buildEnvVar.
  now rewrite !toEnvToken_env_token.
Qed.

Lemma buildHeaderPlaceholder_prefix value envVar headerName :
  exists prefix,
    buildHeaderPlaceholder value envVar headerName
    = (prefix ++ env_reference envVar)%string.
Proof.
  unfold buildHeaderPlaceholder.
  destruct (negb (isAuthorizationHeader headerName)); [now exists EmptyString|].
  destruct (match_scheme value) as [pre|]; [now exists pre | now exists EmptyString].
Qed.

Lemma stripOverrideKeys_entries base toRemove :
  NoDup (Object_keys toRemove) ->
  (isPlainObject base && isPlainObject toRemove = false ->
   stripOverrideKeys base toRemove = base)
  /\ (isPlainObject base && isPlainObject toRemove = true ->
      isPlainObject (stripOverrideKeys base toRemove) = true
      /\ forall key,
           own key (entries (stripOverrideKeys base toRemove))
           = stripped_entry (entries base) (entries toRemove) key).
Proof.
  intros Hnd. split; [apply stripOverrideKeys_not_plain|].
  rewrite andb_true_iff. intros [Hb Hr].
  destruct (isPlainObject_inv _ Hb) as [bprops ->].
  destruct (isPlainObject_inv _ Hr) as [rprops ->].
  rewrite stripOverrideKeys_plain.
  destruct (fold_strip_step rprops Hnd bprops) as (ps' & -> & Hps').
  split; [reflexivity | exact Hps'].
Qed.

Lemma unique_keys_object proto props :
  unique_keys (VObject proto props) = true ->
  NoDup (keys props) /\ forall k v, own k props = Some v -> unique_keys v = true.
Proof.
  cbn [unique_keys]. rewrite !andb_true_iff, nodup_keys_NoDup, forallb_forall.
  intros [[_ Hnd] Hall]. split; [exact Hnd|].
  intros k v Ho. exact (Hall _ (own_In _ _ _ Ho)).
Qed.

Lemma stripOverrideKeys_deletes_paths toRemove :
  forall base path v,
    unique_keys toRemove = true ->
    isPlainObject base = true -> isPlainObject toRemove = true ->
    path <> [] ->
    get_path toRemove path = Some v -> isPlainObject v = false ->
    get_path (stripOverrideKeys base toRemove) path = None.
Proof.
  intros base path. revert base toRemove.
  induction path as [|k p IH]; [congruence|].
  intros base toRemove v Hu Hb Hr _ Hg Hv.
  destruct (isPlainObject_inv _ Hr) as [rprops ->].
  destruct (unique_keys_object _ _ Hu) as [Hnd Hall].
  destruct (stripOverrideKeys_entries base (VObject VObjectPrototype rprops) Hnd)
    as [_ H].
  destruct (H ltac:(now rewrite Hb)) as [_ Hkey]. clear H.
  cbn [get_path] in *. rewrite Hkey. unfold stripped_entry. cbn [entries] in *.
  destruct (own k (entries base)) as [bv|]; [|reflexivity].
  destruct (own k rprops) as [rv|] eqn:Hrv; [|discriminate].
  destruct (isPlainObject bv && isPlainObject rv) eqn:Hboth; [|reflexivity].
  apply andb_true_iff in Hboth. destruct Hboth as [Hbv Hrp].
  cbv zeta. destruct (is_empty_object (stripOverrideKeys bv rv)); [reflexivity|].
  destruct p as [|k2 p2].
  - cbn [get_path] in Hg. congruence.
  - apply (IH bv rv v); auto; [eapply Hall; eauto | discriminate].
Qed.

Lemma traverse_bigint (f : Value -> Result (option Value)) items :
  Forall (fun x => if has_bigint x then f x = Throw TypeError
                   else exists r, f x = Ok r) items ->
  if List.existsb has_bigint items
  then traverse (fun x => bind (f x) (fun y => Ok (or_null y))) items = Throw TypeError
  else exists r, traverse (fun x => bind (f x) (fun y => Ok (or_null y))) items = Ok r.
Proof.
  induction 1 as [|x l Hx _ IH]; [now exists []|].
  cbn [List.existsb traverse].
  destruct (has_bigint x); cbn [orb].
  - now rewrite Hx.
  - destruct Hx as [r ->]. cbn [bind].
    destruct (List.existsb has_bigint l).
    + now rewrite IH.
    + destruct IH as [rs ->]. now eexists.
Qed.

Lemma traverse_props_bigint (f : Value -> Result (option Value)) props :
  Forall (fun kv => if has_bigint (snd kv) then f (snd kv) = Throw TypeError
                    else exists r, f (snd kv) = Ok r) props ->
  if List.existsb (fun kv => has_bigint (snd kv)) props
  then traverse_props f props = Throw TypeError
  else exists r, traverse_props f props = Ok r.
Proof.
  induction 1 as [|[k x] l Hx _ IH]; [now exists []|].
  cbn [List.existsb traverse_props snd] in *.
  destruct (has_bigint x); cbn [orb].
  - now rewrite Hx.
  - destruct Hx as [r ->]. cbn [bind].
    destruct (List.existsb (fun kv => has_bigint (snd kv)) l).
    + now rewrite IH.
    + destruct IH as [rs ->]. now eexists.
Qed.

Lemma json_roundtrip_bigint v :
  if has_bigint v then json_roundtrip v = Throw TypeError
  else exists r, json_roundtrip v = Ok r.
Proof.
  induction v as [| | | | | | | |items IH|proto props _ IH] using Value_induction;
    try (now eexists); try reflexivity.
  - cbn [has_bigint json_roundtrip].
    pose proof (traverse_bigint json_roundtrip items IH) as H.
    destruct (List.existsb has_bigint items).
    + now rewrite H.
    + destruct H as [r ->]. now eexists.
  - cbn [has_bigint json_roundtrip].
    pose proof (traverse_props_bigint json_roundtrip props IH) as H.
    destruct (List.existsb (fun kv => has_bigint (snd kv)) props).
    + now rewrite H.
    + destruct H as [r ->]. now eexists.
Qed.

Lemma cloneConfig_mapping config :
  is_mapping config = true ->
  if has_bigint config then cloneConfig config = Throw TypeError
  else exists props, cloneConfig config = Ok (VObject VObjectPrototype props).
Proof.
  intros Hm. destruct config as [| | | | | | | | |proto props]; try discriminate.
  unfold cloneConfig, json_clone.
  pose proof (json_roundtrip_bigint (VObject proto props)) as H.
  destruct (has_bigint (VObject proto props)).
  - now rewrite H.
  - cbn [json_roundtrip] in *.
    destruct (traverse_props json_roundtrip props) as [ps|e].
    + cbn [bind]. now exists ps.
    + destruct H as [r H]. discriminate H.
Qed.

Lemma extract_after_clone config props :
  cloneConfig config = Ok (VObject VObjectPrototype props) ->
  exists r, extractMcpSecrets config = Ok r.
Proof.
  intros Hc. unfold extractMcpSecrets. rewrite Hc. cbn [bind read].
  destruct (getPlainObject (get (VObject VObjectPrototype props) "mcp")) as [mcp|];
    [|now eexists].
  destruct (fold_left extractServer (entries mcp) (mcp, empty_object)) as [mcp1 ov].
  now eexists.
Qed.

Lemma document_no_bigint v : json_compatible v = true -> has_bigint v = false.
Proof.
  intros Hc. pose proof (json_roundtrip_bigint v) as H.
  rewrite json_roundtrip_compatible in H by exact Hc.
  destruct (has_bigint v); [discriminate | reflexivity].
Qed.

End DocumentFacts.

(** ** The characters of an environment-variable name *)

Module TokenFacts.
Import Chars Str JS McpSecrets Spec.
Import StrFacts DocumentFacts.

Lemma forallb_drop_while p q s :
  Str.forallb p s = true -> Str.forallb p (drop_while q s) = true.
Proof.
  induction s as [|c r IH]; [reflexivity|]. cbn [Str.forallb drop_while].
  intros H. apply andb_true_iff in H. destruct H as [Hc Hr].
  destruct (q c); [auto|]. cbn [Str.forallb]. now rewrite Hc, Hr.
Qed.

Lemma forallb_drop_while_end p q s :
  Str.forallb p s = true -> Str.forallb p (drop_while_end q s) = true.
Proof.
  induction s as [|c r IH]; [reflexivity|]. cbn [Str.forallb drop_while_end].
  intros H. apply andb_true_iff in H. destruct H as [Hc Hr].
  destruct (q c && is_empty (drop_while_end q r)); [reflexivity|].
  cbn [Str.forallb]. now rewrite Hc, IH.
Qed.

Lemma forallb_replace_runs b s :
  Str.forallb is_token_char (replace_runs b s) = true.
Proof.
  revert b. induction s as [|c r IH]; intros b; [reflexivity|].
  cbn [replace_runs]. destruct (is_alnum c) eqn:Hc.
  - cbn [Str.forallb]. unfold is_token_char at 1. now rewrite Hc, IH.
  - destruct b; [apply IH|]. cbn [Str.forallb]. now rewrite IH.
Qed.

Lemma upper_token_char c :
  is_token_char c = true -> is_env_name_char (upper c) = true.
Proof.
  destruct c as [[] [] [] [] [] [] [] []]; cbn; intros H;
    first [reflexivity | discriminate H].
Qed.

Lemma forallb_map_upper s :
  Str.forallb is_token_char s = true ->
  Str.forallb is_env_name_char (Str.map upper s) = true.
Proof.
  induction s as [|c r IH]; [reflexivity|]. cbn [Str.forallb Str.map].
  intros H. apply andb_true_iff in H. destruct H as [Hc Hr].
  now rewrite (upper_token_char _ Hc), IH.
Qed.

(** The string [toEnvToken] uppercases holds letters, digits and
    underscores only, so uppercasing it touches the letters a-z alone. *)
Lemma cleaned_token_chars input :
  Str.forallb is_token_char
    (strip_underscores (replace_non_alnum (trim input))) = true.
Proof.
  unfold strip_underscores, replace_non_alnum.
  apply forallb_drop_while_end, forallb_drop_while, forallb_replace_runs.
Qed.

Lemma toEnvToken_chars input fallback :
  test_env_name fallback = true ->
  test_env_name (toEnvToken input fallback) = true.
Proof.
  intros Hf. unfold toEnvToken.
  destruct (is_empty (strip_underscores (replace_non_alnum (trim input)))) eqn:He;
    [exact Hf|].
  unfold test_env_name, toUpperCase. rewrite is_empty_map, He. cbn [negb andb].
  apply forallb_map_upper, cleaned_token_chars.
Qed.

Lemma forallb_append p a b :
  Str.forallb p (a ++ b)%string = Str.forallb p a && Str.forallb p b.
Proof.
  induction a as [|c r IH]; [reflexivity|]. cbn [String.append Str.forallb].
  now rewrite IH, andb_assoc.
Qed.

Lemma test_env_name_forallb s :
  test_env_name s = true -> Str.forallb is_env_name_char s = true.
Proof. unfold test_env_name. now intros H%andb_true_iff. Qed.

Lemma buildEnvVar_chars serverName key :
  test_env_name (buildEnvVar serverName key) = true.
Proof.
  unfold buildEnvVar. cbv zeta.
  pose proof (test_env_name_forallb _ (toEnvToken_chars serverName "SERVER" eq_refl)) as Hs.
  pose proof (test_env_name_forallb _ (toEnvToken_chars key "VALUE" eq_refl)) as Hk.
  unfold test_env_name. apply andb_true_iff. split; [reflexivity|].
  rewrite !forallb_append, Hs, Hk. reflexivity.
Qed.

Lemma buildHeaderEnvVar_chars serverName headerName :
  test_env_name (buildHeaderEnvVar serverName headerName) = true.
Proof.
  unfold buildHeaderEnvVar.
  destruct (test_env_name headerName) eqn:H; [exact H | apply buildEnvVar_chars].
Qed.

Lemma env_name_no_brace name :
  test_env_name name = true ->
  name <> EmptyString /\ Str.existsb (is_char "}") name = false.
Proof.
  unfold test_env_name. intros H. apply andb_true_iff in H. destruct H as [Hne Hall].
  split; [now destruct name|]. clear Hne.
  induction name as [|c r IH]; [reflexivity|]. cbn [Str.forallb Str.existsb] in *.
  apply andb_true_iff in Hall. destruct Hall as [Hc Hr]. rewrite (IH Hr).
  destruct c as [[] [] [] [] [] [] [] []]; first [reflexivity | discriminate Hc].
Qed.

Lemma env_reference_placeholder prefix name :
  test_env_name name = true ->
  test_placeholder (prefix ++ env_reference name) = true.
Proof.
  intros H. destruct (env_name_no_brace _ H) as [Hne Hb].
  pose proof (test_placeholder_contains prefix "env" name "" eq_refl Hne Hb) as T.
  exact T.
Qed.

Lemma header_replacement_placeholder s h v :
  exists placeholder,
    header_replacement s h v = VString placeholder
    /\ test_placeholder placeholder = true.
Proof.
  unfold header_replacement.
  destruct (buildHeaderPlaceholder_prefix (String_ v) (buildHeaderEnvVar s h) (Some h))
    as [prefix ->].
  eexists. split; [reflexivity|].
  apply env_reference_placeholder, buildHeaderEnvVar_chars.
Qed.

Lemma oauth_replacement_placeholder s :
  exists placeholder,
    oauth_replacement s = VString placeholder
    /\ test_placeholder placeholder = true.
Proof.
  unfold oauth_replacement. eexists. split; [reflexivity|].
  apply (env_reference_placeholder ""), buildEnvVar_chars.
Qed.

End TokenFacts.

(** ** Overrides that are trees of plain mappings *)

Module CompleteFacts.
Import Chars Str JS McpSecrets Spec.
Import StrFacts PropsFacts StripFacts MergeFacts ExtractFacts FrameFacts
  OverrideFacts DocumentFacts TokenFacts.

Lemma all_plain_obj props :
  all_plain (obj props) = true <->
  forall k v, In (k, v) props -> all_plain v = true.
Proof.
  unfold obj. cbn [all_plain]. rewrite forallb_forall. split.
  - intros H k v Hin. exact (H _ Hin).
  - intros H [k v] Hin. exact (H _ _ Hin).
Qed.

Lemma all_plain_leaf v : is_mapping v = false -> all_plain v = true.
Proof. destruct v; try reflexivity. discriminate. Qed.

Lemma all_plain_mapping v :
  all_plain v = true -> is_mapping v = true -> isPlainObject v = true.
Proof.
  destruct v as [| | | | | | | | |pr ps]; try discriminate.
  destruct pr; try discriminate. reflexivity.
Qed.

Lemma In_replace_own k v ps k' v' :
  In (k', v') (replace_own k v ps) -> In (k', v') ps \/ v' = v.
Proof.
  induction ps as [|[k0 v0] r IH]; cbn [replace_own]; [tauto|].
  destruct (String.eqb k k0).
  - intros [H|H]; [right; congruence | left; now right].
  - intros [H|H]; [left; now left|]. destruct (IH H); [left; now right | now right].
Qed.

Lemma In_insert_index i k v ps kv :
  In kv (insert_index i k v ps) -> In kv ps \/ kv = (k, v).
Proof.
  induction ps as [|[k0 v0] r IH]; cbn [insert_index].
  - intros [H|[]]. now right.
  - destruct (array_index k0) as [j|]; [destruct (j <? i)%N|].
    + intros [H|H]; [left; now left|]. destruct (IH H); [left; now right | now right].
    + intros [H|H]; [now right | now left].
    + intros [H|H]; [now right | now left].
Qed.

Lemma In_add_own k v ps kv : In kv (add_own k v ps) -> In kv ps \/ kv = (k, v).
Proof.
  unfold add_own. destruct (array_index k).
  - apply In_insert_index.
  - intros H. apply in_app_or in H. destruct H as [H|[H|[]]]; [now left | now right].
Qed.

Lemma all_plain_replace k v props :
  all_plain (obj props) = true -> all_plain v = true ->
  all_plain (obj (replace_own k v props)) = true.
Proof.
  rewrite !all_plain_obj. intros H Hv k' v' Hin.
  destruct (In_replace_own _ _ _ _ _ Hin) as [Hin'| ->]; eauto.
Qed.

Lemma all_plain_add k v props :
  all_plain (obj props) = true -> all_plain v = true ->
  all_plain (obj (add_own k v props)) = true.
Proof.
  rewrite !all_plain_obj. intros H Hv k' v' Hin.
  destruct (In_add_own _ _ _ _ Hin) as [Hin'|E]; [eauto | congruence].
Qed.

Lemma set_plain props k v :
  k <> "__proto__" ->
  set (obj props) k v
  = obj (match own k props with
         | Some _ => replace_own k v props
         | None => add_own k v props
         end).
Proof.
  intros Hk. apply String.eqb_neq in Hk. unfold obj, set.
  destruct (own k props); [reflexivity|].
  cbn [lookup_chain chain_end]. now rewrite Hk.
Qed.

Lemma set_plain_spec props k v :
  k <> "__proto__" ->
  all_plain (obj props) = true -> all_plain v = true ->
  exists props',
    set (obj props) k v = obj props'
    /\ all_plain (obj props') = true
    /\ own k props' = Some v
    /\ forall k', k' <> k -> own k' props' = own k' props.
Proof.
  intros Hk Hp Hv. rewrite set_plain by exact Hk.
  destruct (own k props) eqn:Ho; eexists; (split; [reflexivity|]).
  - split; [now apply all_plain_replace|]. split.
    + now rewrite own_replace_same, Ho.
    + intros k' Hne. apply own_replace_other. congruence.
  - split; [now apply all_plain_add|]. split.
    + now apply own_add_same.
    + intros k' Hne. apply own_add_other. congruence.
Qed.

Lemma diverges_cons_inv k p q :
  diverges (k :: p) (k :: q) -> diverges p q.
Proof.
  intros (c & k1 & k2 & r1 & r2 & Hp & Hq & Hne).
  destruct c as [|c0 c]; cbn [app] in *.
  - congruence.
  - injection Hp as -> ->. injection Hq as ->. now exists c, k1, k2, r1, r2.
Qed.

Lemma diverges_nonempty p q : diverges p q -> p <> [].
Proof. intros (c & k1 & k2 & r1 & r2 & -> & _). now destruct c. Qed.

Lemma diverges_head k1 p k2 q :
  diverges (k1 :: p) (k2 :: q) -> k1 <> k2 \/ (k1 = k2 /\ diverges p q).
Proof.
  intros H. destruct (string_dec k1 k2) as [->|Hne]; [|now left].
  right. split; [reflexivity|]. eapply diverges_cons_inv, H.
Qed.

Lemma same_length_diverges p :
  forall q, List.length p = List.length q -> p <> q -> diverges p q.
Proof.
  induction p as [|k p IH]; intros [|k' q] Hl Hne; try discriminate; [congruence|].
  destruct (string_dec k k') as [->|Hk].
  - assert (Hpq : p <> q) by congruence.
    destruct (IH q ltac:(cbn in Hl; lia) Hpq) as (c & k1 & k2 & r1 & r2 & -> & -> & H).
    now exists (k' :: c), k1, k2, r1, r2.
  - now exists [], k, k', p, q.
Qed.

(** One step of the walk of [setNestedValue] in a tree of plain mappings:
    after [current[key] = {}] (if needed), [current[key]] is an own
    property holding a plain mapping. *)
Lemma descend_plain props k :
  k <> "__proto__" ->
  all_plain (obj props) = true ->
  exists props1 cprops,
    (if negb (isPlainObject (get (obj props) k))
     then set (obj props) k empty_object else obj props) = obj props1
    /\ all_plain (obj props1) = true
    /\ own k props1 = Some (obj cprops)
    /\ all_plain (obj cprops) = true
    /\ (forall k', k' <> k -> own k' props1 = own k' props)
    /\ (forall p', p' <> [] ->
          get_path (obj cprops) p'
          = match own k props with
            | Some c => get_path c p'
            | None => None
            end).
Proof.
  intros Hk Hp.
  destruct (isPlainObject (get (obj props) k)) eqn:Hplain; cbn [negb].
  - unfold obj in Hplain. rewrite get_plain in Hplain.
    destruct (own k props) as [c|] eqn:Ho.
    + destruct (isPlainObject_inv _ Hplain) as [cprops ->].
      exists props, cprops. split; [reflexivity|]. split; [exact Hp|].
      split; [exact Ho|]. split.
      * apply (proj1 (all_plain_obj props) Hp k). now apply own_In.
      * split; [reflexivity|]. reflexivity.
    + destruct (String.eqb k "__proto__"); [discriminate|].
      destruct (is_method k); discriminate.
  - destruct (set_plain_spec props k empty_object Hk Hp eq_refl)
      as (props1 & -> & Hp1 & Hown & Hother).
    exists props1, []. split; [reflexivity|]. split; [exact Hp1|].
    split; [exact Hown|]. split; [reflexivity|]. split; [exact Hother|].
    intros p' Hp'. destruct p' as [|x p']; [congruence|].
    cbn [get_path entries own obj].
    destruct (own k props) as [c|] eqn:Ho; [|reflexivity].
    unfold obj in Hplain. rewrite get_plain, Ho in Hplain.
    destruct c as [| | | | | | | | |pr ps]; try reflexivity.
    assert (all_plain (VObject pr ps) = true) as Hc
      by (apply (proj1 (all_plain_obj props) Hp k); now apply own_In).
    rewrite (all_plain_mapping _ Hc eq_refl) in Hplain. discriminate.
Qed.

Lemma setNestedValue_plain q :
  q <> [] -> ~ In "__proto__" q ->
  forall props v,
    all_plain (obj props) = true -> all_plain v = true ->
    exists props',
      setNestedValue (obj props) q v = obj props'
      /\ all_plain (obj props') = true
      /\ get_path (obj props') q = Some v
      /\ forall p, diverges p q -> get_path (obj props') p = get_path (obj props) p.
Proof.
  induction q as [|k q' IH]; [congruence|]. intros _ Hnp props v Hp Hv.
  assert (Hk : k <> "__proto__") by (intros ->; apply Hnp; now left).
  assert (Hnp' : ~ In "__proto__" q') by (intros H; apply Hnp; now right).
  destruct q' as [|k2 q''].
  - cbn [setNestedValue].
    destruct (set_plain_spec props k v Hk Hp Hv) as (props' & -> & Hp' & Hown & Hother).
    exists props'. split; [reflexivity|]. split; [exact Hp'|]. split.
    + cbn [get_path entries obj]. now rewrite Hown.
    + intros [|k1 p1] Hd; [now apply diverges_nonempty in Hd|].
      destruct (diverges_head _ _ _ _ Hd) as [Hne|[_ Hd']].
      * cbn [get_path entries obj]. now rewrite Hother.
      * destruct Hd' as (c & ? & ? & ? & ? & _ & Hq & _). now destruct c.
  - rewrite setNestedValue_cons2.
    destruct (descend_plain props k Hk Hp)
      as (props1 & cprops & -> & Hp1 & Hown & Hc & Hother & Hbelow).
    destruct (IH ltac:(discriminate) Hnp' cprops v Hc Hv)
      as (cprops' & Hset & Hc' & Hget & Hdiv).
    unfold obj at 1. rewrite (modify_own _ _ _ _ _ Hown). rewrite Hset.
    exists (replace_own k (obj cprops') props1). split; [reflexivity|].
    split; [now apply all_plain_replace|]. split.
    + cbn [get_path entries obj]. rewrite own_replace_same, Hown. exact Hget.
    + intros [|k1 p1] Hd; [now apply diverges_nonempty in Hd|].
      cbn [get_path entries obj].
      destruct (diverges_head _ _ _ _ Hd) as [Hne|[-> Hd']].
      * rewrite own_replace_other by congruence. now rewrite Hother.
      * rewrite own_replace_same, Hown. rewrite (Hdiv _ Hd').
        apply Hbelow. eapply diverges_nonempty, Hd'.
Qed.

Lemma apply_writes_preserves ws :
  plain_writes ws ->
  forall props q v,
    all_plain (obj props) = true ->
    List.length q = 4%nat ->
    get_path (obj props) q = Some v ->
    (forall v', In (q, v') ws -> v' = v) ->
    get_path (apply_writes ws (obj props)) q = Some v.
Proof.
  induction ws as [|[q0 v0] ws IH]; intros Hws props q v Hp Hl Hg Hfun; [exact Hg|].
  destruct (Hws q0 v0 ltac:(now left)) as (Hl0 & Hnp0 & Hleaf0).
  assert (Hq0 : q0 <> []) by (intros ->; discriminate).
  destruct (setNestedValue_plain q0 Hq0 Hnp0 props v0 Hp (all_plain_leaf _ Hleaf0))
    as (props' & Hset & Hp' & Hget & Hdiv).
  change (apply_writes ((q0, v0) :: ws) (obj props))
    with (apply_writes ws (setNestedValue (obj props) q0 v0)).
  rewrite Hset. apply IH; auto.
  - intros q' v' Hin. apply Hws. now right.
  - destruct (list_eq_dec string_dec q q0) as [->|Hne].
    + rewrite Hget. f_equal. apply Hfun. now left.
    + rewrite Hdiv; [exact Hg|]. apply same_length_diverges; congruence.
  - intros v' Hin. apply Hfun. now right.
Qed.

Lemma apply_writes_complete ws :
  plain_writes ws ->
  (forall q v v', In (q, v) ws -> In (q, v') ws -> v = v') ->
  forall props q v,
    all_plain (obj props) = true ->
    In (q, v) ws ->
    get_path (apply_writes ws (obj props)) q = Some v.
Proof.
  induction ws as [|[q0 v0] ws IH]; intros Hws Hfun props q v Hp Hin; [destruct Hin|].
  destruct (Hws q0 v0 ltac:(now left)) as (Hl0 & Hnp0 & Hleaf0).
  assert (Hq0 : q0 <> []) by (intros ->; discriminate).
  destruct (setNestedValue_plain q0 Hq0 Hnp0 props v0 Hp (all_plain_leaf _ Hleaf0))
    as (props' & Hset & Hp' & Hget & Hdiv).
  change (apply_writes ((q0, v0) :: ws) (obj props))
    with (apply_writes ws (setNestedValue (obj props) q0 v0)).
  rewrite Hset.
  assert (Hws' : plain_writes ws) by (intros q' v' H; apply Hws; now right).
  destruct Hin as [Hin|Hin].
  - injection Hin as <- <-.
    apply apply_writes_preserves; auto.
    intros v' Hin'. symmetry. apply (Hfun q0 v0 v'); [now left | now right].
  - apply IH; auto. intros q' a b Ha Hb. apply (Hfun q'); now right.
Qed.

Lemma doc_writes_complete config q v :
  json_compatible config = true ->
  secret_at config q -> get_path config q = Some v ->
  In (q, v) (doc_writes config).
Proof.
  intros Hc Hs Hg. apply secret_at_rel in Hs.
  destruct Hs as (mv & q1 & Hmv & (s & sv & q2 & Hsv & Hrel & ->) & ->).
  destruct (json_compatible_child _ _ _ Hc Hmv) as (props & -> & Hmv' & Hmc).
  destruct (json_compatible_child _ _ _ Hmc Hsv) as (mprops & -> & Hsv' & Hsc).
  unfold doc_writes. cbn [entries]. rewrite Hmv'.
  apply in_flat_map. exists (s, sv). split; [now apply own_In|]. cbn [fst snd].
  cbn [get_path entries] in Hg. rewrite Hmv' in Hg.
  cbn [get_path entries] in Hg. rewrite Hsv' in Hg.
  destruct Hrel as [(hv & q3 & Hhv & (h & x & -> & Hx & Hsx) & ->)
                   |(ov & q3 & Hov & (x & -> & Hx & Hsx) & ->)].
  - destruct (json_compatible_child _ _ _ Hsc Hhv) as (sprops & -> & Hhv' & Hhc).
    destruct (json_compatible_child _ _ _ Hhc Hx) as (hprops & -> & Hx' & _).
    cbn [get_path entries] in Hg. rewrite Hhv' in Hg.
    cbn [get_path entries] in Hg. rewrite Hx' in Hg. injection Hg as <-.
    cbn [server_writes]. apply in_or_app. left. rewrite Hhv'. cbn [header_writes].
    apply in_flat_map. exists (h, x). split; [now apply own_In|].
    unfold header_write. cbn [fst snd]. rewrite Hsx. now left.
  - destruct (json_compatible_child _ _ _ Hsc Hov) as (sprops & -> & Hov' & Hoc).
    destruct (json_compatible_child _ _ _ Hoc Hx) as (oprops & -> & Hx' & _).
    cbn [get_path entries] in Hg. rewrite Hov' in Hg.
    cbn [get_path entries] in Hg. rewrite Hx' in Hg. injection Hg as <-.
    cbn [server_writes]. apply in_or_app. right. rewrite Hov'. cbn [oauth_writes].
    rewrite Hx', Hsx. now left.
Qed.

Lemma doc_writes_plain config :
  json_compatible config = true ->
  (forall q, secret_at config q -> ~ In "__proto__" q) ->
  plain_writes (doc_writes config).
Proof.
  intros Hc Hnp q v Hin.
  destruct (doc_writes_sound _ _ _ Hc Hin) as [Hs Hg].
  split; [apply secret_path_length, Hs|]. split; [now apply Hnp|].
  destruct Hs as [_ (x & Hx & Hsx)]. rewrite Hg in Hx. injection Hx as ->.
  now apply isSecretString_leaf.
Qed.

End CompleteFacts.

(** ** The scheme pattern *)

Module SchemeFacts.
Import Chars Str JS McpSecrets Spec.
Import StrFacts.

Lemma span_app p s a b :
  span p s = (a, b) ->
  s = (a ++ b)%string /\ Str.forallb p a = true
  /\ match b with EmptyString => True | String x _ => p x = false end.
Proof.
  revert a b. induction s as [|c r IH]; cbn [span]; intros a b H.
  - injection H as <- <-. auto.
  - destruct (p c) eqn:Hc.
    + destruct (span p r) as [a' b'] eqn:E. injection H as <- <-.
      destruct (IH _ _ eq_refl) as (-> & Ha & Hb).
      cbn [String.append Str.forallb]. rewrite Hc, Ha. auto.
    + injection H as <- <-. cbn [String.append]. rewrite Hc. auto.
Qed.

Lemma span_unique p a b :
  Str.forallb p a = true ->
  match b with EmptyString => True | String x _ => p x = false end ->
  span p (a ++ b)%string = (a, b).
Proof.
  intros Ha Hb. induction a as [|c r IH]; cbn [String.append].
  - destruct b as [|x b']; [reflexivity|]. cbn [span]. now rewrite Hb.
  - cbn [Str.forallb] in Ha. apply andb_true_iff in Ha. destruct Ha as [Hc Hr].
    cbn [span]. rewrite Hc, (IH Hr). reflexivity.
Qed.

Lemma space_not_scheme_char c : is_space c = true -> is_scheme_char c = false.
Proof.
  destruct c as [[] [] [] [] [] [] [] []]; cbn; intros H;
    first [reflexivity | discriminate H].
Qed.

Lemma append_assoc (a b c : string) :
  ((a ++ b) ++ c = a ++ (b ++ c))%string.
Proof. induction a as [|x r IH]; cbn [String.append]; [reflexivity | now rewrite IH]. Qed.

Lemma match_scheme_spec value prefix :
  match_scheme value = Some prefix <-> scheme_prefix value prefix.
Proof.
  unfold match_scheme, scheme_prefix. split.
  - destruct value as [|c r]; [discriminate|].
    destruct (is_alpha c) eqn:Hc; [|discriminate].
    destruct (span is_scheme_char r) as [scheme rest0] eqn:E1.
    destruct (span is_space rest0) as [spaces rest] eqn:E2.
    destruct (is_empty spaces) eqn:He; [discriminate|]. intros [= <-].
    destruct (span_app _ _ _ _ E1) as (-> & Hs & _).
    destruct (span_app _ _ _ _ E2) as (-> & Hw & Hrest).
    exists c, scheme, spaces, rest. cbn [String.append].
    rewrite append_assoc. repeat split; auto.
    intros ->. discriminate.
  - intros (c & scheme & spaces & rest & -> & -> & Hc & Hs & Hw & Hne & Hrest).
    cbn [String.append]. rewrite Hc, append_assoc.
    rewrite (span_unique is_scheme_char scheme (spaces ++ rest)%string Hs).
    + rewrite (span_unique is_space spaces rest Hw Hrest).
      destruct spaces; [congruence | reflexivity].
    + destruct spaces as [|x sp]; [congruence|]. cbn [String.append].
      cbn [Str.forallb] in Hw. apply andb_true_iff in Hw.
      now apply space_not_scheme_char.
Qed.

Lemma isAuthorizationHeader_spec headerName :
  isAuthorizationHeader (Some headerName) = true
  <-> authorization_name headerName.
Proof.
  unfold isAuthorizationHeader, authorization_name.
  destruct headerName as [|c r]; cbn [is_empty].
  - split; [discriminate | intros [H|H]; discriminate H].
  - rewrite orb_true_iff, !String.eqb_eq. reflexivity.
Qed.

End SchemeFacts.

(** ** The JSON image of a value *)

Module CloneFacts.
Import Chars Str JS McpSecrets Spec.
Import ExtractFacts DocumentFacts.

Lemma traverse_idem (f : Value -> Result (option Value)) items :
  Forall (fun x => forall y, f x = Ok (Some y) -> f y = Ok (Some y)) items ->
  f VNull = Ok (Some VNull) ->
  forall items',
    traverse (fun x => bind (f x) (fun y => Ok (or_null y))) items = Ok items' ->
    traverse (fun x => bind (f x) (fun y => Ok (or_null y))) items' = Ok items'.
Proof.
  intros H Hnull. induction H as [|x l Hx _ IH]; intros items' Ht.
  - injection Ht as <-. reflexivity.
  - cbn [traverse] in Ht. destruct (f x) as [[y|]|e] eqn:Hfx; try discriminate;
      cbn [bind or_null] in Ht;
      destruct (traverse (fun x => bind (f x) (fun y => Ok (or_null y))) l)
        as [ys|e'] eqn:Hl; try discriminate; injection Ht as <-;
      cbn [traverse]; rewrite ?(Hx _ eq_refl), ?Hnull; cbn [bind or_null];
      rewrite (IH _ eq_refl); reflexivity.
Qed.

Lemma traverse_props_idem (f : Value -> Result (option Value)) props :
  Forall (fun kv => forall y, f (snd kv) = Ok (Some y) -> f y = Ok (Some y)) props ->
  forall props',
    traverse_props f props = Ok props' ->
    traverse_props f props' = Ok props'.
Proof.
  intros H. induction H as [|[k x] l Hx _ IH]; intros props' Ht.
  - injection Ht as <-. reflexivity.
  - cbn [traverse_props snd] in *.
    destruct (f x) as [[y|]|e] eqn:Hfx; try discriminate; cbn [bind] in Ht;
      destruct (traverse_props f l) as [ys|e'] eqn:Hl; try discriminate;
      injection Ht as <-.
    + cbn [traverse_props]. rewrite (Hx _ eq_refl). cbn [bind].
      rewrite (IH _ eq_refl). reflexivity.
    + now apply IH.
Qed.

Lemma json_roundtrip_idempotent v :
  forall v', json_roundtrip v = Ok (Some v') -> json_roundtrip v' = Ok (Some v').
Proof.
  induction v as [| | | | | | | |items IH|proto props _ IH] using Value_induction;
    intros v' H; cbn [json_roundtrip] in H; try discriminate;
    try (injection H as <-; reflexivity).
  - injection H as <-. destruct n; reflexivity.
  - destruct (traverse _ items) as [items'|e] eqn:Ht; [|discriminate].
    cbn [bind] in H. injection H as <-. cbn [json_roundtrip].
    now rewrite (traverse_idem json_roundtrip items IH eq_refl _ Ht).
  - destruct (traverse_props _ props) as [props'|e] eqn:Ht; [|discriminate].
    cbn [bind] in H. injection H as <-. cbn [json_roundtrip].
    now rewrite (traverse_props_idem json_roundtrip props IH _ Ht).
Qed.

Lemma extract_of_clone config clone :
  cloneConfig config = Ok clone ->
  cloneConfig clone = Ok clone
  /\ extractMcpSecrets config = extractMcpSecrets clone.
Proof.
  unfold cloneConfig, json_clone. intros H.
  destruct (json_roundtrip config) as [[c|]|e] eqn:Hr; try discriminate.
  cbn [bind] in H. injection H as ->.
  pose proof (json_roundtrip_idempotent _ _ Hr) as Hi.
  assert (Hc : bind (json_roundtrip clone)
                 (fun r => match r with Some v' => Ok v' | None => Throw SyntaxError end)
               = Ok clone) by now rewrite Hi.
  split; [exact Hc|].
  unfold extractMcpSecrets, cloneConfig, json_clone. rewrite Hr, Hi. reflexivity.
Qed.

End CloneFacts.

(** * The claims *)

Module Claims.
Import Chars Str JS McpSecrets Spec.
Import StrFacts PropsFacts StripFacts MergeFacts ExtractFacts FrameFacts
  OverrideFacts DocumentFacts CloneFacts.

(** C1, at the input [JSON.parse] gives for
    [{"mcp":{"__proto__":{"headers":{"X-Api-Key":"sk-live-1"}}}}].  The
    document is JSON-compatible and holds a secret at
    [mcp.__proto__.headers.X-Api-Key].  [extractMcpSecrets] puts the
    placeholder in [sanitizedConfig], but [setNestedValue] reads and
    assigns [current["__proto__"]], which is the prototype accessor of
    %Object.prototype%: the secret lands in the prototype of
    [secretOverrides.mcp], and no own path of [secretOverrides] holds
    it.  Nothing recorded can be substituted back. *)
Theorem proto_server_override_lost :
  is_document proto_server_config = true
  /\ secret_at proto_server_config (header_path "__proto__" "X-Api-Key")
  /\ exists r,
       extractMcpSecrets proto_server_config = Ok r
       /\ get_path (sanitizedConfig r) (header_path "__proto__" "X-Api-Key")
          = Some (VString "{env:OPENCODE_MCP_PROTO_X_API_KEY}")
       /\ secretOverrides r
          = obj [("mcp",
                  VObject
                    (obj [("headers", obj [("X-Api-Key", VString "sk-live-1")])])
                    [])]
       /\ (forall path, get_path (secretOverrides r) path
                        <> Some (VString "sk-live-1")).
Proof.
  split; [reflexivity|]. split.
  - split; [left; now exists "__proto__", "X-Api-Key"|].
    exists (VString "sk-live-1"). split; reflexivity.
  - eexists. split; [reflexivity|]. split; [reflexivity|]. split; [reflexivity|].
    intros [|k [|k2 p]]; cbn; try discriminate;
      destruct (String.eqb k "mcp"); discriminate.
Qed.

(** C2: for every JSON-compatible document the extraction succeeds; at
    every path with no secret at or below it (so at every field outside
    the header and client-secret paths, and at those paths when the value
    is a placeholder, an empty string or not a string) [sanitizedConfig]
    holds what the input holds; and every value of [secretOverrides] that
    is not a mapping is a secret of the input, at the path it had there. *)
Theorem extract_non_interference config :
  is_document config = true ->
  exists r,
    extractMcpSecrets config = Ok r
    /\ (forall p, (forall q, secret_at config q -> ~ is_prefix p q) ->
                  get_path (sanitizedConfig r) p = get_path config p)
    /\ (forall p v, get_path (secretOverrides r) p = Some v ->
                    is_mapping v = false ->
                    secret_at config p /\ get_path config p = Some v).
Proof.
  intros Hd. destruct (is_document_inv _ Hd) as [Hp Hc].
  eexists. split; [apply extract_document, Hd|]. cbn [sanitizedConfig secretOverrides].
  split.
  - intros p Hclean. now apply frame_doc.
  - intros p v Hg Hleaf.
    assert (p <> []) as Hne.
    { intros ->. cbn [get_path] in Hg. injection Hg as <-.
      rewrite apply_writes_is_mapping in Hleaf by reflexivity. discriminate. }
    destruct (overrides_sound _ _ _ Hc Hne Hg) as (q & x & Hin & [[_ Hm]|[-> ->]]).
    + congruence.
    + now apply doc_writes_sound.
Qed.

Lemma extract_non_interference_witness :
  is_document github_config = true
  /\ exists r,
       extractMcpSecrets github_config = Ok r
       /\ (forall p, (forall q, secret_at github_config q -> ~ is_prefix p q) ->
                     get_path (sanitizedConfig r) p = get_path github_config p)
       /\ (forall p v, get_path (secretOverrides r) p = Some v ->
                       is_mapping v = false ->
                       secret_at github_config p
                       /\ get_path github_config p = Some v).
Proof.
  split; [reflexivity | exact (extract_non_interference github_config eq_refl)].
Defined.

(** C3: for every secret header of a document, the value written to
    [sanitizedConfig] ends with [{env:NAME}], where NAME is the header name
    itself when it matches [^[A-Z0-9_]+$] and otherwise
    [OPENCODE_MCP_<SERVER_TOKEN>_<HEADER_TOKEN>], each token being
    [env_token]: the input uppercased, runs of non-alphanumeric characters
    collapsed to one underscore, leading and trailing underscores trimmed,
    with the fallbacks SERVER and VALUE for an empty token. *)
Theorem header_env_var_name config serverName headerName value :
  is_document config = true ->
  get_path config (header_path serverName headerName) = Some (VString value) ->
  isSecretString (VString value) = true ->
  let name :=
    if test_env_name headerName then headerName
    else ("OPENCODE_MCP_" ++ env_token serverName "SERVER" ++ "_"
          ++ env_token headerName "VALUE")%string in
  buildHeaderEnvVar serverName headerName = name
  /\ exists r prefix,
       extractMcpSecrets config = Ok r
       /\ get_path (sanitizedConfig r) (header_path serverName headerName)
          = Some (VString (prefix ++ "{env:" ++ name ++ "}")).
Proof.
  intros Hd Hg Hs name. destruct (is_document_inv _ Hd) as [_ Hc].
  split; [apply buildHeaderEnvVar_env_token|].
  destruct (buildHeaderPlaceholder_prefix value
              (buildHeaderEnvVar serverName headerName) (Some headerName))
    as [prefix Hpre].
  eexists. exists prefix. split; [apply extract_document, Hd|].
  cbn [sanitizedConfig]. rewrite (san_doc_header _ _ _ _ Hc Hg Hs).
  unfold header_replacement. cbn [String_]. rewrite Hpre.
  rewrite buildHeaderEnvVar_env_token. reflexivity.
Qed.

Lemma header_env_var_name_witness :
  is_document github_config = true
  /\ buildHeaderEnvVar "github" "Authorization"
     = "OPENCODE_MCP_GITHUB_AUTHORIZATION"
  /\ exists r prefix,
       extractMcpSecrets github_config = Ok r
       /\ get_path (sanitizedConfig r) (header_path "github" "Authorization")
          = Some (VString (prefix ++ "{env:OPENCODE_MCP_GITHUB_AUTHORIZATION}")).
Proof.
  split; [reflexivity|].
  exact (header_env_var_name github_config "github" "Authorization"
           "Bearer ghp_example" eq_refl eq_refl eq_refl).
Defined.

(** C4, at the input [JSON.parse] gives for
    [{"mcp":{"__proto__":{"headers":{"Authorization":"Bearer abc123"}}}}].
    The replacement keeps the scheme, [Bearer {env:...}], as the claim
    says; but the override does not record the original value: for the
    reason given at C1, [secretOverrides] is [{ mcp: {} }] as far as own
    properties go. *)
Theorem proto_bearer_override_lost :
  is_document proto_bearer_config = true
  /\ exists r,
       extractMcpSecrets proto_bearer_config = Ok r
       /\ get_path (sanitizedConfig r) (header_path "__proto__" "Authorization")
          = Some (VString "Bearer {env:OPENCODE_MCP_PROTO_AUTHORIZATION}")
       /\ get_path (secretOverrides r) (header_path "__proto__" "Authorization")
          = None
       /\ Object_keys (secretOverrides r) = ["mcp"]
       /\ (forall k, get_path (secretOverrides r) ["mcp"; k] = None).
Proof.
  split; [reflexivity|]. eexists. split; [reflexivity|]. repeat split.
Qed.

(** C5: a document whose header values and client secrets all are strings
    matching the placeholder pattern comes back unchanged, with empty
    overrides. *)
Theorem extract_already_sanitized config :
  is_document config = true ->
  (forall s h v, get_path config (header_path s h) = Some v ->
                 exists str, v = VString str /\ test_placeholder str = true) ->
  (forall s v, get_path config (oauth_path s) = Some v ->
               exists str, v = VString str /\ test_placeholder str = true) ->
  extractMcpSecrets config
  = Ok {| sanitizedConfig := config; secretOverrides := empty_object |}.
Proof.
  intros Hd Hh Ho. apply extract_nothing; [exact Hd|].
  intros q [[(s & h & ->)|(s & ->)] (v & Hg & Hs)].
  - destruct (Hh _ _ _ Hg) as (str & -> & Ht). cbn [isSecretString] in Hs.
    rewrite Ht, andb_false_r in Hs. discriminate.
  - destruct (Ho _ _ Hg) as (str & -> & Ht). cbn [isSecretString] in Hs.
    rewrite Ht, andb_false_r in Hs. discriminate.
Qed.

Lemma extract_already_sanitized_witness :
  is_document sanitized_config = true
  /\ extractMcpSecrets sanitized_config
     = Ok {| sanitizedConfig := sanitized_config;
             secretOverrides := empty_object |}.
Proof.
  split; [reflexivity|].
  apply (extract_already_sanitized sanitized_config eq_refl).
  - intros s h v H. cbn in H.
    destruct (String.eqb s "context7"); cbn in H; [|discriminate H].
    destruct (String.eqb h "CONTEXT7_API_KEY"); cbn in H; [|discriminate H].
    injection H as <-. eexists. split; reflexivity.
  - intros s v H. cbn in H.
    destruct (String.eqb s "context7"); cbn in H; discriminate H.
Defined.

(** C6: when either argument is not a plain mapping [stripOverrideKeys]
    returns [base].  For plain mappings the result is a plain mapping
    that holds, key by key, what [stripped_entry] says: keys absent from
    [toRemove] keep their value, keys of [toRemove] absent from [base]
    play no part, a key whose two values are plain mappings holds the
    recursively stripped mapping and is dropped when that mapping is
    empty, and any other key of both is deleted.  Hence every key path of
    [toRemove] that ends in a value other than a plain mapping is absent
    from the result. *)
Theorem stripOverrideKeys_contract base toRemove :
  unique_keys toRemove = true ->
  (isPlainObject base && isPlainObject toRemove = false ->
   stripOverrideKeys base toRemove = base)
  /\ (isPlainObject base && isPlainObject toRemove = true ->
      isPlainObject (stripOverrideKeys base toRemove) = true
      /\ (forall key,
            own key (entries (stripOverrideKeys base toRemove))
            = stripped_entry (entries base) (entries toRemove) key)
      /\ (forall path v,
            path <> [] ->
            get_path toRemove path = Some v -> isPlainObject v = false ->
            get_path (stripOverrideKeys base toRemove) path = None)).
Proof.
  intros Hu. split; [apply stripOverrideKeys_not_plain|].
  intros Hboth. pose proof Hboth as Hboth'.
  apply andb_true_iff in Hboth'. destruct Hboth' as [Hb Hr].
  destruct (isPlainObject_inv _ Hr) as [rprops ->].
  destruct (unique_keys_object _ _ Hu) as [Hnd _].
  destruct (stripOverrideKeys_entries base (VObject VObjectPrototype rprops) Hnd)
    as [_ H].
  destruct (H Hboth) as [Hplain Hkeys].
  split; [exact Hplain|]. split; [exact Hkeys|].
  intros path v Hne Hg Hv.
  now apply (stripOverrideKeys_deletes_paths _ base path v).
Qed.

Lemma stripOverrideKeys_contract_witness :
  unique_keys strip_example = true
  /\ stripOverrideKeys strip_example strip_example = empty_object
  /\ (isPlainObject strip_example && isPlainObject strip_example = true ->
      isPlainObject (stripOverrideKeys strip_example strip_example) = true
      /\ (forall key,
            own key (entries (stripOverrideKeys strip_example strip_example))
            = stripped_entry (entries strip_example) (entries strip_example) key)
      /\ (forall path v,
            path <> [] ->
            get_path strip_example path = Some v -> isPlainObject v = false ->
            get_path (stripOverrideKeys strip_example strip_example) path
            = None)).
Proof.
  split; [reflexivity|]. split; [reflexivity|].
  exact (proj2 (stripOverrideKeys_contract strip_example strip_example eq_refl)).
Defined.

(** C7, the claim at [{ retries: NaN, onError: function () {} }]: the
    input cannot be deep-cloned through JSON (the clone differs from it),
    yet [extractMcpSecrets] raises nothing and returns a config in which
    the number has become [null] and the function is gone. *)
Theorem not_json_config_silently_altered :
  is_mapping not_json_config = true
  /\ cloneConfig not_json_config <> Ok not_json_config
  /\ extractMcpSecrets not_json_config
     = Ok {| sanitizedConfig := obj [("retries", VNull)];
             secretOverrides := empty_object |}.
Proof.
  split; [reflexivity|]. split; [discriminate | reflexivity].
Qed.

(** C8: for plain mappings the merge is a plain mapping that holds at
    each key what [merged_entry] says: the recursive merge when both
    values are plain mappings, the value of [extra] when both have the
    key otherwise, and the value of the only side that has it; so every
    key of [base] is a key of the result. *)
Theorem mergeOverrides_contract base extra :
  isPlainObject base = true -> isPlainObject extra = true ->
  isPlainObject (mergeOverrides base extra) = true
  /\ (forall key, own key (entries (mergeOverrides base extra))
                  = merged_entry (entries base) (entries extra) key)
  /\ (forall key, has_own key (entries base) = true ->
                  has_own key (entries (mergeOverrides base extra)) = true).
Proof.
  intros Hb He.
  destruct (isPlainObject_inv _ Hb) as [bprops ->].
  destruct (isPlainObject_inv _ He) as [eprops ->].
  unfold mergeOverrides. split; [reflexivity|].
  split; [apply own_deepMerge|].
  intros key. unfold has_own. rewrite own_deepMerge. unfold merged_entry.
  cbn [entries]. destruct (own key bprops); [|discriminate].
  now destruct (own key eprops).
Qed.

Lemma mergeOverrides_contract_witness :
  isPlainObject github_config = true
  /\ isPlainObject strip_example = true
  /\ isPlainObject (mergeOverrides github_config strip_example) = true
  /\ (forall key, own key (entries (mergeOverrides github_config strip_example))
                  = merged_entry (entries github_config) (entries strip_example)
                      key)
  /\ (forall key, has_own key (entries github_config) = true ->
                  has_own key
                    (entries (mergeOverrides github_config strip_example))
                  = true).
Proof.
  split; [reflexivity|]. split; [reflexivity|].
  exact (mergeOverrides_contract github_config strip_example eq_refl eq_refl).
Defined.

(** C9: a header value or client secret that contains, anywhere, an
    opening brace, [env] in any case, a colon, a non-empty name without
    closing brace and a closing brace is left as it is in
    [sanitizedConfig], and [secretOverrides] has nothing at its path. *)
Theorem placeholder_containment config p pre tag name post :
  is_document config = true ->
  secret_path p ->
  toLowerCase tag = "env" ->
  name <> EmptyString ->
  Str.existsb (is_char "}") name = false ->
  get_path config p
    = Some (VString (pre ++ "{" ++ tag ++ ":" ++ name ++ "}" ++ post)) ->
  exists r,
    extractMcpSecrets config = Ok r
    /\ get_path (sanitizedConfig r) p
       = Some (VString (pre ++ "{" ++ tag ++ ":" ++ name ++ "}" ++ post))
    /\ get_path (secretOverrides r) p = None.
Proof.
  intros Hd Hp Htag Hname Hbrace Hg.
  destruct (is_document_inv _ Hd) as [_ Hc].
  pose proof (test_placeholder_contains pre tag name post Htag Hname Hbrace) as Ht.
  assert (Hns : ~ secret_at config p).
  { intros [_ (v & Hv & Hs)].
    assert (v = VString (pre ++ "{" ++ tag ++ ":" ++ name ++ "}" ++ post)) as ->
      by congruence.
    unfold isSecretString in Hs. rewrite Ht, andb_false_r in Hs. discriminate. }
  eexists. split; [apply extract_document, Hd|]. cbn [sanitizedConfig secretOverrides].
  split.
  - rewrite <- Hg. apply frame_doc; [exact Hc|].
    intros q Hq [r Hr]. subst q.
    destruct Hq as [Hsp Hq]. pose proof (secret_path_length _ Hsp) as Hl.
    rewrite length_app, (secret_path_length _ Hp) in Hl.
    destruct r; [|cbn [List.length] in Hl; lia].
    rewrite app_nil_r in *. now apply Hns.
  - destruct (get_path (apply_writes (doc_writes config) empty_object) p) as [w|] eqn:Hw;
      [|reflexivity].
    exfalso.
    destruct (overrides_sound _ _ _ Hc (secret_path_nonempty _ Hp) Hw)
      as (q & v & Hin & [[Hsp _]|[-> ->]]).
    + apply strict_prefix_length in Hsp.
      destruct (doc_writes_sound _ _ _ Hc Hin) as [[Hq _] _].
      rewrite (secret_path_length _ Hp), (secret_path_length _ Hq) in Hsp. lia.
    + apply Hns. now apply (doc_writes_sound _ _ _ Hc Hin).
Qed.

Lemma placeholder_containment_witness :
  is_document embedded_config = true
  /\ exists r,
       extractMcpSecrets embedded_config = Ok r
       /\ get_path (sanitizedConfig r) (header_path "api" "X-Token")
          = Some (VString "secret-{env:X}-more")
       /\ get_path (secretOverrides r) (header_path "api" "X-Token") = None.
Proof.
  split; [reflexivity|].
  refine (placeholder_containment embedded_config (header_path "api" "X-Token")
            "secret-" "env" "X" "-more" eq_refl _ eq_refl _ eq_refl eq_refl).
  - left. exists "api", "X-Token". reflexivity.
  - discriminate.
Defined.

(** C10: for a key of both plain mappings whose two values are not both
    plain mappings, the key is absent from the result, whatever the
    values; and a key whose value in [base] is the empty mapping is
    absent from the result whatever [toRemove] holds at that key. *)
Theorem stripOverrideKeys_deletes_mismatch base toRemove key bv rv :
  isPlainObject base = true -> isPlainObject toRemove = true ->
  NoDup (Object_keys toRemove) ->
  own key (entries base) = Some bv ->
  own key (entries toRemove) = Some rv ->
  (isPlainObject bv && isPlainObject rv = false ->
   own key (entries (stripOverrideKeys base toRemove)) = None)
  /\ (bv = empty_object ->
      own key (entries (stripOverrideKeys base toRemove)) = None).
Proof.
  intros Hb Hr Hnd Hbv Hrv.
  destruct (stripOverrideKeys_entries base toRemove Hnd) as [_ H].
  destruct (H ltac:(now rewrite Hb, Hr)) as [_ Hkey].
  rewrite Hkey. unfold stripped_entry. rewrite Hbv, Hrv. split.
  - now intros ->.
  - intros ->. destruct (isPlainObject empty_object && isPlainObject rv); [|reflexivity].
    cbv zeta. now rewrite stripOverrideKeys_empty_base.
Qed.

Lemma stripOverrideKeys_deletes_mismatch_witness :
  let base := obj [("a", obj [("x", VString "1")]); ("b", VString "kept")] in
  let toRemove := obj [("a", VNumber (NFinite 5 0))] in
  (isPlainObject (obj [("x", VString "1")])
   && isPlainObject (VNumber (NFinite 5 0)) = false ->
   own "a" (entries (stripOverrideKeys base toRemove)) = None)
  /\ (obj [("x", VString "1")] = empty_object ->
      own "a" (entries (stripOverrideKeys base toRemove)) = None).
Proof.
  refine (stripOverrideKeys_deletes_mismatch
            (obj [("a", obj [("x", VString "1")]); ("b", VString "kept")])
            (obj [("a", VNumber (NFinite 5 0))]) "a"
            (obj [("x", VString "1")]) (VNumber (NFinite 5 0))
            eq_refl eq_refl _ eq_refl eq_refl).
  repeat constructor. intros [].
Defined.

End Claims.

(** * Supporting facts for the further properties *)

(** ** [stripOverrideKeys] rebuilds [base] *)

Module StripLaws.
Import Chars Str JS McpSecrets Spec Notions.
Import StrFacts PropsFacts StripFacts MergeFacts ExtractFacts FrameFacts
  OverrideFacts DocumentFacts TokenFacts CompleteFacts SchemeFacts CloneFacts.

Lemma strip_entry_absent rprops k v :
  own k rprops = None -> strip_entry rprops (k, v) = [(k, v)].
Proof. intros H. unfold strip_entry. cbn [fst]. now rewrite H. Qed.

Lemma strip_props_nil bprops : strip_props bprops [] = bprops.
Proof.
  induction bprops as [|[k v] r IH]; [reflexivity|].
  unfold strip_props in *. cbn [flat_map]. rewrite IH. reflexivity.
Qed.

Lemma strip_props_single_absent key rv bprops :
  ~ In key (keys bprops) -> strip_props bprops [(key, rv)] = bprops.
Proof.
  induction bprops as [|[k v] r IH]; [reflexivity|]. intros Hn.
  unfold strip_props in *. cbn [flat_map].
  rewrite strip_entry_absent.
  - cbn [app]. rewrite IH; [reflexivity|]. intros H. apply Hn. now right.
  - cbn [own]. destruct (String.eqb k key) eqn:E; [|reflexivity].
    apply String.eqb_eq in E. subst. exfalso. apply Hn. now left.
Qed.

Lemma delete_own_absent key ps : ~ In key (keys ps) -> delete_own key ps = ps.
Proof.
  induction ps as [|[k v] r IH]; [reflexivity|]. intros Hn.
  unfold delete_own in *. cbn [filter fst].
  destruct (String.eqb key k) eqn:E.
  - apply String.eqb_eq in E. subst. exfalso. apply Hn. now left.
  - cbn [negb]. rewrite IH; [reflexivity|]. intros H. apply Hn. now right.
Qed.

Lemma strip_step_rebuild bprops key rv :
  NoDup (keys bprops) ->
  strip_step (obj bprops) (key, rv) = obj (strip_props bprops [(key, rv)]).
Proof.
  intros Hnd. unfold strip_step, hasOwn, has_own, obj. cbn [entries].
  destruct (own key bprops) as [bv|] eqn:Hown; cbn [negb].
  2:{ rewrite strip_props_single_absent; [reflexivity|]. now apply own_None_keys. }
  rewrite (get_own _ _ _ _ Hown), length_keys_zero.
  assert (E : strip_props bprops [(key, rv)]
              = if isPlainObject rv && isPlainObject bv then
                  if is_empty_object (stripOverrideKeys bv rv)
                  then delete_own key bprops
                  else replace_own key (stripOverrideKeys bv rv) bprops
                else delete_own key bprops).
  { clear - Hnd Hown. induction bprops as [|[k v] r IH]; [discriminate|].
    inversion Hnd as [|? ? Hnot Hnd']; subst.
    unfold strip_props in *. cbn [flat_map]. cbn [own] in Hown.
    destruct (String.eqb key k) eqn:E.
    - apply String.eqb_eq in E. subst k. injection Hown as ->.
      fold (strip_props r [(key, rv)]).
      rewrite (strip_props_single_absent key rv r Hnot).
      unfold strip_entry. cbn [fst snd own]. rewrite String.eqb_refl.
      unfold delete_own. cbn [filter fst replace_own]. rewrite String.eqb_refl.
      cbn [negb]. fold (delete_own key r). rewrite (delete_own_absent _ _ Hnot).
      destruct (isPlainObject rv && isPlainObject bv); [|reflexivity].
      cbv zeta. destruct (is_empty_object (stripOverrideKeys bv rv)); reflexivity.
    - rewrite strip_entry_absent.
      2:{ cbn [own]. rewrite String.eqb_sym. now rewrite E. }
      cbn [app]. rewrite (IH Hnd' Hown).
      unfold delete_own. cbn [filter fst replace_own]. rewrite E. cbn [negb].
      destruct (isPlainObject rv && isPlainObject bv); [|reflexivity].
      destruct (is_empty_object (stripOverrideKeys bv rv)); reflexivity. }
  rewrite E.
  destruct (isPlainObject rv && isPlainObject bv); [|reflexivity].
  destruct (is_empty_object (stripOverrideKeys bv rv)); [reflexivity|].
  unfold set. now rewrite Hown.
Qed.

Lemma keys_strip_entry rprops kv k :
  In k (keys (strip_entry rprops kv)) -> k = fst kv.
Proof.
  unfold strip_entry. destruct (own (fst kv) rprops) as [rv|].
  - destruct (isPlainObject rv && isPlainObject (snd kv)); [|intros []].
    cbv zeta. destruct (is_empty_object _); [intros []|].
    intros [H|[]]. now symmetry.
  - destruct kv. intros [H|[]]. now symmetry.
Qed.

Lemma keys_strip_props bprops rprops k :
  In k (keys (strip_props bprops rprops)) -> In k (keys bprops).
Proof.
  induction bprops as [|kv r IH]; [intros []|].
  unfold strip_props in *. cbn [flat_map]. rewrite keys_app. intros H.
  apply in_app_or in H. destruct H as [H|H].
  - left. symmetry. eapply keys_strip_entry, H.
  - right. now apply IH.
Qed.

Lemma NoDup_strip_props bprops rprops :
  NoDup (keys bprops) -> NoDup (keys (strip_props bprops rprops)).
Proof.
  induction bprops as [|[k v] r IH]; intros Hnd; [constructor|].
  inversion Hnd as [|? ? Hnot Hnd']; subst.
  unfold strip_props in *. cbn [flat_map]. rewrite keys_app.
  assert (Hrest : ~ In k (keys (flat_map (strip_entry rprops) r))).
  { intros H. apply Hnot. eapply keys_strip_props, H. }
  unfold strip_entry. cbn [fst snd].
  destruct (own k rprops) as [rv|].
  - destruct (isPlainObject rv && isPlainObject v); [|now apply IH].
    cbv zeta. destruct (is_empty_object _); [now apply IH|].
    cbn [keys List.map fst app]. constructor; [exact Hrest | now apply IH].
  - cbn [keys List.map fst app]. constructor; [exact Hrest | now apply IH].
Qed.

Lemma strip_props_cons bprops key rv r :
  ~ In key (keys r) ->
  strip_props (strip_props bprops [(key, rv)]) r = strip_props bprops ((key, rv) :: r).
Proof.
  intros Hnot. apply own_None_keys in Hnot.
  induction bprops as [|[k v] b IH]; [reflexivity|].
  unfold strip_props in *. cbn [flat_map]. rewrite flat_map_app, IH. f_equal.
  unfold strip_entry at 2 3. cbn [fst snd own].
  destruct (String.eqb k key) eqn:E.
  - apply String.eqb_eq in E. subst k.
    destruct (isPlainObject rv && isPlainObject v); [|reflexivity].
    cbv zeta. destruct (is_empty_object _); [reflexivity|].
    cbn [flat_map app]. rewrite strip_entry_absent by exact Hnot. reflexivity.
  - cbn [flat_map]. rewrite app_nil_r. unfold strip_entry. cbn [fst snd]. reflexivity.
Qed.

Lemma fold_strip_rebuild rprops :
  NoDup (keys rprops) ->
  forall bprops, NoDup (keys bprops) ->
    fold_left strip_step rprops (obj bprops) = obj (strip_props bprops rprops).
Proof.
  induction rprops as [|[key rv] r IH]; intros Hnd bprops Hb.
  - now rewrite strip_props_nil.
  - inversion Hnd as [|? ? Hnot Hnd']; subst. cbn [fold_left].
    rewrite strip_step_rebuild by exact Hb.
    rewrite IH by (auto using NoDup_strip_props).
    now rewrite strip_props_cons.
Qed.

Lemma keys_strip_props_filter bprops rprops :
  NoDup (keys bprops) ->
  keys (strip_props bprops rprops)
  = filter (fun k => has_own k (strip_props bprops rprops)) (keys bprops).
Proof.
  intros Hnd. induction bprops as [|[k v] b IH]; [reflexivity|].
  inversion Hnd as [|? ? Hnot Hnd']; subst.
  unfold strip_props in *. cbn [flat_map keys List.map fst filter].
  rewrite keys_app. fold (keys b).
  assert (Hrest : own k (flat_map (strip_entry rprops) b) = None).
  { apply own_None_keys. intros H. apply Hnot. eapply keys_strip_props, H. }
  assert (Hfilter : forall front,
             (forall k', In k' (keys front) -> k' = k) ->
             filter (fun k0 => has_own k0 (front ++ flat_map (strip_entry rprops) b)) (keys b)
             = filter (fun k0 => has_own k0 (flat_map (strip_entry rprops) b)) (keys b)).
  { intros front Hfront. apply filter_ext_in. intros k' Hin. unfold has_own.
    rewrite own_app. destruct (own k' front) eqn:Hf; [|reflexivity].
    exfalso. apply Hnot. 
    assert (k' = k); [|congruence].
    apply Hfront. destruct (in_dec string_dec k' (keys front)) as [H|H]; [exact H|].
    apply own_None_keys in H. congruence. }
  rewrite Hfilter by (intros k' H; eapply keys_strip_entry in H; exact H).
  rewrite <- (IH Hnd').
  unfold has_own. rewrite own_app, Hrest.
  unfold strip_entry. cbn [fst snd].
  destruct (own k rprops) as [rv|].
  - destruct (isPlainObject rv && isPlainObject v); [|reflexivity].
    cbv zeta. destruct (is_empty_object _); [reflexivity|].
    cbn [own]. now rewrite String.eqb_refl.
  - cbn [own]. now rewrite String.eqb_refl.
Qed.

Lemma strip_props_all_removed bprops rprops :
  (forall kv, In kv bprops -> strip_entry rprops kv = []) ->
  strip_props bprops rprops = [].
Proof.
  induction bprops as [|kv r IH]; intros H; [reflexivity|].
  unfold strip_props in *. cbn [flat_map]. rewrite H by now left.
  apply IH. intros kv' Hin. apply H. now right.
Qed.

Lemma stripOverrideKeys_is_plain base toRemove :
  isPlainObject base = true -> isPlainObject (stripOverrideKeys base toRemove) = true.
Proof.
  intros Hb.
  destruct (isPlainObject toRemove) eqn:Hr.
  - destruct (isPlainObject_inv _ Hb) as [bprops ->].
    destruct (isPlainObject_inv _ Hr) as [rprops ->].
    rewrite stripOverrideKeys_plain. clear Hr Hb.
    generalize bprops. induction rprops as [|[k rv] r IH]; intros ps; [reflexivity|].
    cbn [fold_left]. destruct (strip_step_plain ps k rv) as (ps' & -> & _). apply IH.
  - rewrite stripOverrideKeys_not_plain; [exact Hb|]. now rewrite Hr, andb_false_r.
Qed.

Lemma unique_keys_child proto props k v :
  unique_keys (VObject proto props) = true -> In (k, v) props -> unique_keys v = true.
Proof.
  cbn [unique_keys]. rewrite !andb_true_iff, forallb_forall.
  intros [_ Hall] Hin. exact (Hall _ Hin).
Qed.

Lemma strip_props_app a b rprops :
  strip_props (a ++ b) rprops = strip_props a rprops ++ strip_props b rprops.
Proof. apply flat_map_app. Qed.

Lemma all_plain_child props k v :
  all_plain (VObject VObjectPrototype props) = true -> own k props = Some v ->
  all_plain v = true.
Proof.
  intros H Ho. apply (proj1 (all_plain_obj props) H k). now apply own_In.
Qed.

Lemma empty_object_no_leaf s rest v :
  is_mapping s = true -> is_empty_object s = true -> is_mapping v = false ->
  get_path s rest <> Some v.
Proof.
  intros Hs He Hv. destruct rest as [|k r].
  - cbn [get_path]. congruence.
  - cbn [get_path]. unfold is_empty_object, Object_keys in He.
    destruct (entries s); [discriminate | discriminate He].
Qed.

Lemma stripOverrideKeys_leaf path :
  forall base toRemove v,
    isPlainObject base = true -> isPlainObject toRemove = true ->
    all_plain base = true -> unique_keys toRemove = true ->
    is_mapping v = false ->
    get_path (stripOverrideKeys base toRemove) path = Some v
    <-> get_path base path = Some v /\ spares toRemove path = true.
Proof.
  induction path as [|k rest IH]; intros base toRemove v Hb Hr Hap Hu Hv.
  - cbn [get_path spares]. split; [|intros [_ H]; discriminate].
    intros [= <-]. rewrite (isPlainObject_mapping _ (stripOverrideKeys_is_plain _ _ Hb)) in Hv.
    discriminate.
  - destruct (isPlainObject_inv _ Hr) as [rprops ->].
    destruct (isPlainObject_inv _ Hb) as [bprops ->].
    destruct (unique_keys_object _ _ Hu) as [Hnd Hall].
    destruct (stripOverrideKeys_entries (VObject VObjectPrototype bprops)
                (VObject VObjectPrototype rprops) Hnd) as [_ H].
    destruct (H eq_refl) as [_ Hkey]. clear H.
    cbn [get_path spares]. rewrite Hkey. unfold stripped_entry. cbn [entries].
    destruct (own k bprops) as [bv|] eqn:Hbv.
    2:{ split; [discriminate | intros [H _]; discriminate]. }
    destruct (own k rprops) as [rv|] eqn:Hrv.
    2:{ split; [auto | now intros [H _]]. }
    pose proof (all_plain_child _ _ _ Hap Hbv) as Hbap.
    destruct (isPlainObject bv) eqn:Hpb; destruct (isPlainObject rv) eqn:Hpr; cbn [andb].
    + cbv zeta.
      specialize (IH bv rv v Hpb Hpr Hbap (Hall _ _ Hrv) Hv).
      destruct (is_empty_object (stripOverrideKeys bv rv)) eqn:He.
      * split; [discriminate|]. intros [Hg Hs]. exfalso.
        apply (empty_object_no_leaf (stripOverrideKeys bv rv) rest v); auto.
        -- apply isPlainObject_mapping. now apply stripOverrideKeys_is_plain.
        -- apply IH. auto.
      * exact IH.
    + split; [discriminate | intros [_ H]; discriminate].
    + split; [discriminate|]. intros [Hg Hs]. exfalso.
      assert (is_mapping bv = false) as Hleaf.
      { destruct (is_mapping bv) eqn:Hm; [|reflexivity].
        rewrite (all_plain_mapping _ Hbap Hm) in Hpb. discriminate. }
      destruct rest as [|k2 r2]; [discriminate Hs|].
      rewrite get_path_leaf in Hg by (auto; discriminate). discriminate.
    + split; [discriminate | intros [_ H]; discriminate].
Qed.

End StripLaws.

(** ** What the sanitized config is made of *)

Module SanitizeFacts.
Import Chars Str JS McpSecrets Spec Notions.
Import StrFacts PropsFacts StripFacts MergeFacts ExtractFacts FrameFacts
  OverrideFacts DocumentFacts TokenFacts CompleteFacts SchemeFacts CloneFacts.
Import StripLaws.

Lemma keys_replace_own k v ps : keys (replace_own k v ps) = keys ps.
Proof.
  induction ps as [|[k' v'] r IH]; [reflexivity|]. cbn [replace_own].
  destruct (String.eqb k k'); cbn [keys List.map fst]; [reflexivity|].
  f_equal. exact IH.
Qed.

Lemma json_compatible_intro props :
  NoDup (keys props) -> (forall k v, In (k, v) props -> json_compatible v = true) ->
  json_compatible (VObject VObjectPrototype props) = true.
Proof.
  intros Hnd Hall. cbn [json_compatible].
  apply andb_true_iff. split; [now apply nodup_keys_NoDup|].
  apply forallb_forall. intros [k v] Hin. exact (Hall _ _ Hin).
Qed.

Lemma json_compatible_replace k v props :
  json_compatible (VObject VObjectPrototype props) = true ->
  json_compatible v = true ->
  json_compatible (VObject VObjectPrototype (replace_own k v props)) = true.
Proof.
  intros Hc Hv. destruct (json_compatible_object _ Hc) as [Hnd Hall].
  apply json_compatible_intro.
  - now rewrite keys_replace_own.
  - intros k' v' Hin. destruct (In_replace_own _ _ _ _ _ Hin) as [H| ->]; eauto.
Qed.

Lemma json_compatible_map_own k f o :
  json_compatible o = true ->
  (forall v, json_compatible v = true -> json_compatible (f v) = true) ->
  json_compatible (map_own k f o) = true.
Proof.
  intros Hc Hf. unfold map_own.
  destruct o as [| | | | | | | | |proto props]; try exact Hc.
  destruct (own k props) as [v|] eqn:Hv; [|exact Hc].
  destruct proto; try discriminate Hc.
  apply json_compatible_replace; [exact Hc|].
  apply Hf. eapply json_compatible_own; eauto.
Qed.

Lemma keys_map_values (f : string * Value -> string * Value) ps :
  (forall kv, fst (f kv) = fst kv) -> keys (List.map f ps) = keys ps.
Proof.
  intros H. unfold keys. rewrite map_map. apply map_ext. exact H.
Qed.

Lemma json_compatible_san_headers s hv :
  json_compatible hv = true -> json_compatible (san_headers s hv) = true.
Proof.
  intros Hc. destruct (isPlainObject hv) eqn:Hp; [|now rewrite san_headers_not_plain].
  destruct (isPlainObject_inv _ Hp) as [props ->].
  destruct (json_compatible_object _ Hc) as [Hnd Hall].
  cbn [san_headers]. apply json_compatible_intro.
  - now rewrite keys_map_values.
  - intros k v Hin. apply in_map_iff in Hin. destruct Hin as ([k0 v0] & E & Hin).
    unfold san_entry in E. cbn [fst snd] in E. injection E as <- <-.
    destruct (isSecretString v0); [reflexivity | eauto].
Qed.

Lemma json_compatible_san_oauth s ov :
  json_compatible ov = true -> json_compatible (san_oauth s ov) = true.
Proof.
  intros Hc. destruct (isPlainObject ov) eqn:Hp; [|now rewrite san_oauth_not_plain].
  destruct (isPlainObject_inv _ Hp) as [props ->]. cbn [san_oauth].
  destruct (own "clientSecret" props) as [cs|]; [|exact Hc].
  destruct (isSecretString cs); [|exact Hc].
  now apply json_compatible_replace.
Qed.

Lemma json_compatible_san_server s sv :
  json_compatible sv = true -> json_compatible (san_server s sv) = true.
Proof.
  intros Hc. destruct (isPlainObject sv) eqn:Hp; [|now rewrite san_server_not_plain].
  destruct (isPlainObject_inv _ Hp) as [props ->]. rewrite san_server_plain.
  apply json_compatible_map_own; [|apply json_compatible_san_oauth].
  apply json_compatible_map_own; [exact Hc | apply json_compatible_san_headers].
Qed.

Lemma json_compatible_san_mcp mv :
  json_compatible mv = true -> json_compatible (san_mcp mv) = true.
Proof.
  intros Hc. destruct mv as [| | | | | | | | |proto props]; try exact Hc.
  destruct proto; try discriminate Hc.
  destruct (json_compatible_object _ Hc) as [Hnd Hall].
  cbn [san_mcp]. apply json_compatible_intro.
  - now rewrite keys_map_values.
  - intros k v Hin. apply in_map_iff in Hin. destruct Hin as ([k0 v0] & E & Hin).
    cbn [fst snd] in E. injection E as <- <-.
    apply json_compatible_san_server. eauto.
Qed.

Lemma is_document_san_doc config :
  is_document config = true -> is_document (san_doc config) = true.
Proof.
  intros Hd. destruct (is_document_inv _ Hd) as [Hp Hc].
  unfold is_document. apply andb_true_iff. split.
  - destruct (isPlainObject_inv _ Hp) as [props ->]. unfold san_doc, map_own.
    now destruct (own "mcp" props).
  - apply json_compatible_map_own; [exact Hc | apply json_compatible_san_mcp].
Qed.

Lemma secret_path_prefix_eq p q :
  secret_path p -> secret_path q -> is_prefix p q -> q = p.
Proof.
  intros Hp Hq [r ->]. pose proof (secret_path_length _ Hp) as Lp.
  pose proof (secret_path_length _ Hq) as Lq. rewrite length_app in Lq.
  destruct r; [now rewrite app_nil_r | cbn [List.length] in Lq; lia].
Qed.

Lemma san_doc_secret_path config q :
  json_compatible config = true -> secret_path q ->
  (exists v placeholder,
      get_path config q = Some v /\ isSecretString v = true
      /\ get_path (san_doc config) q = Some (VString placeholder)
      /\ test_placeholder placeholder = true)
  \/ (~ secret_at config q /\ get_path (san_doc config) q = get_path config q).
Proof.
  intros Hc Hq.
  destruct (get_path config q) as [v|] eqn:Hg.
  - destruct (isSecretString v) eqn:Hs.
    + left. destruct Hq as [(s & h & ->)|(s & ->)].
      * destruct (header_replacement_placeholder s h v) as (ph & E & Hph).
        exists v, ph. rewrite (san_doc_header _ _ _ _ Hc Hg Hs), E. auto.
      * destruct (oauth_replacement_placeholder s) as (ph & E & Hph).
        exists v, ph. rewrite (san_doc_oauth _ _ _ Hc Hg Hs), E. auto.
    + right. assert (Hno : ~ secret_at config q).
      { intros [_ (x & Hx & Hsx)]. congruence. }
      split; [exact Hno|]. rewrite <- Hg. apply frame_doc; [exact Hc|].
      intros q' Hq' Hpre. apply Hno.
      now rewrite <- (secret_path_prefix_eq q q' Hq (proj1 Hq') Hpre).
  - right. assert (Hno : ~ secret_at config q).
    { intros [_ (x & Hx & Hsx)]. congruence. }
    split; [exact Hno|]. rewrite <- Hg. apply frame_doc; [exact Hc|].
    intros q' Hq' Hpre. apply Hno.
    now rewrite <- (secret_path_prefix_eq q q' Hq (proj1 Hq') Hpre).
Qed.

Lemma san_doc_no_secret config :
  json_compatible config = true -> forall q, ~ secret_at (san_doc config) q.
Proof.
  intros Hc q [Hq (v & Hg & Hs)].
  destruct (san_doc_secret_path config q Hc Hq)
    as [(v0 & ph & _ & _ & Hsan & Hph)|[Hno Hsan]].
  - rewrite Hsan in Hg. injection Hg as <-. cbn [isSecretString] in Hs.
    rewrite Hph, andb_false_r in Hs. discriminate.
  - apply Hno. split; [exact Hq|]. exists v. rewrite <- Hsan. auto.
Qed.

Lemma skeleton_replace_own k v v0 ps :
  own k ps = Some v0 -> skeleton v = skeleton v0 ->
  List.map (fun kv => (fst kv, skeleton (snd kv))) (replace_own k v ps)
  = List.map (fun kv => (fst kv, skeleton (snd kv))) ps.
Proof.
  induction ps as [|[k' v'] r IH]; [reflexivity|]. cbn [own replace_own].
  destruct (String.eqb k k'); cbn [List.map fst snd].
  - intros [= ->] ->. reflexivity.
  - intros Ho Hv. now rewrite IH.
Qed.

Lemma skeleton_map_own k f o :
  (forall v, skeleton (f v) = skeleton v) -> skeleton (map_own k f o) = skeleton o.
Proof.
  intros Hf. unfold map_own. destruct o as [| | | | | | | | |proto props]; try reflexivity.
  destruct (own k props) as [v|] eqn:Hv; [|reflexivity].
  cbn [skeleton]. f_equal. now apply skeleton_replace_own with (v0 := v).
Qed.

Lemma skeleton_secret v s : isSecretString v = true -> skeleton (VString s) = skeleton v.
Proof. destruct v; try discriminate. reflexivity. Qed.

Lemma skeleton_san_headers s hv : skeleton (san_headers s hv) = skeleton hv.
Proof.
  destruct hv as [| | | | | | | | |proto props]; try reflexivity.
  destruct proto; try reflexivity. cbn [san_headers skeleton]. f_equal.
  rewrite map_map. apply map_ext. intros [k v]. unfold san_entry. cbn [fst snd].
  destruct (isSecretString v) eqn:Hs; [|reflexivity].
  unfold header_replacement. now rewrite (skeleton_secret v).
Qed.

Lemma skeleton_san_oauth s ov : skeleton (san_oauth s ov) = skeleton ov.
Proof.
  destruct ov as [| | | | | | | | |proto props]; try reflexivity.
  destruct proto; try reflexivity. cbn [san_oauth].
  destruct (own "clientSecret" props) as [cs|] eqn:Hcs; [|reflexivity].
  destruct (isSecretString cs) eqn:Hs; [|reflexivity].
  cbn [skeleton]. f_equal. apply skeleton_replace_own with (v0 := cs); [exact Hcs|].
  unfold oauth_replacement. now apply skeleton_secret.
Qed.

Lemma skeleton_san_server s sv : skeleton (san_server s sv) = skeleton sv.
Proof.
  destruct sv as [| | | | | | | | |proto props]; try reflexivity.
  destruct proto; try reflexivity. rewrite san_server_plain.
  rewrite skeleton_map_own by apply skeleton_san_oauth.
  apply skeleton_map_own, skeleton_san_headers.
Qed.

Lemma skeleton_san_mcp mv : skeleton (san_mcp mv) = skeleton mv.
Proof.
  destruct mv as [| | | | | | | | |proto props]; try reflexivity.
  destruct proto; try reflexivity. cbn [san_mcp skeleton]. f_equal.
  rewrite map_map. apply map_ext. intros [k v]. cbn [fst snd].
  now rewrite skeleton_san_server.
Qed.

Lemma setNestedValue_top_mcp props s k3 k4 v :
  keys props = [] \/ keys props = ["mcp"] ->
  exists props',
    setNestedValue (obj props) ["mcp"; s; k3; k4] v = obj props'
    /\ keys props' = ["mcp"].
Proof.
  intros Hk. rewrite setNestedValue_cons2.
  assert (Hm : "mcp" <> "__proto__") by discriminate.
  destruct (isPlainObject (get (obj props) "mcp")) eqn:Hplain; cbn [negb].
  - unfold obj in Hplain. rewrite get_plain in Hplain.
    destruct (own "mcp" props) as [c|] eqn:Ho; [|discriminate Hplain].
    unfold obj. rewrite (modify_own _ _ _ _ _ Ho). eexists. split; [reflexivity|].
    rewrite keys_replace_own. destruct Hk as [Hk|Hk]; [|exact Hk].
    destruct props; [discriminate Ho | discriminate Hk].
  - rewrite set_plain by exact Hm.
    destruct (own "mcp" props) as [c|] eqn:Ho.
    + unfold obj. erewrite modify_own by (rewrite own_replace_same, Ho; reflexivity).
      eexists. split; [reflexivity|]. rewrite !keys_replace_own.
      destruct Hk as [Hk|Hk]; [|exact Hk].
      destruct props; [discriminate Ho | discriminate Hk].
    + unfold obj. erewrite modify_own by (now apply own_add_same).
      eexists. split; [reflexivity|]. rewrite keys_replace_own.
      destruct Hk as [Hk|Hk].
      * destruct props; [reflexivity | discriminate Hk].
      * destruct props as [|[k0 v0] [|? ?]]; try discriminate Hk.
        cbn in Hk. injection Hk as ->. cbn [own] in Ho.
        rewrite String.eqb_refl in Ho. discriminate.
Qed.

Lemma apply_writes_top_mcp ws :
  (forall q v, In (q, v) ws -> secret_path q) ->
  forall props,
    keys props = [] \/ keys props = ["mcp"] ->
    exists props',
      apply_writes ws (obj props) = obj props'
      /\ keys props' = match ws with [] => keys props | _ => ["mcp"] end.
Proof.
  induction ws as [|[q v] ws IH]; intros Hws props Hk.
  - exists props. auto.
  - change (apply_writes ((q, v) :: ws) (obj props))
      with (apply_writes ws (setNestedValue (obj props) q v)).
    assert (exists s k3 k4, q = ["mcp"; s; k3; k4]) as (s & k3 & k4 & ->).
    { destruct (Hws q v ltac:(now left)) as [(s & h & ->)|(s & ->)];
        [now exists s, "headers", h | now exists s, "oauth", "clientSecret"]. }
    destruct (setNestedValue_top_mcp props s k3 k4 v Hk) as (props1 & -> & Hk1).
    destruct (IH ltac:(intros q' v' H; eapply Hws; right; exact H) props1 (or_intror Hk1))
      as (props' & -> & Hk').
    exists props'. split; [reflexivity|]. rewrite Hk', Hk1. now destruct ws.
Qed.

End SanitizeFacts.

(** ** The JSON image is JSON-compatible *)

Module JsonFacts.
Import Chars Str JS McpSecrets Spec Notions.
Import StrFacts PropsFacts StripFacts MergeFacts ExtractFacts FrameFacts
  OverrideFacts DocumentFacts TokenFacts CompleteFacts SchemeFacts CloneFacts.
Import StripLaws SanitizeFacts.

Lemma traverse_props_keeps (Q : Value -> Prop) (f : Value -> Result (option Value)) props :
  Forall (fun kv => forall y, f (snd kv) = Ok (Some y) -> Q y) props ->
  forall props',
    traverse_props f props = Ok props' ->
    (forall k v, In (k, v) props' -> Q v)
    /\ (forall k, In k (keys props') -> In k (keys props))
    /\ (NoDup (keys props) -> NoDup (keys props')).
Proof.
  induction 1 as [|[k x] l Hx _ IH]; intros props' Ht.
  - injection Ht as <-. repeat split; auto. intros k v [].
  - cbn [traverse_props snd] in *.
    destruct (f x) as [y|e] eqn:Hfx; [|discriminate]. cbn [bind] in Ht.
    destruct (traverse_props f l) as [ys|e'] eqn:Hl; [|discriminate].
    cbn [bind] in Ht. injection Ht as <-.
    destruct (IH _ eq_refl) as (H1 & H2 & H3).
    destruct y as [y|].
    + repeat split.
      * intros k' v' [E|Hin]; [injection E as <- <-; now apply Hx | eauto].
      * intros k' [E|Hin]; [now left | right; auto].
      * cbn [keys List.map fst]. intros Hnd.
        inversion Hnd as [|? ? Hnot Hnd']; subst.
        constructor; [|auto]. intros Hin. apply Hnot. now apply H2.
    + repeat split.
      * exact H1.
      * intros k' Hin. right. auto.
      * intros Hnd. inversion Hnd; subst. auto.
Qed.

Lemma traverse_keeps (Q : Value -> Prop) (f : Value -> Result (option Value)) items :
  Q VNull ->
  Forall (fun x => forall y, f x = Ok (Some y) -> Q y) items ->
  forall items',
    traverse (fun x => bind (f x) (fun y => Ok (or_null y))) items = Ok items' ->
    Forall Q items'.
Proof.
  intros Hnull. induction 1 as [|x l Hx _ IH]; intros items' Ht.
  - injection Ht as <-. constructor.
  - cbn [traverse] in Ht. destruct (f x) as [y|e] eqn:Hfx; [|discriminate].
    cbn [bind] in Ht.
    destruct (traverse (fun x => bind (f x) (fun y => Ok (or_null y))) l) as [ys|e']
      eqn:Hl; [|discriminate].
    cbn [bind] in Ht. injection Ht as <-.
    constructor; [|now apply IH].
    destruct y as [y|]; [now apply Hx | exact Hnull].
Qed.

Lemma json_roundtrip_document v :
  unique_keys v = true ->
  forall v', json_roundtrip v = Ok (Some v') -> json_compatible v' = true.
Proof.
  induction v as [| | | | | | | |items IH|proto props _ IH] using Value_induction;
    intros Hu v' H; cbn [json_roundtrip] in H; try discriminate;
    try (injection H as <-; reflexivity).
  - injection H as <-. now destruct n.
  - destruct (traverse _ items) as [items'|e] eqn:Ht; [|discriminate].
    cbn [bind] in H. injection H as <-. cbn [json_compatible].
    apply forallb_forall. apply Forall_forall.
    apply (traverse_keeps (fun y => json_compatible y = true) json_roundtrip items eq_refl);
      [|exact Ht].
    cbn [unique_keys] in Hu. rewrite forallb_forall in Hu.
    rewrite Forall_forall in *. intros x Hx. apply IH; auto.
  - destruct (traverse_props _ props) as [props'|e] eqn:Ht; [|discriminate].
    cbn [bind] in H. injection H as <-.
    cbn [unique_keys] in Hu. rewrite !andb_true_iff, forallb_forall in Hu.
    destruct Hu as [[_ Hnd] Hall]. apply nodup_keys_NoDup in Hnd.
    destruct (traverse_props_keeps (fun y => json_compatible y = true)
                json_roundtrip props) with (props' := props') as (H1 & _ & H3).
    + rewrite Forall_forall in *. intros x Hx. apply IH; auto.
    + exact Ht.
    + apply json_compatible_intro; auto.
Qed.

Lemma json_compatible_unique v : json_compatible v = true -> unique_keys v = true.
Proof.
  induction v as [| | | | | | | |items IH|proto props _ IH] using Value_induction;
    try reflexivity; cbn [json_compatible unique_keys]; intros H.
  - rewrite forallb_forall in *. rewrite Forall_forall in IH. auto.
  - destruct proto; try discriminate. cbn [unique_keys andb].
    apply andb_true_iff in H. destruct H as [-> H]. cbn [andb].
    rewrite forallb_forall in *. rewrite Forall_forall in IH. auto.
Qed.

Lemma cloneConfig_json_compatible config clone :
  unique_keys config = true -> cloneConfig config = Ok clone ->
  json_compatible clone = true.
Proof.
  unfold cloneConfig, json_clone. intros Hu Hc.
  destruct (json_roundtrip config) as [[c|]|e] eqn:Hr; try discriminate.
  cbn [bind] in Hc. injection Hc as ->.
  now apply (json_roundtrip_document config).
Qed.

Lemma traverse_length (f : Value -> Result (option Value)) items :
  forall items',
    traverse (fun x => bind (f x) (fun y => Ok (or_null y))) items = Ok items' ->
    List.length items' = List.length items.
Proof.
  induction items as [|x l IH]; intros items' Ht.
  - injection Ht as <-. reflexivity.
  - cbn [traverse] in Ht. destruct (f x) as [y|e]; [|discriminate].
    cbn [bind] in Ht.
    destruct (traverse (fun x => bind (f x) (fun y => Ok (or_null y))) l) as [ys|e'];
      [|discriminate].
    cbn [bind] in Ht. injection Ht as <-. cbn [List.length]. now rewrite (IH ys).
Qed.

End JsonFacts.

(** ** Overrides never own a property [__proto__] *)

Module ProtoFacts.
Import Chars Str JS McpSecrets Spec Notions.
Import StrFacts PropsFacts StripFacts MergeFacts ExtractFacts FrameFacts
  OverrideFacts DocumentFacts TokenFacts CompleteFacts SchemeFacts CloneFacts.
Import StripLaws SanitizeFacts JsonFacts.

Lemma no_own_proto_inv proto props :
  no_own_proto (VObject proto props) = true ->
  chain_ok proto = true /\ no_own_proto proto = true
  /\ own "__proto__" props = None
  /\ forall k v, In (k, v) props -> no_own_proto v = true.
Proof.
  cbn [no_own_proto]. rewrite !andb_true_iff, negb_true_iff, forallb_forall.
  intros [[[H1 H2] H3] H4]. repeat split; auto.
  - unfold has_own in H3. now destruct (own "__proto__" props).
  - intros k v Hin. exact (H4 _ Hin).
Qed.

Lemma no_own_proto_intro proto props :
  chain_ok proto = true -> no_own_proto proto = true ->
  own "__proto__" props = None ->
  (forall k v, In (k, v) props -> no_own_proto v = true) ->
  no_own_proto (VObject proto props) = true.
Proof.
  intros H1 H2 H3 H4. cbn [no_own_proto].
  rewrite H1, H2. unfold has_own. rewrite H3. cbn [negb andb].
  apply forallb_forall. intros [k v] Hin. exact (H4 _ _ Hin).
Qed.

Lemma chain_end_ok o :
  chain_ok o = true -> no_own_proto o = true -> chain_end o = VObjectPrototype.
Proof.
  induction o as [| | | | | | | |items _|proto props IHp _] using Value_induction;
    try discriminate; [reflexivity|].
  intros _ H. destruct (no_own_proto_inv _ _ H) as (H1 & H2 & _).
  cbn [chain_end]. auto.
Qed.

Lemma lookup_chain_proto o :
  no_own_proto o = true -> lookup_chain o "__proto__" = None.
Proof.
  induction o as [| | | | | | | |items _|proto props IHp _] using Value_induction;
    try reflexivity.
  intros H. destruct (no_own_proto_inv _ _ H) as (H1 & H2 & H3 & _).
  cbn [lookup_chain]. rewrite H3. auto.
Qed.

Lemma set_no_own_proto o k v :
  no_own_proto o = true -> no_own_proto v = true ->
  primitive v = true \/ is_mapping v = true ->
  no_own_proto (set o k v) = true.
Proof.
  intros Ho Hv Hkind. destruct o as [| | | | | | | | |proto props]; try exact Ho.
  destruct (no_own_proto_inv _ _ Ho) as (H1 & H2 & H3 & H4).
  unfold set. destruct (own k props) as [c|] eqn:Hk.
  - apply no_own_proto_intro; auto.
    + destruct (string_dec "__proto__" k) as [<-|Hne]; [congruence|].
      rewrite own_replace_other by congruence. exact H3.
    + intros k' v' Hin. destruct (In_replace_own _ _ _ _ _ Hin) as [H| ->]; eauto.
  - assert (Hadd : k <> "__proto__" ->
                   no_own_proto (VObject proto (add_own k v props)) = true).
    { intros Hne. apply no_own_proto_intro; auto.
      - rewrite own_add_other by exact Hne. exact H3.
      - intros k' v' Hin. destruct (In_add_own _ _ _ _ Hin) as [H|E]; [eauto | congruence]. }
    destruct (String.eqb k "__proto__") eqn:E.
    + apply String.eqb_eq in E. subst k.
      rewrite (lookup_chain_proto _ H2), (chain_end_ok _ H1 H2).
      destruct Hkind as [Hprim|Hmap].
      * unfold primitive in Hprim. apply andb_true_iff in Hprim.
        destruct Hprim as [Ha Hb]. apply negb_true_iff in Ha, Hb.
        rewrite Ha, Hb. exact Ho.
      * destruct v; try discriminate Hmap. cbn [is_object orb].
        apply no_own_proto_intro; auto.
    + apply String.eqb_neq in E.
      destruct (lookup_chain proto k), (chain_end proto); auto.
Qed.

Lemma modify_chain_no_own_proto o k f :
  (forall c, no_own_proto c = true -> no_own_proto (f c) = true) ->
  no_own_proto o = true ->
  no_own_proto (modify_chain o k f) = true /\ chain_ok (modify_chain o k f) = chain_ok o.
Proof.
  intros Hf.
  induction o as [| | | | | | | |items _|proto props IHp _] using Value_induction;
    intros Ho; try (split; [exact Ho | reflexivity]).
  destruct (no_own_proto_inv _ _ Ho) as (H1 & H2 & H3 & H4).
  cbn [modify_chain]. destruct (own k props) as [c|] eqn:Hk.
  - split; [|reflexivity]. apply no_own_proto_intro; auto.
    + destruct (string_dec "__proto__" k) as [<-|Hne]; [congruence|].
      rewrite own_replace_other by congruence. exact H3.
    + intros k' v' Hin. destruct (In_replace_own _ _ _ _ _ Hin) as [H| ->]; [eauto|].
      apply Hf. eapply H4, own_In, Hk.
  - split; [|reflexivity]. destruct (IHp H2) as [Hp Hc].
    apply no_own_proto_intro; auto. now rewrite Hc.
Qed.

Lemma modify_no_own_proto o k f :
  (forall c, no_own_proto c = true -> no_own_proto (f c) = true) ->
  (forall c, chain_ok c = true -> chain_ok (f c) = true) ->
  no_own_proto o = true ->
  no_own_proto (modify o k f) = true.
Proof.
  intros Hf Hc Ho. unfold modify.
  destruct (lookup_chain o k); [now apply modify_chain_no_own_proto|].
  destruct (chain_end o); try exact Ho.
  destruct o as [| | | | | | | | |proto props]; try exact Ho.
  destruct (String.eqb k "__proto__"); [|exact Ho].
  destruct (no_own_proto_inv _ _ Ho) as (H1 & H2 & H3 & H4).
  apply no_own_proto_intro; auto.
Qed.

Lemma setNestedValue_chain_ok q o v :
  chain_ok o = true -> chain_ok (setNestedValue o q v) = true.
Proof.
  intros Ho. destruct o; try discriminate.
  - destruct q as [|k [|k2 q]]; try reflexivity.
    rewrite setNestedValue_cons2. cbn [set]. unfold modify. cbn.
    now destruct (negb _).
  - pose proof (setNestedValue_is_mapping q (VObject o props) v eq_refl) as H.
    now destruct (setNestedValue (VObject o props) q v).
Qed.

Lemma setNestedValue_no_own_proto q :
  forall o v,
    no_own_proto o = true -> primitive v = true ->
    no_own_proto (setNestedValue o q v) = true.
Proof.
  induction q as [|k q' IH]; intros o v Ho Hv.
  - apply set_no_own_proto; auto. now destruct v.
  - assert (Hvp : no_own_proto v = true) by now destruct v.
    destruct q' as [|k2 q''].
    + apply set_no_own_proto; auto.
    + rewrite setNestedValue_cons2. apply modify_no_own_proto.
      * intros c Hc. now apply IH.
      * intros c Hc. now apply setNestedValue_chain_ok.
      * destruct (negb (isPlainObject (get o k))); [|exact Ho].
        apply set_no_own_proto; auto.
Qed.

Lemma apply_writes_no_own_proto ws :
  (forall q v, In (q, v) ws -> primitive v = true) ->
  forall o, no_own_proto o = true -> no_own_proto (apply_writes ws o) = true.
Proof.
  induction ws as [|[q v] ws IH]; intros Hws o Ho; [exact Ho|].
  change (apply_writes ((q, v) :: ws) o) with (apply_writes ws (setNestedValue o q v)).
  apply IH; [intros q' v' H; eapply Hws; right; exact H|].
  apply setNestedValue_no_own_proto; [exact Ho|]. eapply Hws. now left.
Qed.

Lemma get_path_no_own_proto p :
  forall o, no_own_proto o = true -> In "__proto__" p -> get_path o p = None.
Proof.
  induction p as [|k r IH]; intros o Ho Hin; [destruct Hin|].
  cbn [get_path]. destruct (own k (entries o)) as [c|] eqn:Hc; [|reflexivity].
  destruct o as [| | | | | | | | |proto props]; try discriminate Hc.
  cbn [entries] in Hc. destruct (no_own_proto_inv _ _ Ho) as (_ & _ & H3 & H4).
  destruct Hin as [->|Hin]; [congruence|].
  apply IH; [|exact Hin]. eapply H4, own_In, Hc.
Qed.

Lemma secret_primitive v : isSecretString v = true -> primitive v = true.
Proof. destruct v; try discriminate. reflexivity. Qed.

End ProtoFacts.

(** ** The placeholder pattern and the canonical tokens *)

Module PatternFacts.
Import Chars Str JS McpSecrets Spec Notions.
Import StrFacts PropsFacts StripFacts MergeFacts ExtractFacts FrameFacts
  OverrideFacts DocumentFacts TokenFacts CompleteFacts SchemeFacts CloneFacts.
Import StripLaws SanitizeFacts JsonFacts ProtoFacts.

Lemma existsb_split p s :
  Str.existsb p s = true ->
  exists a x b, s = (a ++ String x b)%string /\ p x = true /\ Str.existsb p a = false.
Proof.
  induction s as [|c r IH]; [discriminate|]. cbn [Str.existsb].
  destruct (p c) eqn:Hc.
  - intros _. exists EmptyString, c, r. auto.
  - cbn [orb]. intros H. destruct (IH H) as (a & x & b & -> & Hx & Ha).
    exists (String c a), x, b. cbn [String.append Str.existsb]. rewrite Hc. auto.
Qed.

Lemma is_char_eq x c : is_char x c = true -> c = x.
Proof. unfold is_char. now intros H%Ascii.eqb_eq. Qed.

Lemma is_char_ci_lower x c :
  is_lower x = true -> is_char_ci x c = true -> lower c = x.
Proof.
  unfold is_char_ci. intros Hx H. apply orb_true_iff in H.
  destruct H as [H|H]; apply is_char_eq in H; subst c.
  - destruct x as [[] [] [] [] [] [] [] []]; try discriminate Hx; reflexivity.
  - destruct x as [[] [] [] [] [] [] [] []]; try discriminate Hx; reflexivity.
Qed.

Lemma match_placeholder_here_inv s :
  match_placeholder_here s = true ->
  exists tag name post,
    s = ("{" ++ tag ++ ":" ++ name ++ "}" ++ post)%string
    /\ toLowerCase tag = "env"
    /\ name <> EmptyString
    /\ Str.existsb (is_char "}") name = false.
Proof.
  destruct s as [|c0 [|c1 [|c2 [|c3 [|c4 r]]]]]; try discriminate.
  cbn [match_placeholder_here]. rewrite !andb_true_iff.
  intros [[[[[H0 H1] H2] H3] H4] Hbody].
  apply is_char_eq in H0, H4. subst c0 c4.
  destruct r as [|c r']; [discriminate|]. cbn [match_env_body] in Hbody.
  apply andb_true_iff in Hbody. destruct Hbody as [Hc Hr].
  apply negb_true_iff in Hc.
  destruct (existsb_split _ _ Hr) as (a & x & b & -> & Hx & Ha).
  apply is_char_eq in Hx. subst x.
  exists (String c1 (String c2 (String c3 EmptyString))), (String c a), b.
  split; [reflexivity|]. split.
  - cbn [toLowerCase Str.map].
    now rewrite (is_char_ci_lower "e" c1 eq_refl H1),
      (is_char_ci_lower "n" c2 eq_refl H2), (is_char_ci_lower "v" c3 eq_refl H3).
  - split; [discriminate|]. cbn [Str.existsb]. now rewrite Hc, Ha.
Qed.

Lemma test_placeholder_spec s :
  test_placeholder s = true <-> contains_placeholder s.
Proof.
  split.
  - induction s as [|c r IH].
    + discriminate.
    + rewrite test_placeholder_cons. intros H. apply orb_true_iff in H.
      destruct H as [H|H].
      * destruct (match_placeholder_here_inv _ H) as (tag & name & post & E & Ht & Hn & Hb).
        exists EmptyString, tag, name, post. auto.
      * destruct (IH H) as (pre & tag & name & post & -> & Ht & Hn & Hb).
        exists (String c pre), tag, name, post. auto.
  - intros (pre & tag & name & post & -> & Ht & Hn & Hb).
    now apply test_placeholder_contains.
Qed.

Lemma runs_replace_runs b s : runs false b (replace_runs b s) = true.
Proof.
  revert b. induction s as [|c r IH]; intros b; [reflexivity|].
  cbn [replace_runs]. destruct (is_alnum c) eqn:Hc.
  - cbn [runs]. rewrite (alnum_not_underscore _ Hc), Hc. apply IH.
  - destruct b; [apply IH|]. cbn [runs]. change (is_char "_" "_") with true.
    cbn [negb andb]. apply IH.
Qed.

Lemma runs_drop_while s :
  forall b, runs false b s = true -> runs false true (drop_while (is_char "_") s) = true.
Proof.
  induction s as [|c r IH]; intros b H; [reflexivity|].
  cbn [drop_while runs] in *. destruct (is_char "_" c) eqn:Hc.
  - apply andb_true_iff in H. destruct H as [_ H]. eapply IH, H.
  - cbn [runs]. now rewrite Hc.
Qed.

Lemma runs_drop_while_end s :
  forall b, runs false b s = true ->
    drop_while_end (is_char "_") s = EmptyString
    \/ runs true b (drop_while_end (is_char "_") s) = true.
Proof.
  induction s as [|c r IH]; intros b H; [now left|].
  cbn [drop_while_end runs] in *. destruct (is_char "_" c) eqn:Hc.
  - apply andb_true_iff in H. destruct H as [Hb H].
    destruct (IH _ H) as [E|E].
    + rewrite E. now left.
    + right. destruct (drop_while_end (is_char "_") r) eqn:Hr; [discriminate E|].
      cbn [is_empty andb]. cbn [runs] in *. now rewrite Hc, Hb.
  - apply andb_true_iff in H. destruct H as [Ha H]. right.
    cbn [andb runs]. rewrite Hc, Ha.
    destruct (IH _ H) as [E|E]; [now rewrite E | exact E].
Qed.

Lemma upper_segment_char c :
  is_char "_" c = false -> is_upper (upper c) || is_digit (upper c) = is_alnum c.
Proof.
  destruct c as [[] [] [] [] [] [] [] []]; cbn; intros H;
    first [reflexivity | discriminate H].
Qed.

Lemma segments_map_upper s : forall b, segments b (Str.map upper s) = runs true b s.
Proof.
  induction s as [|c r IH]; intros b; [cbn; now destruct b|].
  cbn [Str.map segments runs]. rewrite upper_underscore.
  destruct (is_char "_" c) eqn:Hc; [now rewrite IH|].
  now rewrite upper_segment_char, IH.
Qed.

Lemma toEnvToken_is_env_token input fallback :
  is_env_token fallback = true -> is_env_token (toEnvToken input fallback) = true.
Proof.
  intros Hf. unfold toEnvToken.
  destruct (is_empty (strip_underscores (replace_non_alnum (trim input)))) eqn:He;
    [exact Hf|].
  unfold is_env_token, toUpperCase. rewrite segments_map_upper.
  unfold strip_underscores, replace_non_alnum in *.
  pose proof (runs_replace_runs false (trim input)) as H1.
  apply runs_drop_while in H1. apply runs_drop_while_end in H1.
  destruct H1 as [E|E]; [|exact E]. rewrite E in He. discriminate.
Qed.

Lemma segments_replace_runs s :
  forall a b, segments a s = true -> (a = false -> b = false) -> replace_runs b s = s.
Proof.
  induction s as [|c r IH]; intros a b H Hab; [reflexivity|].
  cbn [segments replace_runs] in *. destruct (is_char "_" c) eqn:Hc.
  - apply andb_true_iff in H. destruct H as [Ha H]. apply negb_true_iff in Ha.
    rewrite (Hab Ha). apply is_char_eq in Hc. subst c. cbn.
    f_equal. apply (IH true true H). auto.
  - apply andb_true_iff in H. destruct H as [Ha H].
    assert (is_alnum c = true) as ->.
    { unfold is_alnum, is_alpha. apply orb_true_iff in Ha. destruct Ha as [-> | ->];
        [reflexivity | apply orb_true_r]. }
    f_equal. apply (IH false false H). auto.
Qed.

Lemma segments_chars s : forall b, segments b s = true -> Str.forallb is_env_name_char s = true.
Proof.
  induction s as [|c r IH]; intros b H; [reflexivity|].
  cbn [segments Str.forallb] in *. unfold is_env_name_char at 1.
  destruct (is_char "_" c).
  - apply andb_true_iff in H. destruct H as [_ H]. rewrite orb_true_r. eapply IH, H.
  - apply andb_true_iff in H. destruct H as [-> H]. eapply IH, H.
Qed.

Lemma env_name_char_facts c :
  is_env_name_char c = true -> is_space c = false /\ upper c = c.
Proof.
  destruct c as [[] [] [] [] [] [] [] []]; cbn; intros H;
    first [split; reflexivity | discriminate H].
Qed.

Lemma drop_while_end_none p s :
  Str.forallb (fun c => negb (p c)) s = true -> drop_while_end p s = s.
Proof.
  induction s as [|c r IH]; [reflexivity|]. cbn [Str.forallb drop_while_end].
  intros H. apply andb_true_iff in H. destruct H as [Hc Hr].
  apply negb_true_iff in Hc. now rewrite Hc, IH.
Qed.

Lemma drop_while_none p s :
  Str.forallb (fun c => negb (p c)) s = true -> drop_while p s = s.
Proof.
  destruct s as [|c r]; [reflexivity|]. cbn [Str.forallb drop_while].
  intros H. apply andb_true_iff in H. destruct H as [Hc Hr].
  apply negb_true_iff in Hc. now rewrite Hc.
Qed.

Lemma forallb_impl (p q : ascii -> bool) s :
  (forall c, p c = true -> q c = true) -> Str.forallb p s = true -> Str.forallb q s = true.
Proof.
  intros Hpq. induction s as [|c r IH]; [reflexivity|]. cbn [Str.forallb].
  intros H. apply andb_true_iff in H. destruct H as [Hc Hr].
  now rewrite (Hpq _ Hc), IH.
Qed.

Lemma segments_drop_while_end s :
  forall b, segments b s = true -> drop_while_end (is_char "_") s = s.
Proof.
  induction s as [|c r IH]; intros b H; [reflexivity|].
  cbn [segments drop_while_end] in *. destruct (is_char "_" c) eqn:Hc.
  - apply andb_true_iff in H. destruct H as [_ H]. rewrite (IH _ H).
    destruct r; [discriminate H | reflexivity].
  - apply andb_true_iff in H. destruct H as [_ H]. now rewrite (IH _ H).
Qed.

Lemma map_upper_id s : Str.forallb is_env_name_char s = true -> Str.map upper s = s.
Proof.
  induction s as [|c r IH]; [reflexivity|]. cbn [Str.forallb Str.map].
  intros H. apply andb_true_iff in H. destruct H as [Hc Hr].
  destruct (env_name_char_facts _ Hc) as [_ ->]. now rewrite IH.
Qed.

Lemma toEnvToken_fixed token fallback :
  is_env_token token = true -> toEnvToken token fallback = token.
Proof.
  intros H. unfold is_env_token in H.
  pose proof (segments_chars _ _ H) as Hchars.
  assert (Htrim : trim token = token).
  { unfold trim.
    assert (Str.forallb (fun c => negb (is_space c)) token = true) as Hns.
    { apply (forallb_impl is_env_name_char); [|exact Hchars].
      intros c Hc. now destruct (env_name_char_facts _ Hc) as [-> _]. }
    now rewrite (drop_while_none _ _ Hns), (drop_while_end_none _ _ Hns). }
  unfold toEnvToken, replace_non_alnum, strip_underscores. rewrite Htrim.
  rewrite (segments_replace_runs token true false H) by discriminate.
  assert (drop_while (is_char "_") token = token) as ->.
  { destruct token as [|c r]; [reflexivity|]. cbn [segments] in H. cbn [drop_while].
    destruct (is_char "_" c); [discriminate H | reflexivity]. }
  rewrite (segments_drop_while_end _ _ H).
  destruct token as [|c r]; [discriminate H|]. cbn [is_empty].
  now apply map_upper_id.
Qed.

Lemma segments_join a b :
  forall flag, segments flag a = true -> segments true b = true ->
    segments flag (a ++ "_" ++ b) = true.
Proof.
  induction a as [|c r IH]; intros flag Ha Hb.
  - cbn in *. now rewrite Ha.
  - cbn [String.append segments] in *. destruct (is_char "_" c).
    + apply andb_true_iff in Ha. destruct Ha as [-> Ha]. now apply IH.
    + apply andb_true_iff in Ha. destruct Ha as [-> Ha]. now apply IH.
Qed.

End PatternFacts.

(** ** Overrides as documents, and stripping them *)

Module TidyFacts.
Import Chars Str JS McpSecrets Spec Notions.
Import StrFacts PropsFacts StripFacts MergeFacts ExtractFacts FrameFacts
  OverrideFacts DocumentFacts TokenFacts CompleteFacts SchemeFacts CloneFacts.
Import StripLaws SanitizeFacts JsonFacts ProtoFacts PatternFacts.

Lemma keys_insert_index i k v ps k' :
  In k' (keys (insert_index i k v ps)) <-> k' = k \/ In k' (keys ps).
Proof.
  induction ps as [|[k0 v0] r IH]; cbn [insert_index keys List.map fst In].
  - intuition.
  - destruct (array_index k0) as [j|]; [destruct (j <? i)%N|];
      cbn [keys List.map fst In]; fold (keys r);
      try (fold (keys (insert_index i k v r)); rewrite IH); intuition.
Qed.

Lemma NoDup_insert_index i k v ps :
  NoDup (keys ps) -> ~ In k (keys ps) -> NoDup (keys (insert_index i k v ps)).
Proof.
  induction ps as [|[k0 v0] r IH]; cbn [insert_index keys List.map fst]; intros Hnd Hnot.
  - constructor; [intros [] | constructor].
  - fold (keys r) in *. inversion Hnd as [|? ? Hn0 Hnd']; subst.
    assert (Hcons : NoDup (k :: k0 :: keys r)) by (constructor; assumption).
    destruct (array_index k0) as [j|]; [destruct (j <? i)%N|]; try exact Hcons.
    cbn [keys List.map fst]. fold (keys (insert_index i k v r)). constructor.
    + rewrite keys_insert_index. intros [E|Hin]; [|contradiction].
      apply Hnot. left. now symmetry.
    + apply IH; [exact Hnd'|]. intros H. apply Hnot. now right.
Qed.

Lemma NoDup_add_own k v ps :
  NoDup (keys ps) -> own k ps = None -> NoDup (keys (add_own k v ps)).
Proof.
  intros Hnd Ho. apply own_None_keys in Ho. unfold add_own.
  destruct (array_index k); [now apply NoDup_insert_index|].
  rewrite keys_app. cbn [keys List.map fst].
  apply NoDup_app; [exact Hnd | |].
  - constructor; [intros [] | constructor].
  - intros x Hx [<-|[]]. contradiction.
Qed.

Lemma unique_keys_intro props :
  NoDup (keys props) -> (forall k v, In (k, v) props -> unique_keys v = true) ->
  unique_keys (obj props) = true.
Proof.
  intros Hnd Hall. unfold obj. cbn [unique_keys andb].
  apply andb_true_iff. split; [now apply nodup_keys_NoDup|].
  apply forallb_forall. intros [k v] Hin. exact (Hall _ _ Hin).
Qed.

Lemma unique_keys_inv props :
  unique_keys (obj props) = true ->
  NoDup (keys props) /\ forall k v, In (k, v) props -> unique_keys v = true.
Proof.
  intros Hu. split; [apply (unique_keys_object _ _ Hu)|].
  intros k v Hin. eapply unique_keys_child; eauto.
Qed.

Lemma set_plain_unique props k v :
  k <> "__proto__" ->
  unique_keys (obj props) = true -> unique_keys v = true ->
  unique_keys (set (obj props) k v) = true.
Proof.
  intros Hk Hu Hv. destruct (unique_keys_inv _ Hu) as [Hnd Hall].
  rewrite set_plain by exact Hk. destruct (own k props) eqn:Ho.
  - apply unique_keys_intro; [now rewrite keys_replace_own|].
    intros k' v' Hin. destruct (In_replace_own _ _ _ _ _ Hin) as [H| ->]; eauto.
  - apply unique_keys_intro; [now apply NoDup_add_own|].
    intros k' v' Hin. destruct (In_add_own _ _ _ _ Hin) as [H|E]; [eauto | congruence].
Qed.

Lemma setNestedValue_unique q :
  q <> [] -> ~ In "__proto__" q ->
  forall props v,
    all_plain (obj props) = true -> all_plain v = true ->
    unique_keys (obj props) = true -> unique_keys v = true ->
    unique_keys (setNestedValue (obj props) q v) = true.
Proof.
  induction q as [|k q' IH]; [congruence|]. intros _ Hnp props v Hp Hv Hu Huv.
  assert (Hk : k <> "__proto__") by (intros ->; apply Hnp; now left).
  assert (Hnp' : ~ In "__proto__" q') by (intros H; apply Hnp; now right).
  destruct q' as [|k2 q''].
  - cbn [setNestedValue]. now apply set_plain_unique.
  - rewrite setNestedValue_cons2.
    assert (Hu1 : unique_keys (if negb (isPlainObject (get (obj props) k))
                               then set (obj props) k empty_object else obj props) = true).
    { destruct (negb (isPlainObject (get (obj props) k))); [|exact Hu].
      now apply set_plain_unique. }
    destruct (descend_plain props k Hk Hp)
      as (props1 & cprops & E & Hp1 & Hown & Hc & _ & _).
    rewrite E in *. destruct (unique_keys_inv _ Hu1) as [Hnd1 Hall1].
    unfold obj at 1. rewrite (modify_own _ _ _ _ _ Hown).
    apply unique_keys_intro; [now rewrite keys_replace_own|].
    intros k' v' Hin. destruct (In_replace_own _ _ _ _ _ Hin) as [H| ->]; [eauto|].
    apply IH; auto; [discriminate|]. eapply Hall1, own_In, Hown.
Qed.

Lemma apply_writes_tidy ws :
  plain_writes ws ->
  (forall q v, In (q, v) ws -> unique_keys v = true) ->
  forall props,
    all_plain (obj props) = true -> unique_keys (obj props) = true ->
    exists props',
      apply_writes ws (obj props) = obj props'
      /\ all_plain (obj props') = true /\ unique_keys (obj props') = true.
Proof.
  induction ws as [|[q v] ws IH]; intros Hws Huv props Hp Hu; [now exists props|].
  destruct (Hws q v ltac:(now left)) as (Hl & Hnp & Hleaf).
  assert (Hq : q <> []) by (intros ->; discriminate).
  pose proof (setNestedValue_unique q Hq Hnp props v Hp (all_plain_leaf _ Hleaf) Hu
                (Huv q v ltac:(now left))) as Hu'.
  destruct (setNestedValue_plain q Hq Hnp props v Hp (all_plain_leaf _ Hleaf))
    as (props1 & E & Hp1 & _).
  change (apply_writes ((q, v) :: ws) (obj props))
    with (apply_writes ws (setNestedValue (obj props) q v)).
  rewrite E in *. apply IH; auto.
  - intros q' v' H. apply Hws. now right.
  - intros q' v' H. eapply Huv. right. exact H.
Qed.

Lemma json_compatible_all_plain v : json_compatible v = true -> all_plain v = true.
Proof.
  induction v as [| | | | | | | |items _|proto props _ IH] using Value_induction;
    try reflexivity. intros H. cbn [json_compatible] in H.
  destruct proto; try discriminate. cbn [all_plain].
  apply andb_true_iff in H. destruct H as [_ H].
  rewrite forallb_forall in *. rewrite Forall_forall in IH. auto.
Qed.

Lemma get_path_app v p q :
  get_path v (p ++ q)
  = match get_path v p with Some c => get_path c q | None => None end.
Proof.
  revert v. induction p as [|k r IH]; intros v; [reflexivity|].
  cbn [app get_path]. destruct (own k (entries v)); [apply IH | reflexivity].
Qed.

Lemma get_path_all_plain p :
  forall v x, all_plain v = true -> get_path v p = Some x -> all_plain x = true.
Proof.
  induction p as [|k r IH]; intros v x Hv Hg.
  - cbn in Hg. congruence.
  - cbn [get_path] in Hg. destruct (own k (entries v)) as [c|] eqn:Hc; [|discriminate].
    destruct v as [| | | | | | | | |proto props]; try discriminate Hc.
    destruct proto; try discriminate Hv. cbn [entries] in Hc.
    eapply IH; [|exact Hg]. eapply all_plain_child; eauto.
Qed.

Lemma spares_present p :
  forall r x, get_path r p = Some x -> spares r p = false.
Proof.
  induction p as [|k rest IH]; intros r x Hg; [reflexivity|].
  cbn [get_path spares] in *. destruct (own k (entries r)) as [c|]; [|discriminate].
  rewrite (IH _ _ Hg). apply andb_false_r.
Qed.

Lemma spares_false_inv p :
  forall r, p <> [] -> spares r p = false ->
    exists p1 p2 x, p = p1 ++ p2 /\ p1 <> [] /\ get_path r p1 = Some x
      /\ (isPlainObject x = false \/ p2 = []).
Proof.
  induction p as [|k rest IH]; intros r Hp Hs; [congruence|].
  cbn [spares] in Hs. destruct (own k (entries r)) as [rv|] eqn:Hrv; [|discriminate].
  destruct (isPlainObject rv) eqn:Hpl.
  - cbn [andb] in Hs. destruct rest as [|k2 rest2].
    + exists [k], [], rv. cbn [get_path app]. rewrite Hrv.
      repeat split; auto; discriminate.
    + destruct (IH rv ltac:(discriminate) Hs) as (p1 & p2 & x & E & Hne & Hg & Hc).
      exists (k :: p1), p2, x. cbn [get_path app]. rewrite Hrv, E.
      repeat split; auto; discriminate.
  - exists [k], rest, rv. cbn [get_path app]. rewrite Hrv.
    repeat split; auto; discriminate.
Qed.

Lemma doc_writes_unique_values config q v :
  json_compatible config = true -> In (q, v) (doc_writes config) ->
  unique_keys v = true.
Proof.
  intros Hc Hin. destruct (doc_writes_sound _ _ _ Hc Hin) as [[_ (x & Hx & Hs)] Hg].
  assert (x = v) as -> by congruence. now destruct v.
Qed.

Lemma json_compatible_from_leaves v :
  all_plain v = true -> unique_keys v = true ->
  (forall p x, get_path v p = Some x -> is_mapping x = false -> json_compatible x = true) ->
  json_compatible v = true.
Proof.
  induction v as [| | | | | | | |items _|proto props _ IH] using Value_induction;
    intros Hp Hu Hleaf; try (apply (Hleaf []); reflexivity).
  destruct proto; try discriminate Hp.
  destruct (unique_keys_inv _ Hu) as [Hnd Hall].
  apply json_compatible_intro; [exact Hnd|].
  intros k c Hin. rewrite Forall_forall in IH. apply (IH _ Hin).
  - eapply all_plain_child; [exact Hp|]. exact (In_own _ _ _ Hnd Hin).
  - eauto.
  - intros p x Hg Hx. apply (Hleaf (k :: p)); [|exact Hx].
    cbn [get_path entries]. now rewrite (In_own _ _ _ Hnd Hin).
Qed.

Lemma stripOverrideKeys_json toRemove :
  forall base,
    json_compatible base = true -> unique_keys toRemove = true ->
    json_compatible (stripOverrideKeys base toRemove) = true.
Proof.
  induction toRemove as [| | | | | | | |items _|proto rprops _ IH] using Value_induction;
    intros base Hc Hu;
    try (rewrite stripOverrideKeys_not_plain; [exact Hc | apply andb_false_r]).
  destruct (isPlainObject base && isPlainObject (VObject proto rprops)) eqn:Hboth.
  2:{ now rewrite stripOverrideKeys_not_plain. }
  apply andb_true_iff in Hboth. destruct Hboth as [Hb Hr].
  destruct (isPlainObject_inv _ Hb) as [bprops ->].
  destruct proto; try discriminate.
  destruct (json_compatible_object _ Hc) as [Hnb Hallb].
  destruct (unique_keys_object _ _ Hu) as [Hnr Hallr].
  rewrite stripOverrideKeys_plain. fold (obj bprops).
  rewrite fold_strip_rebuild by assumption.
  apply json_compatible_intro; [now apply NoDup_strip_props|].
  intros k v Hin. apply in_flat_map in Hin. destruct Hin as ([k0 v0] & Hin0 & Hin).
  unfold strip_entry in Hin. cbn [fst snd] in Hin.
  destruct (own k0 rprops) as [rv|] eqn:Hrv.
  - destruct (isPlainObject rv && isPlainObject v0); [|destruct Hin].
    cbv zeta in Hin. destruct (is_empty_object _); [destruct Hin|].
    destruct Hin as [E|[]]. injection E as <- <-.
    rewrite Forall_forall in IH. apply (IH _ (own_In _ _ _ Hrv)); eauto.
  - destruct Hin as [E|[]]. injection E as <- <-. eauto.
Qed.

Lemma github_config_no_proto q :
  secret_at github_config q -> ~ In "__proto__" q.
Proof.
  intros [[(s & h & ->)|(s & ->)] (v & Hv & _)] Hin; cbn in Hv;
    destruct (String.eqb s "github") eqn:E; cbn in Hv; try discriminate Hv;
    apply String.eqb_eq in E; subst s.
  - destruct (String.eqb h "Authorization") eqn:E; cbn in Hv;
      [|discriminate Hv].
    apply String.eqb_eq in E. subst h.
    cbn in Hin. intuition discriminate.
  - cbn in Hin. intuition discriminate.
Qed.

End TidyFacts.

(** * The claim on exceptions, as amended *)

Module Exceptions.
Import Chars Str JS McpSecrets Spec Notions.
Import ExtractFacts DocumentFacts CloneFacts JsonFacts.

(** C7 as amended, for a mapping.  On a JSON-compatible document
    [extractMcpSecrets] raises nothing, and what is not a secret (no
    [mcp], or [mcp], a server, [headers] or [oauth] that is not a plain
    mapping, values that are empty or not strings) is nothing to extract:
    a document without secret is returned unchanged with empty
    overrides.  On a mapping that JSON cannot represent there is no
    check: when no object has a method [toJSON], the function throws
    exactly when a BigInt is reachable, and then the TypeError of the
    serializer; otherwise it returns what it returns for the JSON clone
    of its input, which is a JSON-compatible document. *)
Theorem extract_exceptions config :
  is_mapping config = true ->
  (is_document config = true ->
   exists r,
     extractMcpSecrets config = Ok r
     /\ ((forall q, ~ secret_at config q) ->
         r = {| sanitizedConfig := config; secretOverrides := empty_object |}))
  /\ (unique_keys config = true -> without_toJSON config = true ->
      if has_bigint config then extractMcpSecrets config = Throw TypeError
      else exists clone r,
             cloneConfig config = Ok clone
             /\ is_document clone = true
             /\ extractMcpSecrets config = Ok r
             /\ extractMcpSecrets clone = Ok r).
Proof.
  intros Hm. split.
  - intros Hd. pose proof (extract_document _ Hd) as Hr.
    eexists. split; [exact Hr|].
    intros Hno. pose proof (extract_nothing _ Hd Hno) as Hn. congruence.
  - intros Hu _. pose proof (cloneConfig_mapping config Hm) as H.
    destruct (has_bigint config).
    + unfold extractMcpSecrets. now rewrite H.
    + destruct H as [props H].
      assert (Hd : is_document (VObject VObjectPrototype props) = true).
      { unfold is_document. cbn [isPlainObject andb].
        exact (cloneConfig_json_compatible _ _ Hu H). }
      destruct (extract_of_clone _ _ H) as [_ Heq].
      pose proof (extract_document _ Hd) as Hr.
      eexists. eexists. split; [exact H|]. split; [exact Hd|].
      split; [rewrite Heq; exact Hr | exact Hr].
Qed.

Lemma extract_exceptions_witness :
  extractMcpSecrets sanitized_config
  = Ok {| sanitizedConfig := sanitized_config; secretOverrides := empty_object |}
  /\ extractMcpSecrets bigint_config = Throw TypeError
  /\ is_document not_json_config = false
  /\ exists clone r,
       cloneConfig not_json_config = Ok clone
       /\ is_document clone = true
       /\ extractMcpSecrets not_json_config = Ok r
       /\ extractMcpSecrets clone = Ok r.
Proof.
  split.
  - destruct (proj1 (extract_exceptions sanitized_config eq_refl) eq_refl)
      as (r & Hr & Hno).
    rewrite Hr. f_equal. apply Hno.
    intros q [[(s & h & ->)|(s & ->)] (v & Hv & Hs)]; cbn in Hv;
      destruct (String.eqb s "context7"); cbn in Hv; try discriminate Hv.
    destruct (String.eqb h "CONTEXT7_API_KEY"); cbn in Hv; [|discriminate Hv].
    injection Hv as <-. discriminate Hs.
  - split; [exact (proj2 (extract_exceptions bigint_config eq_refl) eq_refl eq_refl)|].
    split; [reflexivity|].
    exact (proj2 (extract_exceptions not_json_config eq_refl) eq_refl eq_refl).
Defined.

End Exceptions.

(** * Further properties *)

Module Further.
Import Chars Str JS McpSecrets Spec.
Import StrFacts PropsFacts StripFacts MergeFacts ExtractFacts FrameFacts
  OverrideFacts DocumentFacts TokenFacts CompleteFacts SchemeFacts CloneFacts.

(** The sanitized config and the overrides are complementary for every
    document whose secrets lie under no server and no header named
    [__proto__]: each secret is recorded in [secretOverrides] at its path
    with its original value and replaced in [sanitizedConfig] by a string
    holding a placeholder; [secretOverrides] holds nothing else; and
    [sanitizedConfig] agrees with the document everywhere else. *)
Theorem extract_complementary config :
  is_document config = true ->
  (forall q, secret_at config q -> ~ In "__proto__" q) ->
  exists r,
    extractMcpSecrets config = Ok r
    /\ (forall q v, secret_at config q -> get_path config q = Some v ->
          get_path (secretOverrides r) q = Some v
          /\ exists placeholder,
               get_path (sanitizedConfig r) q = Some (VString placeholder)
               /\ test_placeholder placeholder = true)
    /\ (forall p v, get_path (secretOverrides r) p = Some v ->
                    is_mapping v = false ->
                    secret_at config p /\ get_path config p = Some v)
    /\ (forall p, (forall q, secret_at config q -> ~ is_prefix p q) ->
                  get_path (sanitizedConfig r) p = get_path config p).
Proof.
  intros Hd Hnp. destruct (is_document_inv _ Hd) as [_ Hc].
  eexists. split; [apply extract_document, Hd|].
  cbn [sanitizedConfig secretOverrides]. split; [|split].
  - intros q v Hs Hg. split.
    + apply (apply_writes_complete (doc_writes config)
               (doc_writes_plain _ Hc Hnp)) with (props := []).
      * intros q' a b Ha Hb.
        destruct (doc_writes_sound _ _ _ Hc Ha) as [_ Ha'].
        destruct (doc_writes_sound _ _ _ Hc Hb) as [_ Hb']. congruence.
      * reflexivity.
      * now apply doc_writes_complete.
    + destruct Hs as [[(s & h & ->)|(s & ->)] (x & Hx & Hsx)];
        rewrite Hg in Hx; injection Hx as ->.
      * rewrite (san_doc_header _ _ _ _ Hc Hg Hsx).
        destruct (header_replacement_placeholder s h x) as (ph & -> & Hph).
        now exists ph.
      * rewrite (san_doc_oauth _ _ _ Hc Hg Hsx).
        destruct (oauth_replacement_placeholder s) as (ph & -> & Hph).
        now exists ph.
  - intros p v Hg Hleaf.
    assert (p <> []) as Hne.
    { intros ->. cbn [get_path] in Hg. injection Hg as <-.
      rewrite apply_writes_is_mapping in Hleaf by reflexivity. discriminate. }
    destruct (overrides_sound _ _ _ Hc Hne Hg) as (q & x & Hin & [[_ Hm]|[-> ->]]).
    + congruence.
    + now apply doc_writes_sound.
  - intros p Hclean. now apply frame_doc.
Qed.

Lemma extract_complementary_witness :
  is_document github_config = true
  /\ exists r,
       extractMcpSecrets github_config = Ok r
       /\ (forall q v, secret_at github_config q ->
                       get_path github_config q = Some v ->
             get_path (secretOverrides r) q = Some v
             /\ exists placeholder,
                  get_path (sanitizedConfig r) q = Some (VString placeholder)
                  /\ test_placeholder placeholder = true)
       /\ (forall p v, get_path (secretOverrides r) p = Some v ->
                       is_mapping v = false ->
                       secret_at github_config p
                       /\ get_path github_config p = Some v)
       /\ (forall p, (forall q, secret_at github_config q -> ~ is_prefix p q) ->
                     get_path (sanitizedConfig r) p = get_path github_config p).
Proof.
  split; [reflexivity|].
  apply (extract_complementary github_config eq_refl).
  intros q [[(s & h & ->)|(s & ->)] (v & Hv & _)] Hin; cbn in Hv;
    destruct (String.eqb s "github") eqn:E; cbn in Hv; try discriminate Hv;
    apply String.eqb_eq in E; subst s.
  - destruct (String.eqb h "Authorization") eqn:E; cbn in Hv;
      [|discriminate Hv].
    apply String.eqb_eq in E. subst h.
    cbn in Hin. intuition discriminate.
  - cbn in Hin. intuition discriminate.
Defined.

(** The same extraction with a server named [__proto__] between two
    others: the override of the first server is dropped with the object
    that held it, only the last one is left. *)
Example three_servers_overrides :
  extractMcpSecrets three_servers_config
  = Ok {| sanitizedConfig :=
            obj [("mcp", obj [
              ("a", obj [("headers", obj [("X", VString "{env:X}")])]);
              ("__proto__",
               obj [("oauth",
                     obj [("clientSecret",
                           VString "{env:OPENCODE_MCP_PROTO_OAUTH_CLIENT_SECRET}")])]);
              ("b", obj [("headers", obj [("Z", VString "{env:Z}")])])])];
          secretOverrides :=
            obj [("mcp", obj [("b", obj [("headers", obj [("Z", VString "s3")])])])]
       |}.
Proof. reflexivity. Qed.

(** The value that replaces a secret header: when the header name is
    [authorization] or [proxy-authorization] in any case and the value
    begins with a scheme and white space, that prefix followed by
    [{env:VAR}]; in every other case [{env:VAR}] alone. *)
Theorem header_placeholder_form config serverName headerName value :
  is_document config = true ->
  get_path config (header_path serverName headerName) = Some (VString value) ->
  isSecretString (VString value) = true ->
  exists r,
    extractMcpSecrets config = Ok r
    /\ (forall prefix,
          authorization_name headerName ->
          scheme_prefix value prefix ->
          get_path (sanitizedConfig r) (header_path serverName headerName)
          = Some (VString (prefix ++ "{env:"
                           ++ buildHeaderEnvVar serverName headerName ++ "}")))
    /\ (~ authorization_name headerName
        \/ (forall prefix, ~ scheme_prefix value prefix) ->
        get_path (sanitizedConfig r) (header_path serverName headerName)
        = Some (VString ("{env:" ++ buildHeaderEnvVar serverName headerName
                         ++ "}"))).
Proof.
  intros Hd Hg Hs. destruct (is_document_inv _ Hd) as [_ Hc].
  eexists. split; [apply extract_document, Hd|]. cbn [sanitizedConfig].
  rewrite (san_doc_header _ _ _ _ Hc Hg Hs).
  unfold header_replacement, buildHeaderPlaceholder. cbn [String_].
  split.
  - intros prefix Hauth Hpre.
    apply isAuthorizationHeader_spec in Hauth. rewrite Hauth. cbn [negb].
    apply match_scheme_spec in Hpre. now rewrite Hpre.
  - intros [Hno|Hno].
    + destruct (isAuthorizationHeader (Some headerName)) eqn:Ha; [|reflexivity].
      exfalso. apply Hno. now apply isAuthorizationHeader_spec.
    + destruct (negb (isAuthorizationHeader (Some headerName))); [reflexivity|].
      destruct (match_scheme value) as [pre|] eqn:Hm; [|reflexivity].
      exfalso. apply (Hno pre). now apply match_scheme_spec.
Qed.

Lemma header_placeholder_form_witness :
  exists r,
    extractMcpSecrets github_config = Ok r
    /\ get_path (sanitizedConfig r) (header_path "github" "Authorization")
       = Some (VString "Bearer {env:OPENCODE_MCP_GITHUB_AUTHORIZATION}").
Proof.
  destruct (header_placeholder_form github_config "github" "Authorization"
              "Bearer ghp_example" eq_refl eq_refl eq_refl)
    as (r & Hr & Hscheme & _).
  exists r. split; [exact Hr|].
  apply (Hscheme "Bearer ").
  - left. reflexivity.
  - exists "B"%char, "earer", " ", "ghp_example". repeat split. discriminate.
Defined.

(** The name of the environment variable always matches [^[A-Z0-9_]+$]. *)
Theorem env_var_name_charset serverName headerName :
  test_env_name (buildHeaderEnvVar serverName headerName) = true
  /\ test_env_name (buildEnvVar serverName "OAUTH_CLIENT_SECRET") = true.
Proof. split; [apply buildHeaderEnvVar_chars | apply buildEnvVar_chars]. Qed.

Import Notions StripLaws SanitizeFacts JsonFacts ProtoFacts PatternFacts TidyFacts.

(** ** The sanitized config *)

(** For every JSON-compatible document the extraction succeeds,
    [sanitizedConfig] is again a JSON-compatible document, it holds no
    secret at any header or client-secret path, whatever the keys are
    named, and extracting from it again returns it unchanged with empty
    overrides. *)
Theorem sanitized_is_safe config :
  is_document config = true ->
  exists r,
    extractMcpSecrets config = Ok r
    /\ is_document (sanitizedConfig r) = true
    /\ (forall q, ~ secret_at (sanitizedConfig r) q)
    /\ extractMcpSecrets (sanitizedConfig r)
       = Ok {| sanitizedConfig := sanitizedConfig r;
               secretOverrides := empty_object |}.
Proof.
  intros Hd. destruct (is_document_inv _ Hd) as [_ Hc].
  eexists. split; [apply extract_document, Hd|]. cbn [sanitizedConfig].
  pose proof (is_document_san_doc _ Hd) as Hd'.
  pose proof (san_doc_no_secret _ Hc) as Hno.
  split; [exact Hd'|]. split; [exact Hno|].
  now apply extract_nothing.
Qed.

Lemma sanitized_is_safe_witness :
  is_document three_servers_config = true
  /\ exists r,
       extractMcpSecrets three_servers_config = Ok r
       /\ is_document (sanitizedConfig r) = true
       /\ (forall q, ~ secret_at (sanitizedConfig r) q)
       /\ extractMcpSecrets (sanitizedConfig r)
          = Ok {| sanitizedConfig := sanitizedConfig r;
                  secretOverrides := empty_object |}.
Proof.
  split; [reflexivity | exact (sanitized_is_safe three_servers_config eq_refl)].
Defined.

(** The extraction changes string values only: with every string
    blanked, [sanitizedConfig] is the document.  Keys and their order,
    arrays, numbers, booleans and nulls are those of the input. *)
Theorem extract_keeps_skeleton config :
  is_document config = true ->
  exists r,
    extractMcpSecrets config = Ok r
    /\ skeleton (sanitizedConfig r) = skeleton config.
Proof.
  intros Hd. eexists. split; [apply extract_document, Hd|]. cbn [sanitizedConfig].
  apply skeleton_map_own, skeleton_san_mcp.
Qed.

Lemma extract_keeps_skeleton_witness :
  is_document github_config = true
  /\ exists r,
       extractMcpSecrets github_config = Ok r
       /\ skeleton (sanitizedConfig r) = skeleton github_config.
Proof.
  split; [reflexivity | exact (extract_keeps_skeleton github_config eq_refl)].
Defined.

(** ** The overrides *)

(** [hasOverrides] of the extracted overrides tells whether the document
    holds a secret, whatever its keys are; and the overrides have no
    top-level key other than [mcp]. *)
Theorem hasOverrides_extract config :
  is_document config = true ->
  exists r,
    extractMcpSecrets config = Ok r
    /\ (hasOverrides (secretOverrides r) = true <-> exists q, secret_at config q)
    /\ (Object_keys (secretOverrides r)
        = if hasOverrides (secretOverrides r) then ["mcp"] else []).
Proof.
  intros Hd. destruct (is_document_inv _ Hd) as [_ Hc].
  eexists. split; [apply extract_document, Hd|]. cbn [secretOverrides].
  destruct (apply_writes_top_mcp (doc_writes config)
              ltac:(intros q v H; eapply doc_writes_sound; eauto) [] (or_introl eq_refl))
    as (props' & E & Hk).
  change (obj []) with empty_object in E. rewrite E.
  unfold hasOverrides, Object_keys, obj. cbn [entries]. rewrite Hk.
  destruct (doc_writes config) as [|[q v] ws] eqn:Hw.
  - cbn. split; [|reflexivity]. split; [discriminate|].
    intros [q Hq]. destruct Hq as [Hsp (v & Hg & Hs)].
    pose proof (doc_writes_complete config q v Hc
                  (conj Hsp (ex_intro _ v (conj Hg Hs))) Hg) as Hin.
    rewrite Hw in Hin. destruct Hin.
  - cbn. split; [|reflexivity]. split; [|reflexivity]. intros _.
    exists q. eapply doc_writes_sound; [exact Hc|]. rewrite Hw. now left.
Qed.

Lemma hasOverrides_extract_witness :
  is_document proto_server_config = true
  /\ exists r,
       extractMcpSecrets proto_server_config = Ok r
       /\ (hasOverrides (secretOverrides r) = true
           <-> exists q, secret_at proto_server_config q)
       /\ (Object_keys (secretOverrides r)
           = if hasOverrides (secretOverrides r) then ["mcp"] else []).
Proof.
  split; [reflexivity | exact (hasOverrides_extract proto_server_config eq_refl)].
Defined.

(** No object of the extracted overrides ever owns a property named
    [__proto__]: [setNestedValue] assigns that key through the accessor of
    %Object.prototype%.  So for every document, a secret under a server
    or a header of that name is replaced by a placeholder in
    [sanitizedConfig] while [secretOverrides] holds nothing at its
    path. *)
Theorem proto_paths_not_recorded config :
  is_document config = true ->
  exists r,
    extractMcpSecrets config = Ok r
    /\ (forall p, In "__proto__" p -> get_path (secretOverrides r) p = None)
    /\ (forall q, secret_at config q -> In "__proto__" q ->
          get_path (secretOverrides r) q = None
          /\ exists placeholder,
               get_path (sanitizedConfig r) q = Some (VString placeholder)
               /\ test_placeholder placeholder = true).
Proof.
  intros Hd. destruct (is_document_inv _ Hd) as [_ Hc].
  eexists. split; [apply extract_document, Hd|].
  cbn [sanitizedConfig secretOverrides].
  assert (Hinv : no_own_proto (apply_writes (doc_writes config) empty_object) = true).
  { apply apply_writes_no_own_proto; [|reflexivity].
    intros q v Hin. destruct (doc_writes_sound _ _ _ Hc Hin) as [[_ (x & Hx & Hs)] Hg].
    apply secret_primitive. congruence. }
  split.
  - intros p Hp. now apply get_path_no_own_proto.
  - intros q Hs Hp. split; [now apply get_path_no_own_proto|].
    destruct Hs as [[(s & h & ->)|(s & ->)] (x & Hx & Hsx)].
    + rewrite (san_doc_header _ _ _ _ Hc Hx Hsx).
      destruct (header_replacement_placeholder s h x) as (ph & -> & Hph).
      now exists ph.
    + rewrite (san_doc_oauth _ _ _ Hc Hx Hsx).
      destruct (oauth_replacement_placeholder s) as (ph & -> & Hph).
      now exists ph.
Qed.

Lemma proto_paths_not_recorded_witness :
  is_document three_servers_config = true
  /\ exists r,
       extractMcpSecrets three_servers_config = Ok r
       /\ (forall p, In "__proto__" p -> get_path (secretOverrides r) p = None)
       /\ (forall q, secret_at three_servers_config q -> In "__proto__" q ->
             get_path (secretOverrides r) q = None
             /\ exists placeholder,
                  get_path (sanitizedConfig r) q = Some (VString placeholder)
                  /\ test_placeholder placeholder = true).
Proof.
  split; [reflexivity | exact (proto_paths_not_recorded three_servers_config eq_refl)].
Defined.

(** When no secret lies under a server or a header named [__proto__],
    the extracted overrides are a JSON-compatible document themselves:
    plain mappings without repeated keys whose leaves are strings, which
    a JSON round trip gives back unchanged. *)
Theorem overrides_is_document config :
  is_document config = true ->
  (forall q, secret_at config q -> ~ In "__proto__" q) ->
  exists r,
    extractMcpSecrets config = Ok r
    /\ is_document (secretOverrides r) = true
    /\ cloneConfig (secretOverrides r) = Ok (secretOverrides r).
Proof.
  intros Hd Hnp. destruct (is_document_inv _ Hd) as [_ Hc].
  eexists. split; [apply extract_document, Hd|]. cbn [secretOverrides].
  destruct (apply_writes_tidy (doc_writes config) (doc_writes_plain _ Hc Hnp)
              (fun q v => doc_writes_unique_values config q v Hc) [] eq_refl eq_refl)
    as (oprops & E & Hop & Hou).
  assert (Hj : json_compatible (apply_writes (doc_writes config) empty_object) = true).
  { change (obj []) with empty_object in E. rewrite E.
    apply json_compatible_from_leaves; auto.
    intros p x Hg Hx. rewrite <- E in Hg.
    assert (p <> []) as Hne.
    { intros ->. cbn [get_path] in Hg. injection Hg as <-.
      rewrite E in Hx. discriminate. }
    destruct (overrides_sound _ _ _ Hc Hne Hg) as (q & w & Hin & [[_ Hm]|[-> ->]]).
    - congruence.
    - destruct (doc_writes_sound _ _ _ Hc Hin) as [[_ (y & Hy & Hs)] Hq].
      assert (y = w) as -> by congruence. now destruct w. }
  split; [|now apply cloneConfig_compatible].
  unfold is_document. rewrite Hj, andb_true_r.
  change (obj []) with empty_object in E. now rewrite E.
Qed.

Lemma overrides_is_document_witness :
  is_document github_config = true
  /\ exists r,
       extractMcpSecrets github_config = Ok r
       /\ is_document (secretOverrides r) = true
       /\ cloneConfig (secretOverrides r) = Ok (secretOverrides r).
Proof.
  split; [reflexivity|].
  exact (overrides_is_document github_config eq_refl github_config_no_proto).
Defined.

(** ** Inputs that are not mappings *)

(** What [extractMcpSecrets] does with a value that is not an object with
    properties, case by case.  [undefined] has no JSON text and
    [JSON.parse] throws a SyntaxError; [null], NaN and the infinities
    clone to [null], and reading [mcp] from it throws a TypeError, as
    serializing a BigInt does; a boolean, a string and a finite number
    come back as they are, minus zero as [0]; an array in which no object
    has a method [toJSON] throws the TypeError of the serializer when a
    BigInt is reachable in it, and otherwise comes back as its JSON
    clone, a JSON-compatible array of the same length.  The overrides
    are empty in every case that returns. *)
Theorem extract_non_mapping config :
  unique_keys config = true -> without_toJSON config = true ->
  match config with
  | VUndefined => extractMcpSecrets config = Throw SyntaxError
  | VNull | VBigInt _
  | VNumber NNaN | VNumber NPosInfinity | VNumber NNegInfinity =>
      extractMcpSecrets config = Throw TypeError
  | VBool _ | VString _ | VNumber (NFinite _ _) =>
      extractMcpSecrets config
      = Ok {| sanitizedConfig := config; secretOverrides := empty_object |}
  | VNumber NNegZero =>
      extractMcpSecrets config
      = Ok {| sanitizedConfig := VNumber (NFinite 0 0);
              secretOverrides := empty_object |}
  | VArray items =>
      if has_bigint config then extractMcpSecrets config = Throw TypeError
      else exists items',
             cloneConfig config = Ok (VArray items')
             /\ List.length items' = List.length items
             /\ json_compatible (VArray items') = true
             /\ extractMcpSecrets config
                = Ok {| sanitizedConfig := VArray items';
                        secretOverrides := empty_object |}
  | VFunction | VObjectPrototype | VObject _ _ => True
  end.
Proof.
  intros Hu _. destruct config as [| |b|n| |s| | |items|]; try reflexivity;
    try exact I.
  - destruct n; reflexivity.
  - pose proof (json_roundtrip_bigint (VArray items)) as H.
    destruct (has_bigint (VArray items)).
    + unfold extractMcpSecrets, cloneConfig, json_clone. now rewrite H.
    + destruct H as [r H]. cbn [json_roundtrip] in H.
      destruct (traverse (fun x => bind (json_roundtrip x) (fun y => Ok (or_null y)))
                  items) as [items'|e] eqn:Ht; [|discriminate H].
      assert (Hc : cloneConfig (VArray items) = Ok (VArray items')).
      { unfold cloneConfig, json_clone. cbn [json_roundtrip]. now rewrite Ht. }
      exists items'. split; [exact Hc|].
      split; [exact (traverse_length _ _ _ Ht)|].
      split; [exact (cloneConfig_json_compatible _ _ Hu Hc)|].
      unfold extractMcpSecrets. rewrite Hc. reflexivity.
Qed.

Lemma extract_non_mapping_witness :
  extractMcpSecrets (VNumber NNaN) = Throw TypeError
  /\ extractMcpSecrets VUndefined = Throw SyntaxError
  /\ extractMcpSecrets (VString "mcp")
     = Ok {| sanitizedConfig := VString "mcp"; secretOverrides := empty_object |}
  /\ exists items',
       cloneConfig (VArray [VNumber NNaN; VUndefined]) = Ok (VArray items')
       /\ List.length items' = 2%nat
       /\ json_compatible (VArray items') = true
       /\ extractMcpSecrets (VArray [VNumber NNaN; VUndefined])
          = Ok {| sanitizedConfig := VArray items';
                  secretOverrides := empty_object |}.
Proof.
  split; [exact (extract_non_mapping (VNumber NNaN) eq_refl eq_refl)|].
  split; [exact (extract_non_mapping VUndefined eq_refl eq_refl)|].
  split; [exact (extract_non_mapping (VString "mcp") eq_refl eq_refl)|].
  exact (extract_non_mapping (VArray [VNumber NNaN; VUndefined]) eq_refl eq_refl).
Defined.

(** ** [cloneConfig] *)

(** For a value in which no object has a method [toJSON]: what
    [cloneConfig] returns is JSON-compatible, and it returns its argument
    exactly when the argument is JSON-compatible. *)
Theorem cloneConfig_document config :
  unique_keys config = true -> without_toJSON config = true ->
  (forall clone, cloneConfig config = Ok clone -> json_compatible clone = true)
  /\ (cloneConfig config = Ok config <-> json_compatible config = true).
Proof.
  intros Hu _.
  assert (H : forall clone, cloneConfig config = Ok clone ->
                            json_compatible clone = true)
    by (intros clone; apply cloneConfig_json_compatible, Hu).
  split; [exact H|]. split; [apply H | apply cloneConfig_compatible].
Qed.

Lemma cloneConfig_document_witness :
  cloneConfig not_json_config = Ok (obj [("retries", VNull)])
  /\ (forall clone, cloneConfig not_json_config = Ok clone ->
                    json_compatible clone = true)
  /\ (cloneConfig not_json_config = Ok not_json_config
      <-> json_compatible not_json_config = true).
Proof.
  split; [reflexivity | exact (cloneConfig_document not_json_config eq_refl eq_refl)].
Defined.

(** ** [isSecretString] and the tokens *)

(** [isSecretString] holds exactly of the non-empty strings that hold no
    placeholder: no opening brace followed by [env] in any case, a colon,
    a non-empty name without closing brace and a closing brace. *)
Theorem isSecretString_spec value :
  isSecretString value = true
  <-> exists s, value = VString s /\ s <> EmptyString /\ ~ contains_placeholder s.
Proof.
  split.
  - destruct value as [| | | | |s| | | |]; try discriminate.
    cbn [isSecretString]. rewrite andb_true_iff, !negb_true_iff.
    intros [He Ht]. exists s. split; [reflexivity|]. split.
    + intros ->. discriminate.
    + intros H. apply test_placeholder_spec in H. congruence.
  - intros (s & -> & Hne & Hno). cbn [isSecretString].
    destruct s as [|c r]; [congruence|]. cbn [Str.is_empty negb andb].
    destruct (test_placeholder (String c r)) eqn:Ht; [|reflexivity].
    exfalso. apply Hno. now apply test_placeholder_spec.
Qed.

(** [toEnvToken] gives a token in canonical form, groups of [A-Z0-9]
    joined by single underscores, when its fallback is one; it returns a
    canonical token unchanged, so applying it twice is applying it once;
    and the name [buildEnvVar] builds is canonical as a whole. *)
Theorem env_token_canonical input key fallback :
  is_env_token fallback = true ->
  is_env_token (toEnvToken input fallback) = true
  /\ (is_env_token input = true -> toEnvToken input fallback = input)
  /\ toEnvToken (toEnvToken input fallback) fallback = toEnvToken input fallback
  /\ is_env_token (buildEnvVar input key) = true.
Proof.
  intros Hf. split; [now apply toEnvToken_is_env_token|].
  split; [apply toEnvToken_fixed|].
  split; [now apply toEnvToken_fixed, toEnvToken_is_env_token|].
  unfold buildEnvVar. cbv zeta.
  change ("OPENCODE_MCP_" ++ toEnvToken input "SERVER" ++ "_"
          ++ toEnvToken key "VALUE")%string
    with ("OPENCODE_MCP" ++ "_" ++ (toEnvToken input "SERVER" ++ "_"
          ++ toEnvToken key "VALUE"))%string.
  apply segments_join; [reflexivity|].
  apply segments_join; now apply toEnvToken_is_env_token.
Qed.

Lemma env_token_canonical_witness :
  toEnvToken "  my--server.v2 " "SERVER" = "MY_SERVER_V2"
  /\ is_env_token (toEnvToken "  my--server.v2 " "SERVER") = true
  /\ (is_env_token "  my--server.v2 " = true ->
      toEnvToken "  my--server.v2 " "SERVER" = "  my--server.v2 ")
  /\ toEnvToken (toEnvToken "  my--server.v2 " "SERVER") "SERVER"
     = toEnvToken "  my--server.v2 " "SERVER"
  /\ is_env_token (buildEnvVar "  my--server.v2 " "x-api-key") = true.
Proof.
  split; [reflexivity|].
  exact (env_token_canonical "  my--server.v2 " "x-api-key" "SERVER" eq_refl).
Defined.

(** ** [setNestedValue] *)

(** In a tree of plain mappings, along a non-empty path that does not
    name [__proto__], [setNestedValue] stores the value at the path,
    whatever was there or on the way, keeps every value at a path that
    parts from it, and the result is again a tree of plain mappings
    without repeated keys. *)
Theorem setNestedValue_law target path value :
  path <> [] -> ~ In "__proto__" path ->
  isPlainObject target = true ->
  all_plain target = true -> unique_keys target = true ->
  all_plain value = true -> unique_keys value = true ->
  isPlainObject (setNestedValue target path value) = true
  /\ all_plain (setNestedValue target path value) = true
  /\ unique_keys (setNestedValue target path value) = true
  /\ get_path (setNestedValue target path value) path = Some value
  /\ (forall p, diverges p path ->
        get_path (setNestedValue target path value) p = get_path target p).
Proof.
  intros Hne Hnp Hplain Hap Hu Hvp Hvu.
  destruct (isPlainObject_inv _ Hplain) as [props ->]. fold (obj props) in *.
  pose proof (setNestedValue_unique path Hne Hnp props value Hap Hvp Hu Hvu) as Hu'.
  destruct (setNestedValue_plain path Hne Hnp props value Hap Hvp)
    as (props' & E & Hp' & Hget & Hdiv).
  rewrite E in *. auto.
Qed.

Lemma setNestedValue_law_witness :
  let target := obj [("mcp", VString "not a mapping"); ("other", VNull)] in
  let path := header_path "a" "X" in
  isPlainObject (setNestedValue target path (VString "1")) = true
  /\ all_plain (setNestedValue target path (VString "1")) = true
  /\ unique_keys (setNestedValue target path (VString "1")) = true
  /\ get_path (setNestedValue target path (VString "1")) path
     = Some (VString "1")
  /\ (forall p, diverges p path ->
        get_path (setNestedValue target path (VString "1")) p
        = get_path target p).
Proof.
  refine (setNestedValue_law
            (obj [("mcp", VString "not a mapping"); ("other", VNull)])
            (header_path "a" "X") (VString "1")
            _ _ eq_refl eq_refl eq_refl eq_refl eq_refl).
  - discriminate.
  - cbn. intuition discriminate.
Defined.

(** Along a path that names [__proto__] the value is not stored: when no
    object of the target owns a property of that name and the value is
    neither an object nor [null], none does afterwards, and the result has
    nothing at the path. *)
Theorem setNestedValue_proto_path target path value :
  no_own_proto target = true -> primitive value = true ->
  In "__proto__" path ->
  no_own_proto (setNestedValue target path value) = true
  /\ get_path (setNestedValue target path value) path = None.
Proof.
  intros Ht Hv Hin.
  pose proof (setNestedValue_no_own_proto path target value Ht Hv) as H.
  split; [exact H | now apply get_path_no_own_proto].
Qed.

Lemma setNestedValue_proto_path_witness :
  setNestedValue empty_object (header_path "__proto__" "X") (VString "s")
  = VObject VObjectPrototype
      [("mcp", VObject (obj [("headers", obj [("X", VString "s")])]) [])]
  /\ no_own_proto
       (setNestedValue empty_object (header_path "__proto__" "X") (VString "s"))
     = true
  /\ get_path
       (setNestedValue empty_object (header_path "__proto__" "X") (VString "s"))
       (header_path "__proto__" "X")
     = None.
Proof.
  split; [reflexivity|].
  apply (setNestedValue_proto_path empty_object (header_path "__proto__" "X")
           (VString "s") eq_refl eq_refl).
  cbn. auto.
Defined.

(** ** [stripOverrideKeys] *)

(** For plain objects, [stripOverrideKeys] rebuilds [base]: the result
    holds, in the order of [base], each property of [base] that
    [toRemove] does not name, and each one whose values in both are plain
    objects, stripped, unless nothing is left of it.  Its keys are the
    keys of [base] that are left, in their order. *)
Theorem stripOverrideKeys_rebuild base toRemove :
  isPlainObject base = true -> isPlainObject toRemove = true ->
  NoDup (Object_keys base) -> NoDup (Object_keys toRemove) ->
  stripOverrideKeys base toRemove
  = obj (strip_props (entries base) (entries toRemove))
  /\ Object_keys (stripOverrideKeys base toRemove)
     = filter (hasOwn (stripOverrideKeys base toRemove)) (Object_keys base).
Proof.
  intros Hb Hr Hnb Hnr.
  destruct (isPlainObject_inv _ Hb) as [bprops ->].
  destruct (isPlainObject_inv _ Hr) as [rprops ->].
  rewrite stripOverrideKeys_plain. cbn [entries Object_keys] in *.
  fold (obj bprops). rewrite fold_strip_rebuild by assumption.
  split; [reflexivity|].
  unfold Object_keys, obj. cbn [entries]. unfold hasOwn. cbn [entries].
  now apply keys_strip_props_filter.
Qed.

Lemma stripOverrideKeys_rebuild_witness :
  let base := obj [("z", VNull); ("mcp", VString "x"); ("a", VBool true)] in
  let toRemove := obj [("a", VNull); ("q", VNull)] in
  stripOverrideKeys base toRemove = obj [("z", VNull); ("mcp", VString "x")]
  /\ stripOverrideKeys base toRemove
     = obj (strip_props (entries base) (entries toRemove))
  /\ Object_keys (stripOverrideKeys base toRemove)
     = filter (hasOwn (stripOverrideKeys base toRemove)) (Object_keys base).
Proof.
  split; [reflexivity|].
  refine (stripOverrideKeys_rebuild
            (obj [("z", VNull); ("mcp", VString "x"); ("a", VBool true)])
            (obj [("a", VNull); ("q", VNull)]) eq_refl eq_refl _ _);
    apply nodup_keys_NoDup; reflexivity.
Defined.

(** Stripping a plain object by itself leaves the empty object, whatever
    it holds. *)
Theorem stripOverrideKeys_self value :
  isPlainObject value = true -> unique_keys value = true ->
  stripOverrideKeys value value = empty_object.
Proof.
  induction value as [| | | | | | | |items _|proto props _ IH] using Value_induction;
    try discriminate.
  intros Hp Hu. destruct proto; try discriminate.
  destruct (unique_keys_object _ _ Hu) as [Hnd Hall].
  rewrite stripOverrideKeys_plain. fold (obj props).
  rewrite fold_strip_rebuild by assumption.
  rewrite strip_props_all_removed; [reflexivity|].
  intros [k bv] Hin. unfold strip_entry. cbn [fst snd].
  pose proof (In_own _ _ _ Hnd Hin) as Hown. rewrite Hown.
  destruct (isPlainObject bv) eqn:Hbv; [|reflexivity]. cbn [andb].
  rewrite Forall_forall in IH. specialize (IH _ Hin Hbv (Hall _ _ Hown)).
  cbn [snd] in IH. now rewrite IH.
Qed.

Lemma stripOverrideKeys_self_witness :
  stripOverrideKeys github_config github_config = empty_object.
Proof. exact (stripOverrideKeys_self github_config eq_refl eq_refl). Defined.

(** When no key of [toRemove] is an own key of [base], the result is
    [base]: so it is for an empty [toRemove] and for an empty [base]. *)
Theorem stripOverrideKeys_no_common_key base toRemove :
  (forall key, In key (Object_keys toRemove) -> hasOwn base key = false) ->
  stripOverrideKeys base toRemove = base.
Proof.
  intros Hdis.
  destruct (isPlainObject base && isPlainObject toRemove) eqn:Hboth;
    [|now apply stripOverrideKeys_not_plain].
  apply andb_true_iff in Hboth. destruct Hboth as [Hb Hr].
  destruct (isPlainObject_inv _ Hb) as [bprops ->].
  destruct (isPlainObject_inv _ Hr) as [rprops ->].
  rewrite stripOverrideKeys_plain. clear Hr. unfold Object_keys in Hdis.
  cbn [entries] in Hdis.
  induction rprops as [|[k rv] r IH]; [reflexivity|].
  cbn [fold_left]. unfold strip_step at 2.
  rewrite (Hdis k) by now left. cbn [negb].
  apply IH. intros key Hin. apply Hdis. now right.
Qed.

Lemma stripOverrideKeys_no_common_key_witness :
  stripOverrideKeys github_config empty_object = github_config
  /\ stripOverrideKeys empty_object github_config = empty_object.
Proof.
  split.
  - apply (stripOverrideKeys_no_common_key github_config empty_object).
    intros key [].
  - apply (stripOverrideKeys_no_common_key empty_object github_config).
    reflexivity.
Defined.

(** Stripping twice by the same [toRemove] is stripping once. *)
Theorem stripOverrideKeys_idempotent base toRemove :
  unique_keys base = true -> unique_keys toRemove = true ->
  stripOverrideKeys (stripOverrideKeys base toRemove) toRemove
  = stripOverrideKeys base toRemove.
Proof.
  revert base.
  induction toRemove as [| | | | | | | |items _|proto rprops _ IH] using Value_induction;
    intros base Hub Hur;
    try (rewrite !stripOverrideKeys_not_plain; [reflexivity| |];
         apply andb_false_r).
  destruct (isPlainObject base && isPlainObject (VObject proto rprops)) eqn:Hboth.
  2:{ now rewrite !(stripOverrideKeys_not_plain base _ Hboth). }
  apply andb_true_iff in Hboth. destruct Hboth as [Hb Hr].
  destruct (isPlainObject_inv _ Hb) as [bprops ->].
  destruct proto; try discriminate.
  destruct (unique_keys_object _ _ Hub) as [Hnb _].
  destruct (unique_keys_object _ _ Hur) as [Hnr Hallr].
  rewrite (stripOverrideKeys_plain bprops). fold (obj bprops).
  rewrite fold_strip_rebuild by assumption.
  unfold obj at 1. rewrite stripOverrideKeys_plain.
  fold (obj (strip_props bprops rprops)).
  rewrite fold_strip_rebuild by (auto using NoDup_strip_props).
  f_equal.
  assert (Hchild : forall k v, In (k, v) bprops -> unique_keys v = true)
    by (intros k v; apply unique_keys_child with (1 := Hub)).
  clear Hub Hnb Hb. induction bprops as [|[k v] b IHb]; [reflexivity|].
  change (strip_props ((k, v) :: b) rprops)
    with (strip_entry rprops (k, v) ++ strip_props b rprops).
  rewrite strip_props_app, IHb by (intros k' v' H; eapply Hchild; right; exact H).
  f_equal.
  unfold strip_entry. cbn [fst snd].
  destruct (own k rprops) as [rv|] eqn:Hrv.
  - destruct (isPlainObject rv && isPlainObject v) eqn:Hp; [|reflexivity].
    cbv zeta. destruct (is_empty_object (stripOverrideKeys v rv)) eqn:He; [reflexivity|].
    unfold strip_props. cbn [flat_map]. rewrite app_nil_r.
    unfold strip_entry. cbn [fst snd]. rewrite Hrv.
    apply andb_true_iff in Hp. destruct Hp as [Hprv Hpv].
    rewrite Hprv, stripOverrideKeys_is_plain by exact Hpv. cbn [andb].
    rewrite Forall_forall in IH.
    rewrite (IH _ (own_In _ _ _ Hrv)).
    + cbn [snd]. now rewrite He.
    + eapply Hchild. now left.
    + eapply Hallr, Hrv.
  - unfold strip_props. cbn [flat_map]. rewrite app_nil_r.
    now apply strip_entry_absent.
Qed.

Lemma stripOverrideKeys_idempotent_witness :
  stripOverrideKeys (stripOverrideKeys two_headers_config strip_example)
    strip_example
  = stripOverrideKeys two_headers_config strip_example.
Proof.
  exact (stripOverrideKeys_idempotent two_headers_config strip_example
           eq_refl eq_refl).
Defined.

(** Which values survive: when [base] is a tree of plain mappings, a
    value that is not a mapping is at a path of the result exactly when
    it is at that path of [base] and [toRemove] spares the path.  Nothing
    is added and no such value is altered. *)
Theorem stripOverrideKeys_leaves base toRemove path value :
  isPlainObject base = true -> isPlainObject toRemove = true ->
  all_plain base = true -> unique_keys toRemove = true ->
  is_mapping value = false ->
  get_path (stripOverrideKeys base toRemove) path = Some value
  <-> get_path base path = Some value /\ spares toRemove path = true.
Proof. apply stripOverrideKeys_leaf. Qed.

Lemma stripOverrideKeys_leaves_witness :
  get_path (stripOverrideKeys two_headers_config strip_example)
    (header_path "a" "Y") = Some (VString "2")
  /\ (get_path (stripOverrideKeys two_headers_config strip_example)
        (header_path "a" "X") = Some (VString "1")
      <-> get_path two_headers_config (header_path "a" "X") = Some (VString "1")
          /\ spares strip_example (header_path "a" "X") = true).
Proof.
  split.
  - apply (stripOverrideKeys_leaves two_headers_config strip_example
             (header_path "a" "Y") (VString "2") eq_refl eq_refl eq_refl eq_refl
             eq_refl).
    split; reflexivity.
  - exact (stripOverrideKeys_leaves two_headers_config strip_example
             (header_path "a" "X") (VString "1") eq_refl eq_refl eq_refl eq_refl
             eq_refl).
Defined.

(** Stripping keeps a document a document: the result of stripping a
    JSON-compatible mapping is a JSON-compatible mapping. *)
Theorem stripOverrideKeys_keeps_document base toRemove :
  is_document base = true -> unique_keys toRemove = true ->
  is_document (stripOverrideKeys base toRemove) = true.
Proof.
  intros Hd Hu. destruct (is_document_inv _ Hd) as [Hp Hc].
  unfold is_document. rewrite stripOverrideKeys_is_plain by exact Hp.
  now apply stripOverrideKeys_json.
Qed.

Lemma stripOverrideKeys_keeps_document_witness :
  is_document (stripOverrideKeys two_headers_config strip_example) = true.
Proof.
  exact (stripOverrideKeys_keeps_document two_headers_config strip_example
           eq_refl eq_refl).
Defined.

(** Stripping the extracted overrides from the document removes its
    secrets and nothing else: when no secret lies under a server or a
    header named [__proto__], a value that is not a mapping is at a path
    of [stripOverrideKeys(config, secretOverrides)] exactly when it is at
    that path of the document and is not a secret there. *)
Theorem extract_then_strip config :
  is_document config = true ->
  (forall q, secret_at config q -> ~ In "__proto__" q) ->
  exists r,
    extractMcpSecrets config = Ok r
    /\ forall p v,
         is_mapping v = false ->
         get_path (stripOverrideKeys config (secretOverrides r)) p = Some v
         <-> get_path config p = Some v /\ ~ secret_at config p.
Proof.
  intros Hd Hnp. destruct (is_document_inv _ Hd) as [Hplain Hc].
  eexists. split; [apply extract_document, Hd|]. cbn [secretOverrides].
  intros p v Hv.
  destruct (apply_writes_tidy (doc_writes config) (doc_writes_plain _ Hc Hnp)
              (fun q v => doc_writes_unique_values config q v Hc) [] eq_refl eq_refl)
    as (oprops & E & Hop & Hou).
  pose proof (stripOverrideKeys_leaf p config (obj oprops) v Hplain eq_refl
                (json_compatible_all_plain _ Hc) Hou Hv) as Hleaf.
  change (obj []) with empty_object in E. rewrite E, Hleaf. clear Hleaf.
  split; intros [Hg Hs]; (split; [exact Hg|]).
  - intros Hsec. rewrite <- E in Hs.
    assert (Hrec : get_path (apply_writes (doc_writes config) empty_object) p = Some v).
    { apply (apply_writes_complete (doc_writes config)
               (doc_writes_plain _ Hc Hnp)) with (props := []).
      - intros q' a b Ha Hb.
        destruct (doc_writes_sound _ _ _ Hc Ha) as [_ Ha'].
        destruct (doc_writes_sound _ _ _ Hc Hb) as [_ Hb']. congruence.
      - reflexivity.
      - now apply doc_writes_complete. }
    rewrite (spares_present _ _ _ Hrec) in Hs. discriminate.
  - destruct (spares (obj oprops) p) eqn:Hsp; [reflexivity|]. exfalso. apply Hs.
    assert (Hp : p <> []).
    { intros ->. cbn in Hg. injection Hg as <-.
      rewrite (isPlainObject_mapping _ Hplain) in Hv. discriminate. }
    destruct (spares_false_inv p (obj oprops) Hp Hsp)
      as (p1 & p2 & x & -> & Hp1 & Hx & Hcase).
    rewrite <- E in Hx.
    destruct (overrides_sound _ _ _ Hc Hp1 Hx) as (q & w & Hin & [[Hpre Hm]|[-> ->]]).
    + assert (isPlainObject x = true) as Hxp.
      { apply all_plain_mapping; [|exact Hm].
        rewrite E in Hx. eapply get_path_all_plain; eauto. }
      destruct Hcase as [Hcase| ->]; [congruence|]. rewrite app_nil_r in *.
      destruct Hpre as (k & r & ->).
      destruct (doc_writes_sound _ _ _ Hc Hin) as [_ Hq].
      rewrite get_path_app, Hg in Hq.
      rewrite get_path_leaf in Hq by (auto; discriminate). discriminate.
    + destruct (doc_writes_sound _ _ _ Hc Hin) as [Hsec Hq].
      rewrite get_path_app, Hq in Hg.
      destruct p2 as [|k r]; [now rewrite app_nil_r|].
      destruct Hsec as [_ (y & Hy & Hsy)]. assert (y = w) as -> by congruence.
      rewrite get_path_leaf in Hg by (auto using isSecretString_leaf; discriminate).
      discriminate.
Qed.

Lemma extract_then_strip_witness :
  is_document github_config = true
  /\ exists r,
       extractMcpSecrets github_config = Ok r
       /\ forall p v,
            is_mapping v = false ->
            get_path (stripOverrideKeys github_config (secretOverrides r)) p
            = Some v
            <-> get_path github_config p = Some v
                /\ ~ secret_at github_config p.
Proof.
  split; [reflexivity|].
  exact (extract_then_strip github_config eq_refl github_config_no_proto).
Defined.

End Further.
